(** * Rainyun check-in: the captcha-solving engine of [rainyun.py]

    A shallow embedding of the puzzle-solving functions of [src/rainyun.py]
    ([process_captcha], [download_captcha_img], [download_image],
    [check_captcha], [check_answer], [compute_similarity] and the style
    parsers) together with the properties the specification states about
    them.

    Modelling choices, all visible in the definitions below:
    - Python [float]s.  A similarity score is the quotient of two list
      lengths, which the code only stores and compares: it is the exact
      quotient ([Qc], canonical fractions, so that Python's [==] is Leibniz
      equality).  The coordinates of the clicks are computed in IEEE-754
      binary64, as Python computes them: [spec_float] of the Standard
      Library at 53 bits of precision, every operation rounded to nearest
      even, [int()] truncating and failing on nan and on the infinities.
    - Python [dict]s with string keys are [gmap string pyval].
    - The code is stateful and fallible: it runs in a state-and-exception
      monad [M] whose state holds the scratch directory ["temp"] and the
      chronological trace of observable events.
    - Everything outside the repository (selenium, requests, cv2, ddddocr,
      [re], [float], [int]) is a field of the record [world]; the browser
      and the network answer per attempt and per call site.
    - The messages of the log and of the exceptions are given in English. *)

From Stdlib Require Import QArith Qcanon ZArith Ascii DecimalString SpecFloat.
From stdpp Require Import gmap strings list fin_maps pretty numbers countable sorting.

Open Scope Z_scope.
Open Scope nat_scope.

(** ** Python values, exceptions, results *)

Definition bytes := list Byte.byte.

Global Instance byte_eq_dec : EqDecision Byte.byte := Byte.byte_eq_dec.

(** The values stored in the [result] dictionary of [process_captcha]:
    similarity scores (floats) and position strings. *)
Inductive pyval : Type :=
  | PyFloat (q : Qc)
  | PyStr (s : string).

Global Instance pyval_eq_dec : EqDecision pyval.
Proof. solve_decision. Defined.

Global Instance pyval_countable : Countable pyval.
Proof.
  refine (inj_countable'
            (λ v, match v with PyFloat q => inl q | PyStr s => inr s end)
            (λ x, match x with inl q => PyFloat q | inr s => PyStr s end) _).
  by intros [].
Defined.

(** The exception classes the code distinguishes.  [OtherException] stands
    for every other subclass of [Exception] ([cv2.error], [KeyError],
    [NoSuchElementException], [ZeroDivisionError], [OSError], ...),
    [NonException] for a [BaseException] that is not an [Exception]
    ([KeyboardInterrupt], [SystemExit]). *)
Inductive exn : Type :=
  | TimeoutException
  | ValueError (msg : string)
  | CaptchaRetryableError (msg : string)
  | RequestException
  | OtherException (cls : string)
  | NonException (cls : string).

Global Instance exn_eq_dec : EqDecision exn.
Proof. solve_decision. Defined.

(** [except (TimeoutException, ValueError, CaptchaRetryableError)] *)
Definition retryable (e : exn) : bool :=
  match e with
  | TimeoutException | ValueError _ | CaptchaRetryableError _ => true
  | _ => false
  end.

(** [except Exception] *)
Definition is_Exception (e : exn) : bool :=
  match e with NonException _ => false | _ => true end.

(** [except requests.RequestException] *)
Definition is_RequestException (e : exn) : bool :=
  match e with RequestException => true | _ => false end.

Inductive res (A : Type) : Type :=
  | Ok (a : A)
  | Raise (e : exn).
Arguments Ok {A} a.
Arguments Raise {A} e.

(** ** Floats in binary64

    The operations of Python on [float]s, where the code computes with
    them: negation, [/], [*] and [+] round to nearest even and never
    raise here (the only divisor is the constant 2). *)
Module binary64.

Definition prec : Z := 53.
Definition emax : Z := 1024.

Definition float : Type := spec_float.

Definition opp : float → float := SFopp.
Definition add : float → float → float := SFadd prec emax.
Definition mul : float → float → float := SFmul prec emax.
Definition div : float → float → float := SFdiv prec emax.

(** The float of a Python int that is small enough to have one. *)
Definition of_Z (z : Z) : float := binary_normalize prec emax z 0 false.

Definition two : float := of_Z 2.

(** The quotient of two ints, rounded once; the divisor is not zero. *)
Definition quotient (a b : Z) : float :=
  match a with
  | Z0 => S754_zero (b <? 0)%Z
  | _ => SFdiv prec emax (S754_finite (a <? 0)%Z (Z.to_pos (Z.abs a)) 0)
                         (S754_finite (b <? 0)%Z (Z.to_pos (Z.abs b)) 0)
  end.

(** A value of the format: zero, infinite, nan, or a mantissa of at most
    53 bits at its canonical exponent. *)
Definition valid (f : float) : Prop := valid_binary prec emax f = true.

Definition finite (f : float) : Prop :=
  match f with
  | S754_zero _ | S754_finite _ _ _ => True
  | _ => False
  end.

End binary64.

(** ** Images and NumPy slicing *)

Definition pixel := Z.

(** A decoded raster: [shape[1]] columns, one list of pixels per row. *)
Record image : Type := Image { im_width : nat; im_rows : list (list pixel) }.

Definition shape0 (img : image) : nat := length (im_rows img).
Definition shape1 (img : image) : nat := im_width img.

(** Normalisation of one bound of a Python slice [a:b] over a sequence of
    length [n]: negative bounds count from the end, all bounds are clipped. *)
Definition slice_index (n : nat) (i : Z) : nat :=
  if (i <? 0)%Z then Z.to_nat (Z.max 0 (i + Z.of_nat n)) else Nat.min (Z.to_nat i) n.

Definition py_slice {A} (l : list A) (a b : Z) : list A :=
  let lo := slice_index (length l) a in
  let hi := slice_index (length l) b in
  take (hi - lo) (drop lo l).

(** [img[:, a:b]] *)
Definition slice_cols (img : image) (a b : Z) : image :=
  let lo := slice_index (im_width img) a in
  let hi := slice_index (im_width img) b in
  Image (hi - lo) (map (λ r, take (hi - lo) (drop lo r)) (im_rows img)).

(** [img[a:b, :]] *)
Definition slice_rows (img : image) (a b : Z) : image :=
  Image (im_width img) (py_slice (im_rows img) a b).

Record bbox : Type := Bbox { bx1 : Z; by1 : Z; bx2 : Z; by2 : Z }.

(** [captcha[y1:y2, x1:x2]] *)
Definition crop (img : image) (b : bbox) : image :=
  slice_cols (slice_rows img (by1 b) (by2 b)) (bx1 b) (bx2 b).

(** ** The world outside the repository *)

Record DMatch : Type := { distance : Qc }.
Definition descriptors := list (list Qc).
Record response : Type := Response { status_code : Z; content : bytes }.

(** The two places where [process_captcha] clicks the refresh control:
    after an unsuccessful attempt (line 279) and in the exception handler
    (line 289). *)
Inductive reload_site : Type := ReloadAfterAttempt | ReloadInHandler.

Global Instance reload_site_eq_dec : EqDecision reload_site.
Proof. solve_decision. Defined.

Record world : Type := World {
  (* cv2 *)
  cv2_imdecode : bytes → option image;
  cv2_imdecode_gray : bytes → option image;
  cv2_imencode : image → res bytes;
  sift_detectAndCompute : image → option descriptors;
  bf_knnMatch : descriptors → descriptors → list (list DMatch);
  (* ddddocr *)
  ocr_classification : bytes → res string;
  det_detection : bytes → res (list bbox);
  (* re.search(...).group(1), float(), int() *)
  re_url : string → option string;
  re_width : string → option string;
  re_height : string → option string;
  py_float_of_str : string → option Qc;
  py_int_of_str : string → option Z;
  (* float() on a size of the style, in binary64 *)
  py_float64_of_str : string → option binary64.float;
  (* requests.get, by attempt, target file name and url *)
  requests_get : nat → string → string → res response;
  (* selenium; the first argument is always [retry_count] *)
  slideBg_style : nat → nat → res (option string);
  sprite_src : nat → res (option string);
  move_click : nat → nat → Z → Z → res unit;
  confirm_button : nat → res unit;
  confirm_click : nat → res unit;
  result_success : nat → res bool;
  find_reload : nat → reload_site → res unit;
  click_reload : nat → reload_site → res unit
}.

(** ** State: the scratch directory and the event trace *)

Inductive level : Type := Info | Warning | Error.

Global Instance level_eq_dec : EqDecision level.
Proof. solve_decision. Defined.

Inductive event : Type :=
  | EvAcquire                                  (* entry of download_captcha_img *)
  | EvRead (name : string) (stamp : option nat) (* a read of temp/name *)
  | EvWrite (name : string)
  | EvHttpGet (url : string)
  | EvClassify
  | EvDetect
  | EvMoveClick (dx dy : Z)
  | EvSubmit
  | EvFindReload
  | EvClickReload
  | EvSleep (seconds : nat)
  | EvLog (lvl : level) (msg : string).

Global Instance event_eq_dec : EqDecision event.
Proof. solve_decision. Defined.

(** An entry of the scratch directory.  A file remembers, as ghost data,
    during which acquisition it was written.  Symbolic links are files. *)
Inductive entry : Type :=
  | EFile (data : bytes) (stamp : nat)
  | EDir.

Global Instance entry_eq_dec : EqDecision entry.
Proof. solve_decision. Defined.

(** [scratch = None]: the directory ["temp"] does not exist. *)
Record state : Type := State {
  scratch : option (gmap string entry);
  trace : list event
}.

(** Number of acquisitions started so far. *)
Definition acquisitions (t : list event) : nat :=
  length (filter (λ e, e = EvAcquire) t).

Definition epoch (st : state) : nat := acquisitions (trace st).

(** ** The monad *)

Definition M (A : Type) : Type := state → res A * state.

Definition ret {A} (a : A) : M A := λ st, (Ok a, st).
Definition raise {A} (e : exn) : M A := λ st, (Raise e, st).
Definition lift {A} (r : res A) : M A := λ st, (r, st).
Definition bind {A B} (m : M A) (k : A → M B) : M B :=
  λ st, match m st with
        | (Ok a, st') => k a st'
        | (Raise e, st') => (Raise e, st')
        end.

(** [try: m  except <catches> as e: h e] *)
Definition try_except {A} (m : M A) (catches : exn → bool) (h : exn → M A) : M A :=
  λ st, match m st with
        | (Raise e, st') => if catches e then h e st' else (Raise e, st')
        | r => r
        end.

Notation "'let*' x := m 'in' k" := (bind m (λ x, k))
  (at level 10, x name, m at level 100, k at level 200).
Notation "m ;; k" := (bind m (λ _, k))
  (at level 100, k at level 200, right associativity).

Definition emit (e : event) : M unit :=
  λ st, (Ok tt, State (scratch st) (trace st ++ [e])).

Definition log (lvl : level) (msg : string) : M unit := emit (EvLog lvl msg).
Definition sleep (n : nat) : M unit := emit (EvSleep n).

(** *** The scratch directory *)

(** [os.makedirs("temp", exist_ok=True)] *)
Definition makedirs : M unit :=
  λ st, (Ok tt, State (Some (default ∅ (scratch st))) (trace st)).

(** The loop of [download_captcha_img]: every file (or link) of ["temp"]
    is removed, sub-directories stay. *)
Definition clear_scratch : M unit :=
  λ st, (Ok tt, State (filter (λ kv, kv.2 = EDir) <$> scratch st) (trace st)).

(** Writing temp/name; [false] when the directory is missing or the name
    is a directory. *)
Definition fs_write (name : string) (data : bytes) : M bool :=
  λ st, match scratch st with
        | None => (Ok false, st)
        | Some fs =>
            match fs !! name with
            | Some EDir => (Ok false, st)
            | _ => (Ok true,
                    State (Some (<[name := EFile data (epoch st)]> fs))
                          (trace st ++ [EvWrite name]))
            end
        end.

(** Reading temp/name; [None] when there is no such file. *)
Definition fs_read (name : string) : M (option bytes) :=
  λ st, match scratch st ≫= (.!! name) with
        | Some (EFile data s) =>
            (Ok (Some data), State (scratch st) (trace st ++ [EvRead name (Some s)]))
        | _ => (Ok None, State (scratch st) (trace st ++ [EvRead name None]))
        end.

(** [with open(path, "wb") as f: f.write(data)] *)
Definition open_write (name : string) (data : bytes) : M unit :=
  let* ok := fs_write name data in
  if ok then ret tt else raise (OtherException "OSError").

(** [with open(path, "rb") as f: f.read()] *)
Definition open_read (name : string) : M bytes :=
  let* data := fs_read name in
  match data with
  | Some d => ret d
  | None => raise (OtherException "OSError")
  end.

(** ** The functions of [rainyun.py] *)

Section Rainyun.

Context (w : world).

(** *** cv2 on files of the scratch directory *)

(** [cv2.imread("temp/" + name)]: [None] for a missing or corrupt file. *)
Definition cv2_imread (name : string) : M (option image) :=
  let* data := fs_read name in
  ret (data ≫= cv2_imdecode w).

(** [cv2.imread("temp/" + name, cv2.IMREAD_GRAYSCALE)] *)
Definition cv2_imread_gray (name : string) : M (option image) :=
  let* data := fs_read name in
  ret (data ≫= cv2_imdecode_gray w).

(** [cv2.imwrite("temp/" + name, img)]: the encoder may raise; a failed
    write only makes the call return [False], which the code ignores. *)
Definition cv2_imwrite (name : string) (img : image) : M bool :=
  let* data := lift (cv2_imencode w img) in
  fs_write name data.

(** *** download_image (lines 170-184) *)

Definition download_image (retry_count : nat) (url filename : string) : M bool :=
  makedirs ;;
  try_except
    (emit (EvHttpGet url) ;;
     let* response := lift (requests_get w retry_count filename url) in
     if decide (status_code response = 200%Z) then
       open_write filename (content response) ;;
       ret true
     else
       log Error "download failed: bad status code" ;;
       ret false)
    is_RequestException
    (λ _, log Error "download failed: network error" ;; ret false).

(** *** The style parsers (lines 187-214) *)

(** The three parsers share one shape: [if not style: raise ValueError],
    then [re.search], then [if not match: raise ValueError].  [not style]
    holds for [None] and for the empty string. *)
Definition parse_style (search : string → option string) (what : string)
    (style : option string) : M string :=
  match style with
  | None => raise (ValueError ("style is empty: " +:+ what))
  | Some s =>
      if bool_decide (s = EmptyString) then
        raise (ValueError ("style is empty: " +:+ what))
      else match search s with
           | None => raise (ValueError ("cannot parse from style: " +:+ what))
           | Some g => ret g
           end
  end.

Definition get_url_from_style := parse_style (re_url w) "url".
Definition get_width_from_style := parse_style (re_width w) "width".
Definition get_height_from_style := parse_style (re_height w) "height".

(** [float(s)] on a string *)
Definition py_float (s : string) : M Qc :=
  match py_float_of_str w s with
  | Some q => ret q
  | None => raise (ValueError "could not convert string to float")
  end.

(** [float(s)] on a size found in the style: a binary64 *)
Definition py_float64 (s : string) : M binary64.float :=
  match py_float64_of_str w s with
  | Some f => ret f
  | None => raise (ValueError "could not convert string to float")
  end.

(** [int(s)] on a string *)
Definition py_int (s : string) : M Z :=
  match py_int_of_str w s with
  | Some z => ret z
  | None => raise (ValueError "invalid literal for int()")
  end.

(** *** download_captcha_img (lines 299-317) *)

(** Lines 305-317: locate the two images and download them. *)
Definition fetch_images (retry_count : nat) : M unit :=
  let* img1_style := lift (slideBg_style w retry_count 0) in
  let* img1_url := get_url_from_style img1_style in
  log Info "downloading captcha image (1)" ;;
  let* ok1 := download_image retry_count img1_url "captcha.jpg" in
  if negb ok1 then raise (CaptchaRetryableError "captcha background download failed")
  else
    let* src := lift (sprite_src w retry_count) in
    match src with
    | None => raise (OtherException "TypeError")
    | Some img2_url =>
        log Info "downloading captcha image (2)" ;;
        let* ok2 := download_image retry_count img2_url "sprite.jpg" in
        if negb ok2 then raise (CaptchaRetryableError "captcha sprite download failed")
        else ret tt
    end.

(** Lines 300-304 empty the scratch directory first.  [EvAcquire] marks
    the entry of the function in the trace. *)
Definition download_captcha_img (retry_count : nat) : M unit :=
  emit EvAcquire ;;
  clear_scratch ;;
  fetch_images retry_count.

(** *** check_captcha (lines 320-334) *)

(** [f"sprite_{i + 1}.jpg"] and [f"spec_{i + 1}.jpg"] *)
Definition sprite_file (i : nat) : string := "sprite_" +:+ pretty (i + 1) +:+ ".jpg".
Definition spec_file (i : nat) : string := "spec_" +:+ pretty (i + 1) +:+ ".jpg".

(** [raw[:, w // 3 * i: w // 3 * (i + 1)]] with [w = raw.shape[1]] *)
Definition third (raw : image) (i : nat) : image :=
  let wd := Z.of_nat (shape1 raw) in
  slice_cols raw (wd `div` 3 * Z.of_nat i) (wd `div` 3 * (Z.of_nat i + 1)).

(** The body of [for i in range(3)], with its early [return False]. *)
Fixpoint check_thirds (raw : image) (idxs : list nat) : M bool :=
  match idxs with
  | [] => ret true
  | i :: rest =>
      cv2_imwrite (sprite_file i) (third raw i) ;;
      let* temp_rb := open_read (sprite_file i) in
      emit EvClassify ;;
      let* label := lift (ocr_classification w temp_rb) in
      if bool_decide (label ∈ ["0"; "1"]) then ret false
      else check_thirds raw rest
  end.

Definition check_captcha : M bool :=
  let* raw := cv2_imread "sprite.jpg" in
  match raw with
  | None =>
      log Error "sprite image could not be read" ;;
      ret false
  | Some raw => check_thirds raw (seq 0 3)
  end.

(** *** check_answer (lines 338-347) *)

(** [flipped[d[key]] = key] for every key of [d].  The order in which the
    keys are visited decides which key a repeated value keeps, not how many
    keys [flipped] has, and only the latter is used. *)
Definition flip_dict (d : gmap string pyval) : gmap pyval string :=
  map_fold (λ key v flipped, <[v := key]> flipped) ∅ d.

Definition check_answer (d : gmap string pyval) : M bool :=
  if bool_decide (size d = 0) || bool_decide (size d < 6) then
    log Warning "captcha result incomplete" ;;
    ret false
  else
    ret (bool_decide (size d = size (flip_dict d))).

(** *** compute_similarity (lines 350-370) *)

(** True division [a / b] of two Python ints. *)
Definition py_truediv (a b : Z) : M Qc :=
  if decide (b = 0%Z) then raise (OtherException "ZeroDivisionError")
  else ret (Q2Qc (inject_Z a) / Q2Qc (inject_Z b))%Qc.

(** [m.distance < 0.8 * n.distance] for a two-element [m_n]; the list
    comprehension keeps [m] then. *)
Definition good_of (m_n : list DMatch) : list DMatch :=
  match m_n with
  | [m; n] => if decide (distance m < Q2Qc (8 # 10) * distance n)%Qc then [m] else []
  | _ => []
  end.

Definition good_matches (matches : list (list DMatch)) : list DMatch :=
  flat_map good_of matches.

(** [sift.detectAndCompute(img, None)[1]]; OpenCV raises on a missing image. *)
Definition detectAndCompute (img : option image) : M (option descriptors) :=
  match img with
  | None => raise (OtherException "cv2.error")
  | Some i => ret (sift_detectAndCompute w i)
  end.

Definition compute_similarity (img1_path img2_path : string) : M (Qc * nat) :=
  let* img1 := cv2_imread_gray img1_path in
  let* img2 := cv2_imread_gray img2_path in
  let* des1 := detectAndCompute img1 in
  let* des2 := detectAndCompute img2 in
  match des1, des2 with
  | Some d1, Some d2 =>
      let matches := bf_knnMatch w d1 d2 in
      let good := good_matches matches in
      if bool_decide (length good = 0) then ret (Q2Qc 0, 0)
      else
        let* similarity :=
          py_truediv (Z.of_nat (length good)) (Z.of_nat (length matches)) in
        ret (similarity, length good)
  | _, _ => ret (Q2Qc 0, 0)
  end.

(** *** process_captcha (lines 217-296) *)

(** [f"sprite_{j + 1}.similarity"] and [f"sprite_{j + 1}.position"] *)
Definition similarity_key (j : nat) : string :=
  "sprite_" +:+ pretty (j + 1) +:+ ".similarity".
Definition position_key (j : nat) : string :=
  "sprite_" +:+ pretty (j + 1) +:+ ".position".

(** [f"{int((x1 + x2) / 2)},{int((y1 + y2) / 2)}"]: [int] truncates
    towards zero. *)
Definition center (b : bbox) : string :=
  pretty ((bx1 b + bx2 b) `quot` 2)%Z +:+ "," +:+ pretty ((by1 b + by2 b) `quot` 2)%Z.

(** [float(v)] on a stored value *)
Definition float_of (v : pyval) : M Qc :=
  match v with
  | PyFloat q => ret q
  | PyStr s => py_float s
  end.

Definition store (j : nat) (similarity : Qc) (position : string)
    (result : gmap string pyval) : gmap string pyval :=
  <[position_key j := PyStr position]> (<[similarity_key j := PyFloat similarity]> result).

(** Lines 240-248: keep the candidate only if the sprite has no entry yet
    or its stored similarity is strictly smaller. *)
Definition record_match (result : gmap string pyval) (j : nat)
    (similarity : Qc) (position : string) : M (gmap string pyval) :=
  match result !! similarity_key j with
  | Some old =>
      let* f := float_of old in
      if decide (f < similarity)%Qc then ret (store j similarity position result)
      else ret result
  | None => ret (store j similarity position result)
  end.

(** [for j in range(3)] of lines 238-248 for candidate [i]. *)
Fixpoint match_sprites (i : nat) (b : bbox) (js : list nat)
    (result : gmap string pyval) : M (gmap string pyval) :=
  match js with
  | [] => ret result
  | j :: rest =>
      let* sm := compute_similarity (sprite_file j) (spec_file i) in
      let* result' := record_match result j sm.1 (center b) in
      match_sprites i b rest result'
  end.

(** [for i in range(len(bboxes))] of lines 234-248, from index [i] on. *)
Fixpoint match_boxes (captcha : image) (i : nat) (bboxes : list bbox)
    (result : gmap string pyval) : M (gmap string pyval) :=
  match bboxes with
  | [] => ret result
  | b :: rest =>
      cv2_imwrite (spec_file i) (crop captcha b) ;;
      let* result' := match_sprites i b (seq 0 3) result in
      match_boxes captcha (S i) rest result'
  end.

(** [d[key]] *)
Definition dict_get (d : gmap string pyval) (key : string) : M pyval :=
  match d !! key with
  | Some v => ret v
  | None => raise (OtherException "KeyError")
  end.

(** [s.split(",")] *)
Fixpoint split_comma (s : string) : list string :=
  match s with
  | EmptyString => [EmptyString]
  | String c rest =>
      if Ascii.eqb c ","%char then EmptyString :: split_comma rest
      else match split_comma rest with
           | p :: ps => String c p :: ps
           | [] => [String c EmptyString]
           end
  end.

(** [int(positon.split(",")[0]), int(positon.split(",")[1])] *)
Definition parse_position (positon : pyval) : M (Z * Z) :=
  match positon with
  | PyFloat _ => raise (OtherException "AttributeError")
  | PyStr s =>
      let* x := match split_comma s !! 0 with
                | Some p => py_int p
                | None => raise (OtherException "IndexError")
                end in
      let* y := match split_comma s !! 1 with
                | Some p => py_int p
                | None => raise (OtherException "IndexError")
                end in
      ret (x, y)
  end.

(** [a / b] on two Python ints, as Python computes it: the quotient
    rounded once to binary64, [OverflowError] when it is too large for a
    float. *)
Definition py_truediv64 (a b : Z) : M binary64.float :=
  if decide (b = 0%Z) then raise (OtherException "ZeroDivisionError")
  else match binary64.quotient a b with
       | S754_infinity _ => raise (OtherException "OverflowError")
       | q => ret q
       end.

(** [int(f)] on a float: truncation towards zero; nan and the infinities
    have no integer. *)
Definition int_of_float (f : binary64.float) : M Z :=
  match f with
  | S754_zero _ => ret 0%Z
  | S754_finite s m e => ret (cond_Zopp s (Z.shiftl (Zpos m) e))
  | S754_infinity _ => raise (OtherException "OverflowError")
  | S754_nan => raise (ValueError "cannot convert float NaN to integer")
  end.

(** The coordinate mapper, one axis (lines 260-261): the float
    [float(-display / 2) + position / raw * display] ... *)
Definition axis_value (position : Z) (raw : nat) (display : binary64.float) :
    M binary64.float :=
  let offset := binary64.div (binary64.opp display) binary64.two in
  let* ratio := py_truediv64 position (Z.of_nat raw) in
  ret (binary64.add offset (binary64.mul ratio display)).

(** ... and the [int(...)] of it that is handed to the pointer action. *)
Definition axis_offset (position : Z) (raw : nat) (display : binary64.float) : M Z :=
  let* value := axis_value position raw display in
  int_of_float value.

(** [for i in range(3)] of lines 250-262. *)
Fixpoint click_sprites (retry_count : nat) (captcha : image)
    (result : gmap string pyval) (idxs : list nat) : M unit :=
  match idxs with
  | [] => ret tt
  | i :: rest =>
      let* positon := dict_get result (position_key i) in
      dict_get result (similarity_key i) ;;
      log Info "sprite located" ;;
      let* style := lift (slideBg_style w retry_count (S i)) in
      let* xy := parse_position positon in
      let width_raw := shape1 captcha in
      let height_raw := shape0 captcha in
      let* width_s := get_width_from_style style in
      let* width := py_float64 width_s in
      let* height_s := get_height_from_style style in
      let* height := py_float64 height_s in
      let* final_x := axis_offset xy.1 width_raw width in
      let* final_y := axis_offset xy.2 height_raw height in
      emit (EvMoveClick final_x final_y) ;;
      lift (move_click w retry_count i final_x final_y) ;;
      click_sprites retry_count captcha result rest
  end.

(** Lines 224-275, the branch taken when [check_captcha()] holds.  The
    result [true] stands for the [return True] of line 271, [false] for
    falling through to the refresh of line 279. *)
Definition solve_captcha (retry_count : nat) : M bool :=
  log Info "start recognising the captcha" ;;
  let* captcha := cv2_imread "captcha.jpg" in
  match captcha with
  | None =>
      log Error "captcha background could not be read" ;;
      raise (CaptchaRetryableError "captcha image read failed")
  | Some captcha =>
      let* captcha_b := open_read "captcha.jpg" in
      emit EvDetect ;;
      let* bboxes := lift (det_detection w captcha_b) in
      let* result := match_boxes captcha 0 bboxes ∅ in
      let* ok := check_answer result in
      if ok then
        click_sprites retry_count captcha result (seq 0 3) ;;
        lift (confirm_button w retry_count) ;;
        log Info "submitting the captcha" ;;
        emit EvSubmit ;;
        lift (confirm_click w retry_count) ;;
        sleep 5 ;;
        let* success := lift (result_success w retry_count) in
        if success then
          log Info "captcha passed" ;;
          ret true
        else
          log Error "captcha not passed, retrying" ;;
          ret false
      else
        log Error "captcha recognition failed, retrying" ;;
        ret false
  end.

(** Lines 222-277: one attempt up to, and excluding, the refresh. *)
Definition attempt (retry_count : nat) : M bool :=
  download_captcha_img retry_count ;;
  let* ok := check_captcha in
  if ok then solve_captcha retry_count
  else
    log Error "captcha quality too low, refreshing" ;;
    ret false.

(** Lines 279-282 and 289-292: press the refresh control. *)
Definition refresh (retry_count : nat) (site : reload_site) : M unit :=
  emit EvFindReload ;;
  lift (find_reload w retry_count site) ;;
  sleep 2 ;;
  emit EvClickReload ;;
  lift (click_reload w retry_count site) ;;
  sleep 2.

Definition retry_cap : nat := 5.

(** Lines 222-283, the [try] block: one attempt, then either [return True]
    or the refresh and the recursive call [again] of line 283. *)
Definition try_block (retry_count : nat) (again : M bool) : M bool :=
  let* solved := attempt retry_count in
  if solved then ret true
  else
    refresh retry_count ReloadAfterAttempt ;;
    again.

(** Lines 286-296, the handler of the retryable exceptions: the refresh
    and the recursive call [again] of line 293 sit in an inner [try] whose
    [except Exception] returns [False]. *)
Definition handler (retry_count : nat) (again : M bool) : M bool :=
  log Error "captcha processing exception" ;;
  try_except
    (refresh retry_count ReloadInHandler ;;
     again)
    is_Exception
    (λ _,
       log Error "cannot refresh the captcha, giving up" ;;
       ret false).

(** [process_captcha], by recursion on [remaining = retry_cap -
    retry_count]: [remaining = 0] is the guard [retry_count >= 5]. *)
Fixpoint process_captcha_loop (remaining retry_count : nat) : M bool :=
  match remaining with
  | O =>
      log Error "too many captcha retries, task failed" ;;
      ret false
  | S remaining' =>
      try_except
        (try_block retry_count (process_captcha_loop remaining' (S retry_count)))
        retryable
        (λ _, handler retry_count (process_captcha_loop remaining' (S retry_count)))
  end.

Definition process_captcha (retry_count : nat) : M bool :=
  process_captcha_loop (retry_cap - retry_count) retry_count.

End Rainyun.

(** ** Notions used to state the properties *)

(** A sequence of scored (sprite, candidate) pairs, processed in order by
    the update of lines 240-248; each entry is the sprite index, the
    similarity of the pair and the position string of the candidate. *)
Fixpoint record_all (w : world) (scored : list (nat * Qc * string))
    (result : gmap string pyval) : M (gmap string pyval) :=
  match scored with
  | [] => ret result
  | (j, similarity, position) :: rest =>
      let* result' := record_match w result j similarity position in
      record_all w rest result'
  end.

(** The (sprite, candidate) pairs in the order the loops of lines 234-239
    score them, each with the similarity that [compute_similarity]
    returned for it and the position string of the candidate: the loops
    of [match_sprites] and [match_boxes] without the dictionary. *)
Fixpoint score_sprites (w : world) (i : nat) (b : bbox) (js : list nat) :
    M (list (nat * Qc * string)) :=
  match js with
  | [] => ret []
  | j :: rest =>
      let* sm := compute_similarity w (sprite_file j) (spec_file i) in
      let* scored := score_sprites w i b rest in
      ret ((j, sm.1, center b) :: scored)
  end.

Fixpoint score_boxes (w : world) (captcha : image) (i : nat) (bboxes : list bbox) :
    M (list (nat * Qc * string)) :=
  match bboxes with
  | [] => ret []
  | b :: rest =>
      cv2_imwrite w (spec_file i) (crop captcha b) ;;
      let* scored := score_sprites w i b (seq 0 3) in
      let* scored' := score_boxes w captcha (S i) rest in
      ret (scored ++ scored')
  end.

(** After the pairs [scored], sprite [j] either was never scored and has
    no entry, or its entry is the pair of maximal similarity among those
    scored for it and, among equals, the first one. *)
Definition keeps_first_max (scored : list (nat * Qc * string))
    (result : gmap string pyval) (j : nat) : Prop :=
  ((∀ k s p, scored !! k ≠ Some (j, s, p)) ∧
   result !! similarity_key j = None ∧ result !! position_key j = None) ∨
  (∃ k s p,
     scored !! k = Some (j, s, p) ∧
     result !! similarity_key j = Some (PyFloat s) ∧
     result !! position_key j = Some (PyStr p) ∧
     ∀ k' s' p', scored !! k' = Some (j, s', p') →
                 (s' ≤ s)%Qc ∧ (k' < k → (s' < s)%Qc)).

(** temp/path holds a crop that [cv2.imread(..., IMREAD_GRAYSCALE)] decodes
    to [img]. *)
Definition holds_crop (w : world) (st : state) (path : string) (img : image) : Prop :=
  ∃ data s, scratch st ≫= (.!! path) = Some (EFile data s) ∧
            cv2_imdecode_gray w data = Some img.

(** temp/path holds a file that [cv2.imread] decodes to [img]. *)
Definition holds_image (w : world) (st : state) (path : string) (img : image) : Prop :=
  ∃ data s, scratch st ≫= (.!! path) = Some (EFile data s) ∧
            cv2_imdecode w data = Some img.

(** temp/path holds a file that [cv2.imread] cannot decode. *)
Definition holds_corrupt (w : world) (st : state) (path : string) : Prop :=
  ∃ data s, scratch st ≫= (.!! path) = Some (EFile data s) ∧
            cv2_imdecode w data = None.

(** temp/name can be written: the directory exists and the name is not a
    sub-directory. *)
Definition writable (st : state) (name : string) : Prop :=
  ∃ fs, scratch st = Some fs ∧ fs !! name ≠ Some EDir.

(** Number of calls of the object detector so far. *)
Definition detections (t : list event) : nat :=
  length (filter (λ e, e = EvDetect) t).

(** Every file of the scratch directory was written during the current
    (most recent) acquisition. *)
Definition files_fresh (st : state) : Prop :=
  ∀ fs name data s,
    scratch st = Some fs → fs !! name = Some (EFile data s) → s = epoch st.

(** Every read along the trace found a file written during the acquisition
    that was current at the time of the read ([n] acquisitions were started
    before the trace). *)
Fixpoint fresh_reads (n : nat) (t : list event) : bool :=
  match t with
  | [] => true
  | EvAcquire :: t' => fresh_reads (S n) t'
  | EvRead _ (Some s) :: t' => bool_decide (s = n) && fresh_reads n t'
  | _ :: t' => fresh_reads n t'
  end.

(** The events that [emit] adds on its own behalf, apart from the two
    markers [EvAcquire] and [EvDetect]: reads and writes are added by
    [fs_read] and [fs_write] only. *)
Definition plain (e : event) : bool :=
  match e with
  | EvAcquire | EvDetect | EvRead _ _ | EvWrite _ => false
  | _ => true
  end.

(** The effect of [m] on the state is within the relation [R]. *)
Definition respects (R : relation state) {A} (m : M A) : Prop :=
  ∀ st, R st (m st).2.

(** The trace only grows, by events that satisfy [P]. *)
Definition extends_by (P : event → Prop) : relation state :=
  λ st st', ∃ evs, trace st' = trace st ++ evs ∧ Forall P evs.

(** Fresh files stay fresh and, as long as they do, reads stay fresh. *)
Definition keeps_fresh : relation state :=
  λ st st',
    files_fresh st →
    files_fresh st' ∧
    (fresh_reads 0 (trace st) = true → fresh_reads 0 (trace st') = true).

(** ** A concrete world, for examples

    Images are single rows of pixels, one byte per pixel; a descriptor is
    the value of one pixel; the matcher returns, for each descriptor of the
    first image, its two nearest descriptors of the second. *)
Module Sample.

Definition byte_of_pixel (p : pixel) : Byte.byte :=
  default Byte.x00 (Byte.of_N (Z.to_N p)).

Definition decode (data : bytes) : option image :=
  match data with
  | [] => None
  | _ => Some (Image (length data) [map (λ b, Z.of_N (Byte.to_N b)) data])
  end.

Definition encode (img : image) : res bytes :=
  match im_rows img with
  | (_ :: _) as row :: _ => Ok (map byte_of_pixel row)
  | _ => Raise (OtherException "cv2.error")
  end.

Definition sift (img : image) : option descriptors :=
  match im_rows img with
  | (_ :: _ :: _) as row :: _ => Some (map (λ p, [Q2Qc (inject_Z p)]) row)
  | _ => None
  end.

Definition dist (a b : list Qc) : Qc :=
  let x := default (Q2Qc 0) (head a) in
  let y := default (Q2Qc 0) (head b) in
  if decide (x < y)%Qc then (y - x)%Qc else (x - y)%Qc.

Definition knn (des1 des2 : descriptors) : list (list DMatch) :=
  map (λ a, map Build_DMatch (take 2 (merge_sort Qcle (map (dist a) des2)))) des1.

(** The classifier answers with the first byte when it is the character
    ['0'] or ['1'], and with ["8"] otherwise. *)
Definition classify (data : bytes) : res string :=
  match data with
  | [] => Raise (OtherException "RuntimeError")
  | b :: _ =>
      if decide (b = Byte.x30) then Ok "0"
      else if decide (b = Byte.x31) then Ok "1"
      else Ok "8"
  end.

Definition boxes : list bbox :=
  [Bbox 0 0 4 1; Bbox 4 0 8 1; Bbox 8 0 12 1].

Definition pixels (l : list Z) : bytes := map byte_of_pixel l.

Definition captcha_bytes : bytes :=
  pixels [10; 11; 12; 13; 50; 51; 52; 53; 90; 91; 92; 93]%Z.

(** A clean strip: the three sprites match the three boxes with
    similarities 1, 2/3 and 1/3. *)
Definition sprite_bytes : bytes :=
  pixels [10; 11; 12; 50; 51; 70; 90; 60; 130]%Z.

(** A strip whose second third starts with the character ['1']. *)
Definition placeholder_bytes : bytes :=
  pixels [10; 11; 12; 49; 51; 70; 90; 60; 130]%Z.

Definition style_ok : nat → nat → res (option string) :=
  λ _ _, Ok (Some "background-image: url(bg); width: 24px; height: 2px;").

(** The world: what the two downloads return and what reading the style
    of the background element answers; everything else is fixed. *)
Definition make (captcha sprite : bytes)
    (style : nat → nat → res (option string)) : world :=
  {| cv2_imdecode := decode;
     cv2_imdecode_gray := decode;
     cv2_imencode := encode;
     sift_detectAndCompute := sift;
     bf_knnMatch := knn;
     ocr_classification := classify;
     det_detection := λ _, Ok boxes;
     re_url := λ _, Some "bg";
     re_width := λ _, Some "24";
     re_height := λ _, Some "2";
     py_float_of_str := λ s, (λ z, Q2Qc (inject_Z (Z.of_int z))) <$> NilZero.int_of_string s;
     py_int_of_str := λ s, Z.of_int <$> NilZero.int_of_string s;
     py_float64_of_str := λ s, (λ z, binary64.of_Z (Z.of_int z)) <$> NilZero.int_of_string s;
     requests_get := λ _ filename _,
       Ok (Response 200 (if decide (filename = "captcha.jpg") then captcha else sprite));
     slideBg_style := style;
     sprite_src := λ _, Ok (Some "sprite-url");
     move_click := λ _ _ _ _, Ok tt;
     confirm_button := λ _, Ok tt;
     confirm_click := λ _, Ok tt;
     result_success := λ _, Ok true;
     find_reload := λ _ _, Ok tt;
     click_reload := λ _ _, Ok tt |}.

Definition clean : world := make captcha_bytes sprite_bytes style_ok.
Definition placeholder : world := make captcha_bytes placeholder_bytes style_ok.
Definition corrupt_sprite : world := make captcha_bytes [] style_ok.
Definition corrupt_background : world := make [] sprite_bytes style_ok.

(** The browser times out in the first attempt and breaks its contract in
    the second. *)
Definition flaky : world :=
  make captcha_bytes sprite_bytes
       (λ retry_count _,
          match retry_count with
          | 0 => Raise TimeoutException
          | _ => Raise (OtherException "WebDriverException")
          end).

(** Before the run: a stale file and a sub-directory in ["temp"]. *)
Definition start : state :=
  State (Some (<["captcha.jpg" := EFile (pixels [1; 2; 3]%Z) 0]>
                 (<["old" := EDir]> ∅))) [].

Definition no_scratch : state := State None [].

(** Two crops: a single pixel, which yields no descriptor, and a crop of
    four pixels. *)
Definition crops : state :=
  State (Some (<["sprite_1.jpg" := EFile (pixels [10]%Z) 1]>
                 (<["spec_1.jpg" := EFile (pixels [10; 11; 12; 13]%Z) 1]> ∅))) [].

(** Dictionaries for [check_answer]. *)
Definition entry_of (j : nat) (similarity : Qc) (position : string)
    (d : gmap string pyval) : gmap string pyval :=
  <[position_key j := PyStr position]> (<[similarity_key j := PyFloat similarity]> d).

Definition two_sprites : gmap string pyval :=
  entry_of 0 (Q2Qc (9 # 10)) "2,0" (entry_of 1 (Q2Qc (85 # 100)) "6,0" ∅).

Definition same_position : gmap string pyval :=
  <["extra" := PyStr "x"]>
    (entry_of 0 (Q2Qc (9 # 10)) "2,0"
       (entry_of 1 (Q2Qc (85 # 100)) "2,0" (entry_of 2 (Q2Qc (7 # 10)) "10,0" ∅))).

Definition same_score : gmap string pyval :=
  entry_of 0 (Q2Qc (1 # 2)) "2,0"
    (entry_of 1 (Q2Qc (1 # 2)) "6,0" (entry_of 2 (Q2Qc (7 # 10)) "10,0" ∅)).

Definition scenario_a : gmap string pyval :=
  entry_of 0 (Q2Qc (9 # 10)) "2,0"
    (entry_of 1 (Q2Qc (85 # 100)) "6,0" (entry_of 2 (Q2Qc (7 # 10)) "10,0" ∅)).

(** Scores in the order the loops of [process_captcha] produce them. *)
Definition scored : list (nat * Qc * string) :=
  [(0, Q2Qc (1 # 2), "2,0"); (1, Q2Qc 0, "2,0"); (2, Q2Qc (1 # 3), "2,0");
   (0, Q2Qc (1 # 2), "6,0"); (1, Q2Qc (2 # 3), "6,0"); (2, Q2Qc (1 # 3), "6,0");
   (0, Q2Qc (1 # 4), "10,0"); (1, Q2Qc (1 # 3), "10,0"); (2, Q2Qc 1, "10,0")].

End Sample.

(** ** Further notions *)

(** No character of [s] is a comma. *)
Definition comma_free (s : string) : Prop :=
  ∀ c, c ∈ String.list_ascii_of_string s → c ≠ ","%char.

Definition is_click (e : event) : bool :=
  match e with EvMoveClick _ _ => true | _ => false end.

(** Number of pointer clicks and of submissions so far. *)
Definition clicks (t : list event) : nat :=
  length (filter (λ e, is_click e = true) t).

Definition submits (t : list event) : nat :=
  length (filter (λ e, e = EvSubmit) t).

(** Neither a click nor a submission. *)
Definition hands_off (e : event) : Prop :=
  is_click e = false ∧ e ≠ EvSubmit.

(** From [st] on, [out] was reached with no submission and with [n] clicks
    if it is a normal end, at most [n] clicks if not. *)
Definition click_counts (n : nat) (st : state) (out : res unit * state) : Prop :=
  submits (trace out.2) = submits (trace st) ∧
  clicks (trace out.2) ≤ clicks (trace st) + n ∧
  (out.1 = Ok tt → clicks (trace out.2) = clicks (trace st) + n).

(** From [st] on, [out] was reached with no submission and at most three
    clicks, or with one submission and exactly three clicks. *)
Definition submit_counts (st : state) (out : res bool * state) : Prop :=
  (submits (trace out.2) = submits (trace st) ∧
   clicks (trace out.2) ≤ clicks (trace st) + 3) ∨
  (submits (trace out.2) = submits (trace st) + 1 ∧
   clicks (trace out.2) = clicks (trace st) + 3).

(** The float [0.5]. *)
Definition half : binary64.float := S754_finite false 4503599627370496 (-53).

(** The rounding of [binary_round_aux] once the mantissa has been shifted
    to the exponent of the result: round to nearest even, shift once more
    if the mantissa got a bit longer, and check for overflow. *)
Definition round_shifted (sx : bool) (shifted : shr_record * Z) : spec_float :=
  let '(mrs', e') := shifted in
  let '(mrs'', e'') :=
    shr_fexp binary64.prec binary64.emax
      (round_nearest_even (shr_m mrs') (loc_of_shr_record mrs')) e' loc_Exact in
  match shr_m mrs'' with
  | Z0 => S754_zero sx
  | Zpos m =>
      if (e'' <=? binary64.emax - binary64.prec)%Z
      then S754_finite sx m e'' else S754_infinity sx
  | _ => S754_nan
  end.

(** A shifted mantissa that lost no bit. *)
Definition lossless (mrs : shr_record) : Prop := shr_r mrs = false ∧ shr_s mrs = false.

(** The value [m * 2^e] of a float, scaled by [2^2200] so that it is an
    integer for every exponent of the format. *)
Definition scaled (m e : Z) : Z := (m * 2 ^ (e + 2200))%Z.

(** The mantissa rounded up when bits were lost. *)
Definition mantissa_ceil (mx : Z) (lx : location) : Z :=
  match lx with loc_Exact => mx | loc_Inexact _ => (mx + 1)%Z end.

(** The scaled value of a float (0 for the zeros). *)
Definition val64 (f : binary64.float) : Z :=
  match f with
  | S754_finite s m e => scaled (cond_Zopp s (Zpos m)) e
  | _ => 0%Z
  end.

(** [2 * |z| ≤ display], for an integer [z] and a finite float [display]
    of mantissa [m] and exponent [e], written without a division. *)
Definition within_half (z : Z) (display : binary64.float) : Prop :=
  match display with
  | S754_zero _ => z = 0%Z
  | S754_finite _ m e =>
      (2 * Z.abs z * 2 ^ Z.max 0 (- e) ≤ Zpos m * 2 ^ Z.max 0 e)%Z
  | _ => False
  end.

(** A zero or a positive finite float. *)
Definition nonneg (f : binary64.float) : Prop :=
  match f with
  | S754_zero _ | S754_finite false _ _ => True
  | _ => False
  end.

(** A zero or a finite float of sign [sx], in the format, of absolute
    value at most [U * 2^F]. *)
Definition below (sx : bool) (U F : Z) (f : binary64.float) : Prop :=
  match f with
  | S754_zero s => s = sx
  | S754_finite s k E =>
      s = sx ∧ bounded binary64.prec binary64.emax k E = true ∧
      (scaled (Zpos k) E ≤ scaled U F)%Z
  | _ => False
  end.

(** ** Further concrete worlds *)

Module Cases.

(** [base] with other answers of the network and of the refresh
    control. *)
Definition with_network (base : world)
    (get : nat → string → string → res response)
    (find : nat → reload_site → res unit) : world :=
  {| cv2_imdecode := cv2_imdecode base;
     cv2_imdecode_gray := cv2_imdecode_gray base;
     cv2_imencode := cv2_imencode base;
     sift_detectAndCompute := sift_detectAndCompute base;
     bf_knnMatch := bf_knnMatch base;
     ocr_classification := ocr_classification base;
     det_detection := det_detection base;
     re_url := re_url base;
     re_width := re_width base;
     re_height := re_height base;
     py_float_of_str := py_float_of_str base;
     py_int_of_str := py_int_of_str base;
     py_float64_of_str := py_float64_of_str base;
     requests_get := get;
     slideBg_style := slideBg_style base;
     sprite_src := sprite_src base;
     move_click := move_click base;
     confirm_button := confirm_button base;
     confirm_click := confirm_click base;
     result_success := result_success base;
     find_reload := find;
     click_reload := click_reload base |}.

(** The image server answers 404. *)
Definition not_found : world :=
  with_network Sample.clean (λ _ _ _, Ok (Response 404 [])) (find_reload Sample.clean).

(** The network is down. *)
Definition offline : world :=
  with_network Sample.clean (λ _ _ _, Raise RequestException) (find_reload Sample.clean).

(** The refresh control is missing from the page. *)
Definition no_reload (base : world) : world :=
  with_network base (requests_get base)
    (λ _ _, Raise (OtherException "NoSuchElementException")).

(** The background element has no style attribute. *)
Definition no_style : world :=
  Sample.make Sample.captcha_bytes Sample.sprite_bytes (λ _ _, Ok None).

(** Two crops with descriptors: three pixels and four pixels. *)
Definition two_crops : state :=
  State (Some (<["sprite_1.jpg" := EFile (Sample.pixels [10; 11; 12]%Z) 1]>
                 (<["spec_1.jpg" := EFile (Sample.pixels [10; 11; 12; 13]%Z) 1]> ∅))) [].

(** The background as [cv2.imread] gives it in the clean world. *)
Definition background : image :=
  Image 12 [[10; 11; 12; 13; 50; 51; 52; 53; 90; 91; 92; 93]%Z].

(** The state that the first attempt in the clean world leaves: the
    scratch directory holds the two downloads, the three sprites and the
    three crops. *)
Definition attempted : state :=
  (attempt Sample.clean 0 Sample.start).2.

(** The state in which the first attempt in the clean world enters the
    matching loop: the two downloads and the three sprites are in the
    scratch directory. *)
Definition checked : state :=
  (check_captcha Sample.clean (download_captcha_img Sample.clean 0 Sample.start).2).2.

End Cases.

(** * server_manager.py *)

Module server_manager.

Declare Scope sm_scope.
Delimit Scope sm_scope with sm.
Local Open Scope sm_scope.
Local Open Scope Z_scope.

Definition RENEW_COST_7_DAYS : Z := 2258.

(** [RainyunAPIError] of the API client, with its text [str(e)], and the
    exceptions of every other class. *)
Inductive error : Type :=
  | RainyunAPIError (text : string)
  | OtherError (cls : string).

Inductive outcome (A : Type) : Type :=
  | Return (a : A)
  | Throw (e : error).
Arguments Return {A} a.
Arguments Throw {A} e.

(** What the code reads of the answer of [get_server_detail]:
    [detail.get("Data", {})], in it [.get("ExpDate", 0)] and
    [.get("EggType", {}).get("egg", {}).get("title", ...)].  A key that is
    missing is [None]; [ExpDate], when present, is an integer. *)
Record server_data : Type := ServerData {
  ExpDate : option Z;
  egg_title : option string
}.

Record detail : Type := Detail { Data : option server_data }.

(** The API client (module [api_client], the object [self.api] made by
    [RainyunAPI(api_key)]) and the clock, as a machine with states [S]:
    every call may change the state.  A [datetime] is a number of
    microseconds of local time; [int_of_str] is [int] on a string. *)
Record remote (S : Type) : Type := Remote {
  api_get_user_points : S → outcome Z * S;
  api_get_server_ids : S → outcome (list Z) * S;
  api_get_server_detail : Z → S → outcome detail * S;
  (* renew_server(server_id, days) *)
  api_renew_server : Z → Z → S → outcome unit * S;
  datetime_now : S → Z * S;
  (* None: the timestamp is out of the platform's range *)
  datetime_fromtimestamp : Z → option Z;
  strftime : Z → string;
  int_of_str : string → option Z
}.
Arguments api_get_user_points {S} _ _.
Arguments api_get_server_ids {S} _ _.
Arguments api_get_server_detail {S} _ _ _.
Arguments api_renew_server {S} _ _ _ _.
Arguments datetime_now {S} _ _.
Arguments datetime_fromtimestamp {S} _ _.
Arguments strftime {S} _ _.
Arguments int_of_str {S} _ _.

Inductive call : Type :=
  | GetUserPoints
  | GetServerIds
  | GetServerDetail (sid : Z)
  | RenewServer (sid : Z) (days : Z).

Global Instance call_eq_dec : EqDecision call.
Proof. solve_decision. Defined.

Inductive event : Type :=
  | Called (c : call)
  | Logged (lvl : level) (msg : string).

Record ServerInfo : Type := Build_ServerInfo {
  id : Z;
  name : string;
  expired_at : Z
}.

(** The dictionary [server_status] of [check_and_renew] ... *)
Record server_status : Type := Status {
  st_name : string;
  st_expired : string;
  st_days_remaining : Z;
  st_renewed : bool
}.

(** ... and its dictionary [result]. *)
Record summary : Type := Summary {
  points : Z;
  servers : list server_status;
  renewed : list string;
  warnings : list string
}.

(** The state: the remote machine, the calls and log lines so far, and the
    two containers that the code fills in place, the list [servers] of
    [get_all_servers] and the dictionary [result] of [check_and_renew]; a
    handler sees them as the [try] block left them. *)
Record state (S : Type) : Type := State {
  world : S;
  history : list event;
  var_servers : list ServerInfo;
  var_result : summary
}.
Arguments State {S} _ _ _ _.
Arguments world {S} _.
Arguments history {S} _.
Arguments var_servers {S} _.
Arguments var_result {S} _.

Definition SM (S A : Type) : Type := state S → outcome A * state S.

Definition ret {S A} (a : A) : SM S A := λ st, (Return a, st).
Definition throw {S A} (e : error) : SM S A := λ st, (Throw e, st).
Definition bind {S A B} (m : SM S A) (k : A → SM S B) : SM S B :=
  λ st, match m st with
        | (Return a, st') => k a st'
        | (Throw e, st') => (Throw e, st')
        end.

(** [try: m  except RainyunAPIError as e: h str(e)] *)
Definition try_except {S A} (m : SM S A) (h : string → SM S A) : SM S A :=
  λ st, match m st with
        | (Throw (RainyunAPIError text), st') => h text st'
        | r => r
        end.

Notation "'let*' x := m 'in' k" := (bind m (λ x, k))
  (at level 10, x name, m at level 100, k at level 200) : sm_scope.
Notation "m ;; k" := (bind m (λ _, k))
  (at level 100, k at level 200, right associativity) : sm_scope.

Definition log {S} (lvl : level) (msg : string) : SM S unit :=
  λ st, (Return tt,
         State (world st) (history st ++ [Logged lvl msg]) (var_servers st) (var_result st)).

(** A call of the API client. *)
Definition api_call {S A} (c : call) (f : S → outcome A * S) : SM S A :=
  λ st, let (r, s') := f (world st) in
        (r, State s' (history st ++ [Called c]) (var_servers st) (var_result st)).

Definition get_servers {S} : SM S (list ServerInfo) := λ st, (Return (var_servers st), st).
Definition set_servers {S} (l : list ServerInfo) : SM S unit :=
  λ st, (Return tt, State (world st) (history st) l (var_result st)).
Definition get_result {S} : SM S summary := λ st, (Return (var_result st), st).
Definition set_result {S} (r : summary) : SM S unit :=
  λ st, (Return tt, State (world st) (history st) (var_servers st) r).

Section Manager.

Context {S : Type} (env : remote S).

(** [datetime.now()] *)
Definition now : SM S Z :=
  λ st, let (t, s') := datetime_now env (world st) in
        (Return t, State s' (history st) (var_servers st) (var_result st)).

(** *** ServerInfo (lines 18-40) *)

Definition expired_datetime (self : ServerInfo) : SM S Z :=
  match datetime_fromtimestamp env (expired_at self) with
  | Some t => ret t
  | None => throw (OtherError "OverflowError")
  end.

(** [timedelta.days]: the days of a difference of microseconds, rounded
    down. *)
Definition timedelta_days (microseconds : Z) : Z := microseconds `div` 86400000000.

Definition days_remaining (self : ServerInfo) : SM S Z :=
  let* expired := expired_datetime self in
  let* n := now in
  let delta := expired - n in
  ret (Z.max 0 (timedelta_days delta)).

Definition expired_str (self : ServerInfo) : SM S string :=
  let* expired := expired_datetime self in
  ret (strftime env expired).

(** *** ServerManager (lines 43-61) *)

Record ServerManager : Type := Build_ServerManager {
  auto_renew : bool;
  renew_threshold : Z
}.

(** [str.lower()], on the letters A to Z; the comparison with ["true"]
    depends on no other character. *)
Definition lower_char (c : ascii) : ascii :=
  let n := nat_of_ascii c in
  if bool_decide (65 ≤ n)%nat && bool_decide (n ≤ 90)%nat then ascii_of_nat (n + 32) else c.

Fixpoint lower (s : string) : string :=
  match s with
  | EmptyString => EmptyString
  | String c rest => String (lower_char c) (lower rest)
  end.

Definition __init__ (environ : gmap string string) : SM S ServerManager :=
  let auto_renew :=
    bool_decide (lower (default "true" (environ !! "AUTO_RENEW")) = "true") in
  let* renew_threshold :=
    match int_of_str env (default "7" (environ !! "RENEW_THRESHOLD_DAYS")) with
    | Some n => ret n
    | None =>
        log Error "configuration error: RENEW_THRESHOLD_DAYS must be an integer, using the default 7" ;;
        ret 7
    end in
  ret (Build_ServerManager auto_renew renew_threshold).

(** *** get_all_servers (lines 63-101) *)

(** [f"游戏云-{sid}"] *)
Definition default_name (sid : Z) : string := "game cloud-" +:+ pretty sid.

(** Lines 77-94, the body of the inner [try]; [continue] ends it. *)
Definition add_server (sid : Z) : SM S unit :=
  let* detail := api_call (GetServerDetail sid) (api_get_server_detail env sid) in
  let server_data := Data detail in
  let expired_at := default 0 (server_data ≫= ExpDate) in
  if bool_decide (expired_at = 0) || bool_decide (expired_at ≤ 0) then
    log Warning ("ExpDate of server " +:+ pretty sid +:+ " is invalid ("
                   +:+ pretty expired_at +:+ "), skipped")
  else
    let server_name := default (default_name sid) (server_data ≫= egg_title) in
    let server := Build_ServerInfo sid server_name expired_at in
    let* l := get_servers in
    set_servers (l ++ [server]) ;;
    let* expired := expired_str server in
    let* days := days_remaining server in
    log Info ("  - " +:+ name server +:+ ": expires " +:+ expired +:+ ", "
                +:+ pretty days +:+ " days left").

(** [for sid in server_ids] *)
Fixpoint add_servers (server_ids : list Z) : SM S unit :=
  match server_ids with
  | [] => ret tt
  | sid :: rest =>
      try_except (add_server sid)
        (λ e, log Error ("details of server " +:+ pretty sid +:+ " failed: " +:+ e)) ;;
      add_servers rest
  end.

Definition get_all_servers : SM S (list ServerInfo) :=
  set_servers [] ;;
  try_except
    (let* server_ids := api_call GetServerIds (api_get_server_ids env) in
     log Info ("found " +:+ pretty (length server_ids) +:+ " servers") ;;
     add_servers server_ids)
    (λ e, log Error ("list of servers failed: " +:+ e)) ;;
  get_servers.

(** *** check_and_renew (lines 103-168) *)

Definition add_warning (warning : string) : SM S unit :=
  let* r := get_result in
  set_result (Summary (points r) (servers r) (renewed r) (warnings r ++ [warning])).

(** Lines 143-160; the result is [server_status], with its flag set when
    the renewal went through. *)
Definition renew (self : ServerManager) (server : ServerInfo)
    (status : server_status) : SM S server_status :=
  if auto_renew self then
    let* r := get_result in
    if bool_decide (RENEW_COST_7_DAYS ≤ points r) then
      try_except
        (api_call (RenewServer (id server) 7) (api_renew_server env (id server) 7) ;;
         log Info (name server +:+ " renewed! " +:+ pretty RENEW_COST_7_DAYS
                     +:+ " points spent") ;;
         let* r := get_result in
         set_result (Summary (points r - RENEW_COST_7_DAYS) (servers r)
                       (renewed r) (warnings r)) ;;
         let status := Status (st_name status) (st_expired status)
                         (st_days_remaining status) true in
         let* r := get_result in
         set_result (Summary (points r) (servers r)
                       (renewed r ++ [name server]) (warnings r)) ;;
         ret status)
        (λ e,
           log Error (name server +:+ " renewal failed: " +:+ e) ;;
           add_warning (name server +:+ " renewal failed: " +:+ e) ;;
           ret status)
    else
      let warning := "not enough points! " +:+ pretty RENEW_COST_7_DAYS
                       +:+ " needed, " +:+ pretty (points r) +:+ " at hand" in
      log Warning warning ;;
      add_warning warning ;;
      ret status
  else
    add_warning (name server +:+ " is about to expire, but auto renewal is off") ;;
    ret status.

(** Lines 132-162, the body of [for server in servers]. *)
Definition check_server (self : ServerManager) (server : ServerInfo) : SM S unit :=
  let* expired := expired_str server in
  let* days := days_remaining server in
  let status := Status (name server) expired days false in
  let* due := days_remaining server in
  let* status :=
    if bool_decide (due ≤ renew_threshold self) then
      let* left := days_remaining server in
      log Warning (name server +:+ " is about to expire! " +:+ pretty left
                     +:+ " days left") ;;
      renew self server status
    else ret status in
  let* r := get_result in
  set_result (Summary (points r) (servers r ++ [status]) (renewed r) (warnings r)).

Fixpoint check_servers (self : ServerManager) (l : list ServerInfo) : SM S unit :=
  match l with
  | [] => ret tt
  | server :: rest => check_server self server ;; check_servers self rest
  end.

Definition check_and_renew (self : ServerManager) : SM S summary :=
  set_result (Summary 0 [] [] []) ;;
  try_except
    (let* p := api_call GetUserPoints (api_get_user_points env) in
     let* r := get_result in
     set_result (Summary p (servers r) (renewed r) (warnings r)) ;;
     let* r := get_result in
     log Info ("points at hand: " +:+ pretty (points r)) ;;
     let* l := get_all_servers in
     check_servers self l)
    (λ e,
       log Error ("server check failed: " +:+ e) ;;
       add_warning ("API call failed: " +:+ e)) ;;
  get_result.

End Manager.

(** The calls of [renew_server] in a history, in order. *)
Definition renewals (h : list event) : list (Z * Z) :=
  omap (λ e, match e with Called (RenewServer sid days) => Some (sid, days) | _ => None end) h.

(** The calls of the API client in a history, in order. *)
Definition calls (h : list event) : list call :=
  omap (λ e, match e with Called c => Some c | _ => None end) h.

(** A computation that makes no call, writes no log line and leaves the
    two containers alone, and that does not fail with [RainyunAPIError]. *)
Definition reads {S A} (m : SM S A) : Prop :=
  ∀ st, history (m st).2 = history st ∧
        var_servers (m st).2 = var_servers st ∧
        var_result (m st).2 = var_result st ∧
        ∀ text, (m st).1 ≠ Throw (RainyunAPIError text).

(** The effect of the loop over [server_ids] on the state: no renewal is
    requested, [result] is left alone, and the list [servers] grows by
    servers taken in order from [server_ids], each of positive expiry. *)
Definition lists {S} (ids : list Z) (st st' : state S) : Prop :=
  var_result st' = var_result st ∧
  renewals (history st') = renewals (history st) ∧
  ∃ new, var_servers st' = var_servers st ++ new ∧
         sublist (map id new) ids ∧
         Forall (λ s, 0 < expired_at s) new.

(** The evidence that [server] was found due: some reading of the clock
    gave it at most [renew_threshold] days. *)
Definition due_evidence {S} (env : remote S) (self : ServerManager)
    (server : ServerInfo) : Prop :=
  ∃ e s, datetime_fromtimestamp env (expired_at server) = Some e ∧
         Z.max 0 (timedelta_days (e - (datetime_now env s).1)) ≤ renew_threshold self.

(** The statuses flagged as renewed. *)
Definition renewed_of (l : list server_status) : list server_status :=
  filter (λ s, st_renewed s = true) l.

(** Lines 489-490 of rainyun.py: [manager = ServerManager(api_key)] and
    [manager.check_and_renew()]. *)
Definition manage {S} (env : remote S) (environ : gmap string string) : SM S summary :=
  let* manager := __init__ env environ in
  check_and_renew env manager.

End server_manager.

(** ** A concrete account *)

(** Four ids are listed: server 1 expires in two days, server 2 has no
    expiry date, server 3 expires in thirty days and has no title, and
    server 4 is unknown to the API.  The clock stands at 0, a renewal
    always goes through, and the machine has no state of its own. *)
Module Fleet.

Import server_manager.
Local Open Scope Z_scope.

Definition day : Z := 86400.

Definition details (sid : Z) : outcome detail :=
  if decide (sid = 1) then
    Return (Detail (Some (ServerData (Some (2 * day)) (Some "alpha"))))
  else if decide (sid = 2) then
    Return (Detail (Some (ServerData None (Some "beta"))))
  else if decide (sid = 3) then
    Return (Detail (Some (ServerData (Some (30 * day)) None)))
  else Throw (RainyunAPIError "not found").

Definition make (user_points : outcome Z) (ids : outcome (list Z)) : remote unit :=
  {| api_get_user_points := λ s, (user_points, s);
     api_get_server_ids := λ s, (ids, s);
     api_get_server_detail := λ sid s, (details sid, s);
     api_renew_server := λ _ _ s, (Return tt, s);
     datetime_now := λ s, (0, s);
     datetime_fromtimestamp := λ t, Some (t * 1000000);
     strftime := λ t, pretty t;
     int_of_str := λ s, Z.of_int <$> NilZero.int_of_string s |}.

Definition rich : remote unit := make (Return 5000) (Return [1; 2; 3; 4]).
Definition poor : remote unit := make (Return 100) (Return [1; 2; 3; 4]).
Definition no_points : remote unit :=
  make (Throw (RainyunAPIError "401")) (Return [1; 2; 3; 4]).
Definition no_list : remote unit :=
  make (Return 5000) (Throw (RainyunAPIError "500")).

Definition start : state unit := State tt [] [] (Summary 7 [] [] ["stale"]).

Definition manager : ServerManager := Build_ServerManager true 7.

Definition alpha : ServerInfo := Build_ServerInfo 1 "alpha" (2 * day).
Definition gamma : ServerInfo := Build_ServerInfo 3 (default_name 3) (30 * day).

End Fleet.

(** * The login (rainyun.py, lines 64-146) *)

Module login.

Declare Scope login_scope.
Delimit Scope login_scope with login.
Local Open Scope login_scope.

(** [except TimeoutException] *)
Definition is_TimeoutException (e : exn) : bool :=
  match e with TimeoutException => true | _ => false end.

(** A cookie as [driver.get_cookies()] gives it: a dictionary. *)
Definition cookie : Type := gmap string string.

(** What iterating over the value of [json.load] yields: cookies, or
    things that are no dictionaries. *)
Inductive item : Type :=
  | JCookie (c : cookie)
  | JOther.

(** The content of cookies.json. *)
Inductive file_content : Type :=
  | NotJson                      (* [json.load] fails: empty, cut short, ... *)
  | NotIterable                  (* JSON, but no value to iterate over *)
  | Items (l : list item).

(** The elements that [do_login] waits for: [(By.NAME, 'login-field')],
    [(By.NAME, 'login-password')], the button of the login form (by its
    XPath) and [(By.ID, 'tcaptcha_iframe_dy')]. *)
Inductive locator : Type :=
  | LoginField
  | LoginPassword
  | LoginButton
  | CaptchaFrame.

(** An element of the page, as a handle. *)
Definition element : Type := nat.

(** The browser, as a machine with states [B], the two ways of opening
    cookies.json, and the writing of JSON to the opened file. *)
Record driver (B : Type) : Type := Driver {
  drv_get : string → B → res unit * B;
  get_cookies : B → res (list cookie) * B;
  add_cookie : cookie → B → res unit * B;
  current_url : B → res string * B;
  switch_to_frame : string → B → res unit * B;
  switch_to_default_content : B → res unit * B;
  (* wait.until(EC.visibility_of_element_located(...)) *)
  wait_visible : locator → B → res element * B;
  (* wait.until(EC.url_contains(...)) *)
  wait_url_contains : string → B → res unit * B;
  send_keys : element → string → B → res unit * B;
  click : element → B → res unit * B;
  open_for_writing : res unit;
  open_for_reading : res unit;
  (* json.dump(cookies, f) and the closing of f *)
  write_json : list cookie → res unit
}.
Arguments drv_get {B} _ _ _.
Arguments get_cookies {B} _ _.
Arguments add_cookie {B} _ _ _.
Arguments current_url {B} _ _.
Arguments switch_to_frame {B} _ _ _.
Arguments switch_to_default_content {B} _ _.
Arguments wait_visible {B} _ _ _.
Arguments wait_url_contains {B} _ _ _.
Arguments send_keys {B} _ _ _ _.
Arguments click {B} _ _ _.
Arguments open_for_writing {B} _.
Arguments open_for_reading {B} _.
Arguments write_json {B} _ _.

(** The state of a session. *)
Record session (B : Type) : Type := Session {
  captcha : state;                    (* scratch directory and event trace *)
  page : B;
  cookie_file : option file_content;  (* None: cookies.json does not exist *)
  offered : list cookie               (* the arguments of add_cookie so far *)
}.
Arguments Session {B} _ _ _ _.
Arguments captcha {B} _.
Arguments page {B} _.
Arguments cookie_file {B} _.
Arguments offered {B} _.

Definition LM (B A : Type) : Type := session B → res A * session B.

Definition ret {B A} (a : A) : LM B A := λ s, (Ok a, s).
Definition raise {B A} (e : exn) : LM B A := λ s, (Raise e, s).
Definition lift {B A} (r : res A) : LM B A := λ s, (r, s).
Definition bind {B A C} (m : LM B A) (k : A → LM B C) : LM B C :=
  λ s, match m s with
       | (Ok a, s') => k a s'
       | (Raise e, s') => (Raise e, s')
       end.

Definition try_except {B A} (m : LM B A) (catches : exn → bool) (h : exn → LM B A) :
    LM B A :=
  λ s, match m s with
       | (Raise e, s') => if catches e then h e s' else (Raise e, s')
       | r => r
       end.

Notation "'let*' x := m 'in' k" := (bind m (λ x, k))
  (at level 10, x name, m at level 100, k at level 200) : login_scope.
Notation "m ;; k" := (bind m (λ _, k))
  (at level 100, k at level 200, right associativity) : login_scope.

(** A computation on the scratch directory and the trace. *)
Definition on_captcha {B A} (m : M A) : LM B A :=
  λ s, let (r, st') := m (captcha s) in
       (r, Session st' (page s) (cookie_file s) (offered s)).

(** A call of the browser. *)
Definition browser {B A} (f : B → res A * B) : LM B A :=
  λ s, let (r, b') := f (page s) in
       (r, Session (captcha s) b' (cookie_file s) (offered s)).

Section Login.

Context {B : Type} (w : world) (d : driver B).

(** [not os.path.exists(COOKIE_FILE)] *)
Definition cookie_file_missing : LM B bool :=
  λ s, (Ok (match cookie_file s with None => true | Some _ => false end), s).

(** *** save_cookies (lines 64-69) *)

(** [open(COOKIE_FILE, "w")]: a failure leaves the file alone; otherwise
    the file exists from now on and is empty, which is no JSON. *)
Definition truncate : LM B unit :=
  lift (open_for_writing d) ;;
  λ s, (Ok tt, Session (captcha s) (page s) (Some NotJson) (offered s)).

(** [with open(COOKIE_FILE, "w") as f: json.dump(cookies, f)]: when the
    writing fails the file stays without JSON, cut short at best. *)
Definition dump (cookies : list cookie) : LM B unit :=
  truncate ;;
  lift (write_json d cookies) ;;
  λ s, (Ok tt, Session (captcha s) (page s) (Some (Items (JCookie <$> cookies))) (offered s)).

Definition save_cookies : LM B unit :=
  let* cookies := browser (get_cookies d) in
  dump cookies ;;
  on_captcha (log Info "cookies saved").

(** *** load_cookies (lines 72-94) *)

(** [open(COOKIE_FILE, "r")] and [json.load(f)] *)
Definition load : LM B file_content :=
  lift (open_for_reading d) ;;
  λ s, match cookie_file s with
       | None => (Raise (OtherException "FileNotFoundError"), s)
       | Some NotJson => (Raise (ValueError "JSONDecodeError"), s)
       | Some content => (Ok content, s)
       end.

(** [driver.add_cookie(cookie)] *)
Definition offer (c : cookie) : LM B unit :=
  λ s, let (r, b') := add_cookie d c (page s) in
       (r, Session (captcha s) b' (cookie_file s) (offered s ++ [c])).

(** [cookie.pop("sameSite", None)] and [cookie.pop("expiry", None)] *)
Definition strip (c : cookie) : cookie := delete "expiry" (delete "sameSite" c).

(** [for cookie in cookies] *)
Fixpoint add_cookies (l : list item) : LM B unit :=
  match l with
  | [] => ret tt
  | JOther :: _ => raise (OtherException "AttributeError")
  | JCookie c :: rest =>
      try_except (offer (strip c)) is_Exception
        (λ _, on_captcha (log Warning "adding a cookie failed")) ;;
      add_cookies rest
  end.

Definition load_cookies : LM B bool :=
  let* missing := cookie_file_missing in
  if missing then
    on_captcha (log Info "cookies file not found") ;;
    ret false
  else
    try_except
      (let* cookies := load in
       browser (drv_get d "https://app.rainyun.com") ;;
       match cookies with
       | Items l => add_cookies l
       | _ => raise (OtherException "TypeError")
       end ;;
       on_captcha (log Info "cookies loaded") ;;
       ret true)
      is_Exception
      (λ _,
         on_captcha (log Error "loading the cookies failed") ;;
         ret false).

(** *** do_login (lines 112-146) *)

(** Lines 116-126, the first [try]: [true] when the form was sent,
    [false] for the [return False] of the handler. *)
Definition send_form (user pwd : string) : LM B bool :=
  try_except
    (let* username := browser (wait_visible d LoginField) in
     let* password := browser (wait_visible d LoginPassword) in
     let* login_button := browser (wait_visible d LoginButton) in
     browser (send_keys d username user) ;;
     browser (send_keys d password pwd) ;;
     browser (click d login_button) ;;
     ret true)
    is_TimeoutException
    (λ _,
       on_captcha (log Error "page load timed out") ;;
       ret false).

(** Lines 127-136, the second [try]: [false] for its [return False],
    [true] when the code goes on after it. *)
Definition pass_captcha : LM B bool :=
  try_except
    (browser (wait_visible d CaptchaFrame) ;;
     on_captcha (log Warning "captcha triggered") ;;
     browser (switch_to_frame d "tcaptcha_iframe_dy") ;;
     let* solved := on_captcha (process_captcha w 0) in
     if solved then ret true
     else
       on_captcha (log Error "login captcha failed") ;;
       ret false)
    is_TimeoutException
    (λ _,
       on_captcha (log Info "no captcha triggered") ;;
       ret true).

(** Lines 137-146. *)
Definition confirm_login : LM B bool :=
  on_captcha (sleep 2) ;;
  browser (switch_to_default_content d) ;;
  try_except
    (browser (wait_url_contains d "dashboard") ;;
     on_captcha (log Info "login succeeded") ;;
     save_cookies ;;
     ret true)
    is_TimeoutException
    (λ _,
       let* url := browser (current_url d) in
       on_captcha (log Error ("login timed out or failed, at " +:+ url)) ;;
       ret false).

Definition do_login (user pwd : string) : LM B bool :=
  on_captcha (log Info "login request") ;;
  browser (drv_get d "https://app.rainyun.com/auth/login") ;;
  let* sent := send_form user pwd in
  if sent then
    let* go_on := pass_captcha in
    if go_on then confirm_login
    else ret false
  else ret false.

End Login.

(** The computation leaves cookies.json as it is. *)
Definition keeps_file {B A} (m : LM B A) : Prop :=
  ∀ s, cookie_file (m s).2 = cookie_file s.

End login.

(** ** A concrete visit *)

(** A browser without state of its own: it shows the captcha frame,
    refuses the cookie named theme and succeeds in everything else. *)
Module Visit.

Import login.

Definition session_cookie : cookie :=
  {["name" := "sid"; "value" := "abc"; "sameSite" := "Lax"; "expiry" := "1770306863"]}.

Definition theme_cookie : cookie := {["name" := "theme"; "value" := "dark"]}.

Definition chrome : driver unit :=
  {| drv_get := λ _ b, (Ok tt, b);
     get_cookies := λ b, (Ok [session_cookie; theme_cookie], b);
     add_cookie := λ c b,
       (if decide (c !! "name" = Some "theme")
        then Raise (OtherException "InvalidCookieDomainException")
        else Ok tt, b);
     current_url := λ b, (Ok "https://app.rainyun.com/dashboard", b);
     switch_to_frame := λ _ b, (Ok tt, b);
     switch_to_default_content := λ b, (Ok tt, b);
     wait_visible := λ _ b, (Ok 0, b);
     wait_url_contains := λ _ b, (Ok tt, b);
     send_keys := λ _ _ b, (Ok tt, b);
     click := λ _ b, (Ok tt, b);
     open_for_writing := Ok tt;
     open_for_reading := Ok tt;
     write_json := λ _, Ok tt |}.

(** The same browser on a full disk: cookies.json can be opened, but
    nothing can be written to it. *)
Definition disk_full : driver unit :=
  {| drv_get := drv_get chrome;
     get_cookies := get_cookies chrome;
     add_cookie := add_cookie chrome;
     current_url := current_url chrome;
     switch_to_frame := switch_to_frame chrome;
     switch_to_default_content := switch_to_default_content chrome;
     wait_visible := wait_visible chrome;
     wait_url_contains := wait_url_contains chrome;
     send_keys := send_keys chrome;
     click := click chrome;
     open_for_writing := Ok tt;
     open_for_reading := Ok tt;
     write_json := λ _, Raise (OtherException "OSError") |}.

Definition fresh : session unit := Session Sample.start tt None [].

(** A session that starts with the cookies of an earlier login on disk. *)
Definition returning : session unit :=
  Session Sample.start tt (Some (Items [JCookie session_cookie])) [].

End Visit.

(** * Properties

    ** The answer check *)

Lemma flip_dict_lookup (d : gmap string pyval) (v : pyval) :
  is_Some (flip_dict d !! v) ↔ ∃ key, d !! key = Some v.
Proof.
  unfold flip_dict. revert v.
  apply (map_fold_weak_ind (λ (r : gmap pyval string) (m : gmap string pyval),
           ∀ v, is_Some (r !! v) ↔ ∃ key, m !! key = Some v)).
  - intros v. rewrite lookup_empty. split; [by intros [? ?]|].
    intros [key Hk]. by rewrite lookup_empty in Hk.
  - intros i x m r Hi IH v. rewrite lookup_insert. case_decide as Hxv.
    + subst. split; [|by eauto]. intros _. exists i. by rewrite lookup_insert_eq.
    + rewrite IH. split; intros [key Hk]; exists key.
      * rewrite lookup_insert_ne; [done|]. intros ->. congruence.
      * rewrite lookup_insert in Hk. case_decide; [congruence|done].
Qed.

Lemma flip_dict_size_le (d : gmap string pyval) : size (flip_dict d) ≤ size d.
Proof.
  unfold flip_dict.
  apply (map_fold_weak_ind (λ (r : gmap pyval string) (m : gmap string pyval),
           size r ≤ size m)).
  - done.
  - intros i x m r Hi IH. rewrite (map_size_insert_None i x m Hi).
    destruct (r !! x) eqn:Hr.
    + rewrite map_size_insert_Some; [lia|by rewrite Hr].
    + rewrite map_size_insert_None; [lia|done].
Qed.

Lemma flip_dict_size_lt (d : gmap string pyval) (k1 k2 : string) (v : pyval) :
  k1 ≠ k2 → d !! k1 = Some v → d !! k2 = Some v → size (flip_dict d) < size d.
Proof.
  intros Hne H1 H2.
  assert (Hdom : dom (flip_dict d) = dom (flip_dict (delete k1 d))).
  { apply set_eq. intros u. rewrite !elem_of_dom, !flip_dict_lookup.
    split; intros [key Hk].
    - destruct (decide (key = k1)) as [->|Hk1].
      + exists k2. rewrite lookup_delete_ne; [congruence|done].
      + exists key. by rewrite lookup_delete_ne.
    - exists key. rewrite lookup_delete in Hk. case_decide; [done|done]. }
  rewrite <- (size_dom (flip_dict d)), Hdom, size_dom.
  pose proof (flip_dict_size_le (delete k1 d)) as Hle.
  rewrite map_size_delete_Some in Hle by (by rewrite H1).
  assert (size d ≠ 0); [|lia].
  intros Hz. apply map_size_empty_inv in Hz. subst. by rewrite lookup_empty in H1.
Qed.

(** The six keys of the three sprites are pairwise different. *)
Lemma sprite_keys_distinct (i j : nat) :
  i < 3 → j < 3 →
  (i ≠ j → position_key i ≠ position_key j) ∧
  (i ≠ j → similarity_key i ≠ similarity_key j) ∧
  similarity_key i ≠ position_key j.
Proof.
  intros Hi Hj.
  destruct i as [|[|[|i]]]; [| | |lia];
    (destruct j as [|[|[|j]]]; [| | |lia]);
    (split_and!; [intros Hne; try done; by vm_compute..|by vm_compute]).
Qed.

Lemma check_answer_duplicate (d : gmap string pyval) (st : state)
    (k1 k2 : string) (v : pyval) :
  k1 ≠ k2 → d !! k1 = Some v → d !! k2 = Some v →
  (check_answer d st).1 = Ok false.
Proof.
  intros Hne H1 H2. unfold check_answer.
  destruct (bool_decide (size d = 0) || bool_decide (size d < 6)); [done|].
  simpl. f_equal. apply bool_decide_eq_false.
  pose proof (flip_dict_size_lt d k1 k2 v Hne H1 H2). lia.
Qed.

Lemma check_answer_incomplete (d : gmap string pyval) (st : state) :
  size d < 6 → (check_answer d st).1 = Ok false.
Proof.
  intros Hlt. unfold check_answer.
  rewrite (bool_decide_eq_true_2 (size d < 6) Hlt), orb_true_r. done.
Qed.

(** C2. Assignment validity: [check_answer] rejects (returns [False] for)
    every dictionary with fewer than 6 keys, and every dictionary in which
    two of the three sprites have the same recorded position, whatever the
    similarity scores are. *)
Theorem check_answer_rejects (d : gmap string pyval) (st : state) :
  (size d < 6 ∨
   ∃ i j v, i < 3 ∧ j < 3 ∧ i ≠ j ∧
            d !! position_key i = Some v ∧ d !! position_key j = Some v) →
  (check_answer d st).1 = Ok false.
Proof.
  intros [Hlt|(i & j & v & Hi & Hj & Hne & H1 & H2)].
  - by apply check_answer_incomplete.
  - apply (check_answer_duplicate d st (position_key i) (position_key j) v); [|done..].
    by apply sprite_keys_distinct.
Qed.

(** C3. The reverse mapping of [check_answer] ranges over all six values:
    a dictionary in which two sprites have exactly the same similarity score
    is rejected, also when it has all 6 keys and three pairwise distinct
    positions. *)
Theorem check_answer_equal_scores (d : gmap string pyval) (st : state)
    (i j : nat) (q : Qc) :
  i < 3 → j < 3 → i ≠ j →
  d !! similarity_key i = Some (PyFloat q) →
  d !! similarity_key j = Some (PyFloat q) →
  (check_answer d st).1 = Ok false.
Proof.
  intros Hi Hj Hne H1 H2.
  apply (check_answer_duplicate d st (similarity_key i) (similarity_key j) (PyFloat q));
    [|done..].
  by apply sprite_keys_distinct.
Qed.

(** ** The similarity of two crops *)

Lemma cv2_imread_gray_crop (w : world) (st : state) (path : string) (img : image) :
  holds_crop w st path img →
  ∃ st', cv2_imread_gray w path st = (Ok (Some img), st') ∧ scratch st' = scratch st.
Proof.
  intros (data & s & Hf & Hd). unfold cv2_imread_gray, bind, fs_read, ret.
  rewrite Hf. simpl. rewrite Hd. eauto.
Qed.

(** C4. Similarity is total: for every pair of crops, [compute_similarity]
    returns a result and raises nothing (no division by zero); the result
    is [(0.0, 0)] when either crop yields no descriptors, and also when no
    correspondence is accepted (in particular for an empty correspondence
    list). *)
Theorem compute_similarity_total (w : world) (st : state) (p1 p2 : string)
    (img1 img2 : image) :
  holds_crop w st p1 img1 → holds_crop w st p2 img2 →
  ∃ sim votes,
    (compute_similarity w p1 p2 st).1 = Ok (sim, votes) ∧
    (sift_detectAndCompute w img1 = None ∨ sift_detectAndCompute w img2 = None →
     sim = Q2Qc 0 ∧ votes = 0) ∧
    (∀ d1 d2, sift_detectAndCompute w img1 = Some d1 →
              sift_detectAndCompute w img2 = Some d2 →
              good_matches (bf_knnMatch w d1 d2) = [] →
              sim = Q2Qc 0 ∧ votes = 0).
Proof.
  intros H1 H2.
  destruct (cv2_imread_gray_crop w st p1 img1 H1) as (st1 & Hr1 & Hs1).
  assert (H2' : holds_crop w st1 p2 img2).
  { destruct H2 as (data & s & Hf & Hd). exists data, s. by rewrite Hs1. }
  destruct (cv2_imread_gray_crop w st1 p2 img2 H2') as (st2 & Hr2 & Hs2).
  unfold compute_similarity, bind. rewrite Hr1, Hr2. simpl. unfold ret.
  destruct (sift_detectAndCompute w img1) as [d1|] eqn:Hd1;
    [|exists (Q2Qc 0), 0; split_and!; [done|done|intros; done]].
  destruct (sift_detectAndCompute w img2) as [d2|] eqn:Hd2;
    [|exists (Q2Qc 0), 0; split_and!; [done|done|intros; done]].
  case_bool_decide as Hgood.
  - exists (Q2Qc 0), 0. split_and!; [done|done|intros; done].
  - unfold py_truediv. destruct (decide _) as [Hz|Hnz].
    + exfalso. apply Hgood.
      destruct (bf_knnMatch w d1 d2); [done|simpl in Hz; lia].
    + eexists _, _. split_and!; [done|by intros [?|?]|].
      intros d1' d2' [= <-] [= <-] Hnil. by rewrite Hnil in Hgood.
Qed.

(** ** The coordinate mapper *)

Section Mapper.

Local Open Scope Z_scope.

(** *** Halving in binary64 *)

Lemma div_eucl_div_mod (a b : Z) : Z.div_eucl a b = (a / b, a mod b).
Proof. unfold Z.div, Z.modulo. by destruct (Z.div_eucl a b). Qed.

Lemma binary_round_aux_shifted sx mx ex lx :
  binary_round_aux binary64.prec binary64.emax sx mx ex lx
  = round_shifted sx (shr_fexp binary64.prec binary64.emax mx ex lx).
Proof. reflexivity. Qed.

Lemma round_shifted_opp sx shifted :
  round_shifted (negb sx) shifted = SFopp (round_shifted sx shifted).
Proof.
  unfold round_shifted. destruct shifted as [mrs' e'].
  destruct (shr_fexp _ _ _ _ _) as [mrs'' e''].
  destruct (shr_m mrs'') as [|m|m]; [done| |done].
  by destruct (e'' <=? _).
Qed.

Lemma digits2_pos_bounds (p : positive) :
  2 ^ (Zpos (digits2_pos p) - 1) ≤ Zpos p < 2 ^ Zpos (digits2_pos p).
Proof.
  induction p as [p IH|p IH|]; cbn [digits2_pos].
  - rewrite Pos2Z.inj_succ.
    replace (Z.succ (Zpos (digits2_pos p)) - 1) with (Z.succ (Zpos (digits2_pos p) - 1)) by lia.
    rewrite !Z.pow_succ_r by lia. lia.
  - rewrite Pos2Z.inj_succ.
    replace (Z.succ (Zpos (digits2_pos p)) - 1) with (Z.succ (Zpos (digits2_pos p) - 1)) by lia.
    rewrite !Z.pow_succ_r by lia. lia.
  - simpl. lia.
Qed.

Lemma Zdigits2_le (m k : Z) : 0 ≤ m < 2 ^ k → 0 ≤ k → Zdigits2 m ≤ k.
Proof.
  intros [Hm Hlt] Hk. destruct m as [|p|p]; [simpl; lia| |lia].
  cbn [Zdigits2]. pose proof (digits2_pos_bounds p) as [Hlo _].
  destruct (decide (Zpos (digits2_pos p) ≤ k)) as [|Hgt]; [done|].
  assert (2 ^ k ≤ 2 ^ (Zpos (digits2_pos p) - 1)) by (apply Z.pow_le_mono_r; lia).
  lia.
Qed.

(** The centre over the size: one half, for every size. *)
Lemma quotient_half (p : positive) :
  binary64.quotient (Zpos p) (Zpos p~0) = half.
Proof.
  unfold binary64.quotient. cbn [Z.ltb Z.compare Z.abs Z.to_pos].
  unfold SFdiv. change (Z.to_pos (Z.abs (Zpos p))) with p.
  change (Z.to_pos (Z.abs (Zpos p~0))) with p~0%positive.
  assert (Hcore : SFdiv_core_binary binary64.prec binary64.emax (Zpos p) 0 (Zpos p~0) 0
                  = (2 ^ 53, -54, loc_Exact)).
  { unfold SFdiv_core_binary. cbn [Zdigits2 digits2_pos].
    replace (Zpos (digits2_pos p) + 0 - (Zpos (Pos.succ (digits2_pos p)) + 0)) with (-1) by lia.
    change (Z.min (fexp binary64.prec binary64.emax (-1)) (0 - 0)) with (-54).
    change (0 - 0 - -54) with 54.
    cbv beta iota zeta.
    rewrite div_eucl_div_mod, Z.shiftl_mul_pow2 by lia.
    replace (Zpos p * 2 ^ 54) with (2 ^ 53 * Zpos p~0) by lia.
    rewrite Z.div_mul, Z.mod_mul by lia.
    reflexivity. }
  rewrite Hcore. reflexivity.
Qed.

(** A finite float and its opposite add up to [+0.0]. *)
Lemma add_opp_finite (a : binary64.float) :
  binary64.finite a → binary64.add (binary64.opp a) a = S754_zero false.
Proof.
  destruct a as [s|s| |s m e]; [| done | done |]; intros _.
  - by destruct s.
  - unfold binary64.add, binary64.opp, SFopp, SFadd.
    set (x := Zpos (fst (shl_align m e (Z.min e e)))).
    replace (cond_Zopp (negb s) x + cond_Zopp s x) with 0; [done|].
    destruct s; simpl; lia.
Qed.

Local Notation "'fexp64'" := (fexp binary64.prec binary64.emax).
Local Notation "'shr_fexp64'" := (shr_fexp binary64.prec binary64.emax).

Lemma fexp64_eq (k : Z) : fexp64 k = Z.max (k - 53) (-1074).
Proof. reflexivity. Qed.

Lemma shr_fexp_noshift (m e : Z) (l : location) :
  fexp64 (Zdigits2 m + e) = e → shr_fexp64 m e l = (shr_record_of_loc m l, e).
Proof. intros H. unfold shr_fexp. by rewrite H, Z.sub_diag. Qed.

Lemma shr_fexp_shift (m e : Z) (l : location) (n : positive) :
  fexp64 (Zdigits2 m + e) - e = Zpos n →
  shr_fexp64 m e l = (SpecFloat.iter_pos shr_1 n (shr_record_of_loc m l), e + Zpos n).
Proof. intros H. unfold shr_fexp. by rewrite H. Qed.

(** What is left of a mantissa below [2^52] at the least exponent rounds
    to a finite float. *)
Lemma round_shifted_least (sx : bool) (q : Z) (r : bool) :
  0 ≤ q < 2 ^ 52 →
  binary64.finite (round_shifted sx (Build_shr_record q r false, -1074)).
Proof.
  intros Hq. unfold round_shifted.
  set (q' := round_nearest_even _ _).
  assert (Hq' : 0 ≤ q' < 2 ^ 53).
  { unfold q'. cbn [shr_m loc_of_shr_record]. destruct r; cbn [round_nearest_even].
    - destruct (Z.even q); lia.
    - lia. }
  rewrite shr_fexp_noshift.
  2:{ rewrite fexp64_eq. pose proof (Zdigits2_le q' 53 Hq' ltac:(lia)).
      assert (0 ≤ Zdigits2 q') by (destruct q'; simpl; lia). lia. }
  cbn [shr_record_of_loc shr_m].
  destruct q' as [|p|p]; [done|done|lia].
Qed.

Lemma bounded_cases (m : positive) (e : Z) :
  bounded binary64.prec binary64.emax m e = true →
  e ≤ 971 ∧
  ((Zpos (digits2_pos m) = 53 ∧ -1074 ≤ e) ∨ (e = -1074 ∧ Zpos (digits2_pos m) ≤ 53)).
Proof.
  unfold bounded, canonical_mantissa. intros [H1 H2]%andb_prop.
  apply Z.eqb_eq in H1. apply Z.leb_le in H2. rewrite fexp64_eq in H1.
  change (binary64.emax - binary64.prec) with 971 in H2. lia.
Qed.

Lemma digits2_pos_shift52 (m : positive) :
  Zdigits2 (Zpos (4503599627370496 * m)) = 52 + Zpos (digits2_pos m).
Proof.
  cbv [Pos.mul]. cbn [Zdigits2 digits2_pos]. rewrite !Pos2Z.inj_succ. lia.
Qed.

(** Half of a float: the first shift of the product [0.5 * D] and of the
    quotient [D / 2.0] leave the same mantissa, round bit, sticky bit and
    exponent. *)
Lemma half_shifted (m : positive) (e : Z) :
  bounded binary64.prec binary64.emax m e = true →
  ∃ sh,
    shr_fexp64 (Zpos (4503599627370496 * m)) (-53 + e) loc_Exact = sh ∧
    (let '(mz, ez, lz) :=
       SFdiv_core_binary binary64.prec binary64.emax (Zpos m) e
         (Zpos 4503599627370496) (-51) in
     shr_fexp64 mz ez lz) = sh ∧
    ∀ sx, binary64.finite (round_shifted sx sh).
Proof.
  intros Hb.
  assert (Hcases : (e = -1074 ∧ Zpos (digits2_pos m) ≤ 53) ∨
                   (Zpos (digits2_pos m) = 53 ∧ e = -1073) ∨
                   (Zpos (digits2_pos m) = 53 ∧ -1072 ≤ e ≤ 971)).
  { pose proof (bounded_cases m e Hb). lia. }
  destruct Hcases as [[-> Hd]|[[Hd ->]|[Hd He]]].
  - (* the least exponent: the last bit of the mantissa is rounded away *)
    exists (shr_1 (Build_shr_record (Zpos m) false false), -1074). split_and!.
    + rewrite (shr_fexp_shift _ _ _ 53).
      2:{ rewrite digits2_pos_shift52, fexp64_eq. lia. }
      reflexivity.
    + unfold SFdiv_core_binary. cbn [Zdigits2].
      change (Zpos (digits2_pos 4503599627370496)) with 53.
      replace (fexp64 (Zpos (digits2_pos m) + -1074 - (53 + -51)) `min` (-1074 - -51))
        with (-1074) by (rewrite fexp64_eq; lia).
      change (-1074 - -51 - -1074) with 51. cbv beta iota.
      rewrite Z.shiftl_mul_pow2, div_eucl_div_mod by lia.
      destruct m as [p|p|].
      * rewrite <- (Z.div_unique (Zpos p~1 * 2 ^ 51) 4503599627370496 (Zpos p)
                      2251799813685248) by lia.
        rewrite <- (Z.mod_unique (Zpos p~1 * 2 ^ 51) 4503599627370496 (Zpos p)
                      2251799813685248) by lia.
        change (new_location 4503599627370496 2251799813685248) with (loc_Inexact Eq).
        cbn [digits2_pos] in Hd. rewrite Pos2Z.inj_succ in Hd.
        rewrite shr_fexp_noshift; [done|]. cbn [Zdigits2]. rewrite fexp64_eq. lia.
      * replace (Zpos p~0 * 2 ^ 51) with (Zpos p * 4503599627370496) by lia.
        rewrite Z.div_mul, Z.mod_mul by lia.
        change (new_location 4503599627370496 0) with loc_Exact.
        cbn [digits2_pos] in Hd. rewrite Pos2Z.inj_succ in Hd.
        rewrite shr_fexp_noshift; [done|]. cbn [Zdigits2]. rewrite fexp64_eq. lia.
      * reflexivity.
    + intros sx.
      assert (Hhalf : ∀ p, Zpos (Pos.succ (digits2_pos p)) ≤ 53 → 0 ≤ Zpos p < 2 ^ 52).
      { intros p Hp. rewrite Pos2Z.inj_succ in Hp.
        pose proof (digits2_pos_bounds p) as [_ Hlt]. split; [lia|].
        eapply Z.lt_le_trans; [exact Hlt|]. apply Z.pow_le_mono_r; lia. }
      destruct m as [p|p|]; cbn [shr_1 orb]; cbn [digits2_pos] in Hd.
      * apply round_shifted_least. by apply Hhalf.
      * apply round_shifted_least. by apply Hhalf.
      * apply round_shifted_least. lia.
  - (* the least normal exponent but one *)
    exists (Build_shr_record (Zpos m) false false, -1074). split_and!.
    + rewrite (shr_fexp_shift _ _ _ 52).
      2:{ rewrite digits2_pos_shift52, fexp64_eq, Hd. lia. }
      reflexivity.
    + unfold SFdiv_core_binary. cbn [Zdigits2]. rewrite Hd.
      change (Zpos (digits2_pos 4503599627370496)) with 53.
      change (fexp64 (53 + -1073 - (53 + -51)) `min` (-1073 - -51)) with (-1074).
      change (-1073 - -51 - -1074) with 52. cbv beta iota.
      rewrite Z.shiftl_mul_pow2, div_eucl_div_mod by lia.
      change (2 ^ 52) with 4503599627370496.
      rewrite Z.div_mul, Z.mod_mul by lia.
      change (new_location 4503599627370496 0) with loc_Exact.
      rewrite shr_fexp_noshift; [done|]. cbn [Zdigits2]. rewrite Hd. reflexivity.
    + intros sx. unfold round_shifted. cbn [shr_m loc_of_shr_record round_nearest_even].
      rewrite shr_fexp_noshift; [done|]. cbn [Zdigits2]. rewrite Hd. reflexivity.
  - exists (Build_shr_record (Zpos m) false false, e - 1). split_and!.
    + rewrite (shr_fexp_shift _ _ _ 52).
      2:{ rewrite digits2_pos_shift52, fexp64_eq, Hd. lia. }
      f_equal. lia.
    + unfold SFdiv_core_binary. cbn [Zdigits2]. rewrite Hd.
      change (Zpos (digits2_pos 4503599627370496)) with 53.
      replace (fexp64 (53 + e - (53 + -51)) `min` (e - -51)) with (e - 2)
        by (rewrite fexp64_eq; lia).
      replace (e - -51 - (e - 2)) with 53 by lia.
      cbv beta iota.
      rewrite Z.shiftl_mul_pow2, div_eucl_div_mod by lia.
      replace (Zpos m * 2 ^ 53) with (Zpos m~0 * 4503599627370496) by lia.
      rewrite Z.div_mul, Z.mod_mul by lia.
      change (new_location 4503599627370496 0) with loc_Exact.
      rewrite (shr_fexp_shift _ _ _ 1).
      2:{ cbn [Zdigits2 digits2_pos]. rewrite Pos2Z.inj_succ, Hd, fexp64_eq. lia. }
      f_equal. lia.
    + intros sx. unfold round_shifted. cbn [shr_m loc_of_shr_record round_nearest_even].
      rewrite shr_fexp_noshift.
      2:{ cbn [Zdigits2]. rewrite fexp64_eq, Hd. lia. }
      cbn [shr_record_of_loc shr_m].
      change (binary64.emax - binary64.prec) with 971.
      destruct (Z.leb_spec (e - 1) 971); [done|lia].
Qed.

(** [0.5 * D] and [-D / 2] are opposite finite floats, for every finite
    [D] of the format. *)
Lemma half_opposite (D : binary64.float) :
  binary64.valid D → binary64.finite D →
  binary64.finite (binary64.mul half D) ∧
  binary64.div (binary64.opp D) binary64.two = binary64.opp (binary64.mul half D).
Proof.
  destruct D as [s|s| |s m e]; [|done|done|]; intros Hvalid _.
  - split; [done|]. by destruct s.
  - destruct (half_shifted m e Hvalid) as (sh & Hmul & Hdiv & Hfin).
    assert (Hm : binary64.mul half (S754_finite s m e) = round_shifted s sh).
    { unfold binary64.mul, half, SFmul. rewrite binary_round_aux_shifted.
      cbn [xorb]. by rewrite Hmul. }
    rewrite Hm. split; [apply Hfin|].
    unfold binary64.div, binary64.opp at 1, SFopp at 1.
    change binary64.two with (S754_finite false 4503599627370496 (-51)).
    unfold SFdiv.
    destruct (SFdiv_core_binary _ _ _ _ _ _) as [[mz ez] lz].
    rewrite binary_round_aux_shifted, Hdiv, xorb_false_r.
    apply round_shifted_opp.
Qed.

(** *** The mapper *)

(** C5. Coordinate mapping, one axis, for an image that has a size
    ([raw > 0]).  The value computed is
    [float(-display / 2) + position / raw * display] in binary64, each
    operation rounded, for every position; the quotient of the two ints
    may be too large for a float, which is an [OverflowError]; the offset
    handed to the pointer action is the [int] of the value.  When the
    position is the centre of the image, [2 * position = raw], the value
    is [+0.0] and the offset 0 for every finite display size, whatever the
    ratio of the two sizes; for a display size that is infinite or nan the
    value is nan and [int] raises [ValueError]. *)
Theorem axis_offset_center (position : Z) (raw : nat) (display : binary64.float)
    (st : state) :
  (0 < raw)%nat →
  axis_value position raw display st =
    match binary64.quotient position (Z.of_nat raw) with
    | S754_infinity _ => (Raise (OtherException "OverflowError"), st)
    | ratio =>
        (Ok (binary64.add (binary64.div (binary64.opp display) binary64.two)
                          (binary64.mul ratio display)), st)
    end ∧
  axis_offset position raw display st =
    match axis_value position raw display st with
    | (Ok value, st') => int_of_float value st'
    | (Raise e, st') => (Raise e, st')
    end ∧
  (2 * position = Z.of_nat raw →
   (binary64.valid display → binary64.finite display →
    axis_value position raw display st = (Ok (S754_zero false), st) ∧
    axis_offset position raw display st = (Ok 0, st)) ∧
   (¬ binary64.finite display →
    axis_value position raw display st = (Ok S754_nan, st) ∧
    axis_offset position raw display st =
      (Raise (ValueError "cannot convert float NaN to integer"), st))).
Proof.
  intros Hraw.
  assert (Hvalue : axis_value position raw display st =
    match binary64.quotient position (Z.of_nat raw) with
    | S754_infinity _ => (Raise (OtherException "OverflowError"), st)
    | ratio =>
        (Ok (binary64.add (binary64.div (binary64.opp display) binary64.two)
                          (binary64.mul ratio display)), st)
    end).
  { unfold axis_value, py_truediv64, bind, ret, raise.
    destruct (decide (Z.of_nat raw = 0)); [lia|].
    by destruct (binary64.quotient position (Z.of_nat raw)). }
  split_and!; [exact Hvalue|reflexivity|].
  intros Hcentre.
  assert (Hratio : binary64.quotient position (Z.of_nat raw) = half).
  { destruct position as [|p|p]; [lia| |lia].
    rewrite <- Hcentre. apply quotient_half. }
  rewrite Hratio in Hvalue. cbn [half] in Hvalue.
  split.
  - intros Hvalid Hfinite.
    destruct (half_opposite display Hvalid Hfinite) as [Hfin Hopp].
    assert (H0 : axis_value position raw display st = (Ok (S754_zero false), st)).
    { rewrite Hvalue. fold half. by rewrite Hopp, add_opp_finite. }
    split; [exact H0|]. unfold axis_offset, bind. by rewrite H0.
  - intros Hinf.
    assert (Hnan : axis_value position raw display st = (Ok S754_nan, st)).
    { rewrite Hvalue. by destruct display as [s|[]| |s m e]. }
    split; [exact Hnan|]. unfold axis_offset, bind. by rewrite Hnan.
Qed.

End Mapper.

(** ** Keeping the best candidate per sprite *)

Lemma record_all_app (w : world) (l1 l2 : list (nat * Qc * string))
    (result : gmap string pyval) (st : state) :
  record_all w (l1 ++ l2) result st =
    (let* result' := record_all w l1 result in record_all w l2 result') st.
Proof.
  revert result st. induction l1 as [|[[j s] p] l1 IH]; intros result st; [reflexivity|].
  cbn [record_all app]. unfold bind.
  destruct (record_match w result j s p st) as [[r|e] st']; [|reflexivity].
  rewrite IH. reflexivity.
Qed.

(** What the dictionary holds for sprite [j] after the pairs [scored]:
    nothing if the sprite was not scored, and otherwise the similarity and
    position of the first pair of maximal similarity. *)
Lemma store_lookup_similarity (j j' : nat) (s : Qc) (p : string)
    (result : gmap string pyval) :
  j < 3 → j' < 3 →
  store j s p result !! similarity_key j' =
    if decide (j = j') then Some (PyFloat s) else result !! similarity_key j'.
Proof.
  intros Hj Hj'. unfold store.
  destruct (sprite_keys_distinct j' j Hj' Hj) as (_ & Hsim & Hsp).
  rewrite lookup_insert_ne by done.
  rewrite lookup_insert. case_decide as Hk; case_decide as Hjj; try done.
  - destruct (decide (j' = j)) as [->|Hne]; [done|]. by destruct (Hsim Hne).
  - by subst.
Qed.

Lemma store_lookup_position (j j' : nat) (s : Qc) (p : string)
    (result : gmap string pyval) :
  j < 3 → j' < 3 →
  store j s p result !! position_key j' =
    if decide (j = j') then Some (PyStr p) else result !! position_key j'.
Proof.
  intros Hj Hj'. unfold store.
  destruct (sprite_keys_distinct j j' Hj Hj') as (Hpos & _ & Hsp).
  rewrite lookup_insert. case_decide as Hk; case_decide as Hjj; try done.
  - destruct (decide (j = j')) as [->|Hne]; [done|]. by destruct (Hpos Hne).
  - by subst.
  - by rewrite lookup_insert_ne.
Qed.

Lemma record_match_keeps (w : world) (l : list (nat * Qc * string))
    (result : gmap string pyval) (j : nat) (s : Qc) (p : string) (st : state) :
  j < 3 →
  (∀ j', j' < 3 → keeps_first_max l result j') →
  ∃ result',
    record_match w result j s p st = (Ok result', st) ∧
    ∀ j', j' < 3 → keeps_first_max (l ++ [(j, s, p)]) result' j'.
Proof.
  intros Hj Hinv.
  (* the pairs of the extended sequence *)
  assert (Hsnoc : ∀ k' j' s' p',
            (l ++ [(j, s, p)]) !! k' = Some (j', s', p') →
            (k' < length l ∧ l !! k' = Some (j', s', p')) ∨
            (k' = length l ∧ j' = j ∧ s' = s ∧ p' = p)).
  { intros k' j' s' p' Hk. apply lookup_app_Some in Hk as [Hk|[Hge Hk]].
    - left. split; [by eapply lookup_lt_Some|done].
    - right. apply list_lookup_singleton_Some in Hk as [Hz [= -> -> ->]].
      split; [lia|done]. }
  assert (Hlast : (l ++ [(j, s, p)]) !! length l = Some (j, s, p)).
  { rewrite lookup_app_r by lia. by rewrite Nat.sub_diag. }
  (* what happens to the other sprites *)
  assert (Hother : ∀ result',
            (∀ j', j' < 3 → j' ≠ j →
               result' !! similarity_key j' = result !! similarity_key j' ∧
               result' !! position_key j' = result !! position_key j') →
            ∀ j', j' < 3 → j' ≠ j → keeps_first_max (l ++ [(j, s, p)]) result' j').
  { intros result' Hsame j' Hj' Hne. unfold keeps_first_max.
    destruct (Hsame j' Hj' Hne) as [-> ->].
    destruct (Hinv j' Hj') as [(Hno & Hs & Hp)|(k & s0 & p0 & Hk & Hs & Hp & Hmax)].
    - left. split; [|done]. intros k' s' p' Hk'.
      destruct (Hsnoc _ _ _ _ Hk') as [[_ Hin]|(_ & -> & _)]; [|done].
      by destruct (Hno k' s' p').
    - right. exists k, s0, p0. split_and!; [|done|done|].
      + by apply lookup_app_l_Some.
      + intros k' s' p' Hk'.
        destruct (Hsnoc _ _ _ _ Hk') as [[_ Hin]|(_ & -> & _)]; [|done].
        by apply (Hmax k' s' p'). }
  (* the new pair becomes the entry of sprite [j] *)
  assert (Hstore : (∀ k' s' p', l !! k' = Some (j, s', p') → (s' < s)%Qc) →
            ∀ j', j' < 3 → keeps_first_max (l ++ [(j, s, p)]) (store j s p result) j').
  { intros Hless j' Hj'. destruct (decide (j' = j)) as [->|Hne].
    - right. exists (length l), s, p.
      rewrite store_lookup_similarity, store_lookup_position by done.
      rewrite !decide_True by done. split_and!; [done..|].
      intros k' s' p' Hk'.
      destruct (Hsnoc _ _ _ _ Hk') as [[Hlt Hin]|(-> & _ & -> & _)].
      + pose proof (Hless _ _ _ Hin). split; [by apply Qclt_le_weak|done].
      + split; [apply Qcle_refl|lia].
    - apply Hother; [|done..]. intros j'' Hj'' Hne''.
      rewrite store_lookup_similarity, store_lookup_position by done.
      by rewrite !decide_False by done. }
  unfold record_match.
  destruct (Hinv j Hj) as [(Hno & Hs & Hp)|(k & s0 & p0 & Hk & Hs & Hp & Hmax)].
  - rewrite Hs. eexists. split; [done|]. apply Hstore.
    intros k' s' p' Hin. by destruct (Hno k' s' p').
  - rewrite Hs. unfold float_of, bind, ret.
    destruct (decide (s0 < s)%Qc) as [Hlt|Hge].
    + eexists. split; [done|]. apply Hstore.
      intros k' s' p' Hin. destruct (Hmax _ _ _ Hin) as [Hle _].
      by eapply Qcle_lt_trans.
    + eexists. split; [done|]. intros j' Hj'.
      destruct (decide (j' = j)) as [->|Hne]; [|by apply Hother].
      right. exists k, s0, p0. split_and!; [|done|done|].
      * by apply lookup_app_l_Some.
      * intros k' s' p' Hk'.
        destruct (Hsnoc _ _ _ _ Hk') as [[Hlt Hin]|(-> & _ & -> & _)].
        -- by apply (Hmax k' s' p').
        -- split; [by apply Qcnot_lt_le|].
           intros Hlt. apply lookup_lt_Some in Hk. lia.
Qed.

(** Processing further pairs [l] after the pairs [l0]. *)
Lemma record_all_from (w : world) (l0 l : list (nat * Qc * string))
    (result0 : gmap string pyval) (st : state) :
  (∀ j, j < 3 → keeps_first_max l0 result0 j) →
  Forall (λ t, t.1.1 < 3) l →
  ∃ result,
    record_all w l result0 st = (Ok result, st) ∧
    ∀ j, j < 3 → keeps_first_max (l0 ++ l) result j.
Proof.
  revert l0 result0. induction l as [|[[j s] p] l IH]; intros l0 result0 Hinv Hall.
  - exists result0. split; [done|]. by rewrite app_nil_r.
  - inversion Hall as [|t l' Hj Hl]; subst. simpl in Hj.
    destruct (record_match_keeps w l0 result0 j s p st Hj Hinv)
      as (result1 & Hstep & Hinv1).
    destruct (IH (l0 ++ [(j, s, p)]) result1 Hinv1 Hl) as (result & Hrun & Hinv').
    exists result. split.
    + cbn [record_all]. unfold bind. by rewrite Hstep.
    + by rewrite (cons_middle (j, s, p) l0 l), app_assoc.
Qed.

(** Before any pair is scored no sprite has an entry. *)
Lemma keeps_first_max_empty (j : nat) : keeps_first_max [] ∅ j.
Proof.
  left. split; [|by rewrite !lookup_empty]. intros k s p. by rewrite lookup_nil.
Qed.

(** *** The loops of [process_captcha] score the pairs in order *)

Lemma record_match_pure (w : world) (result : gmap string pyval) (j : nat)
    (s : Qc) (p : string) (st st0 : state) :
  record_match w result j s p st = ((record_match w result j s p st0).1, st).
Proof.
  unfold record_match. destruct (result !! similarity_key j) as [[q|str]|]; [| |done].
  - unfold float_of, bind, ret. by destruct (decide (q < s)%Qc).
  - unfold float_of, py_float, bind.
    destruct (py_float_of_str w str) as [q|]; [|done].
    unfold ret. by destruct (decide (q < s)%Qc).
Qed.

Lemma match_sprites_scored (w : world) (i : nat) (b : bbox) (js : list nat)
    (result result' : gmap string pyval) (st st' : state) :
  match_sprites w i b js result st = (Ok result', st') →
  ∃ scored,
    map (λ t, (t.1.1, t.2)) scored = map (λ j, (j, center b)) js ∧
    ∀ st0, record_all w scored result st0 = (Ok result', st0).
Proof.
  revert result st. induction js as [|j js IH]; intros result st Hrun.
  - injection Hrun as <- <-. by exists [].
  - cbn [match_sprites] in Hrun. unfold bind at 1 in Hrun.
    destruct (compute_similarity w (sprite_file j) (spec_file i) st)
      as [[sm|e] st1]; [|done].
    unfold bind at 1 in Hrun.
    rewrite (record_match_pure w result j sm.1 (center b) st1 st) in Hrun.
    destruct (record_match w result j sm.1 (center b) st).1 as [r1|e] eqn:Hr1; [|done].
    destruct (IH r1 st1 Hrun) as (scored & Hshape & Hall).
    exists ((j, sm.1, center b) :: scored). split; [simpl; by rewrite Hshape|].
    intros st0. cbn [record_all]. unfold bind.
    rewrite (record_match_pure w result j sm.1 (center b) st0 st), Hr1. apply Hall.
Qed.

Lemma match_boxes_scored (w : world) (captcha : image) (i : nat)
    (bboxes : list bbox) (result result' : gmap string pyval) (st st' : state) :
  match_boxes w captcha i bboxes result st = (Ok result', st') →
  ∃ scored,
    map (λ t, (t.1.1, t.2)) scored =
      flat_map (λ b, map (λ j, (j, center b)) (seq 0 3)) bboxes ∧
    ∀ st0, record_all w scored result st0 = (Ok result', st0).
Proof.
  revert i result st. induction bboxes as [|b bboxes IH]; intros i result st Hrun.
  - injection Hrun as <- <-. by exists [].
  - cbn [match_boxes] in Hrun. unfold bind at 1 in Hrun.
    destruct (cv2_imwrite w (spec_file i) (crop captcha b) st) as [[ok|e] st1]; [|done].
    unfold bind at 1 in Hrun.
    destruct (match_sprites w i b (seq 0 3) result st1) as [[r1|e] st2] eqn:Hsp; [|done].
    destruct (match_sprites_scored w i b _ _ _ _ _ Hsp) as (sc1 & Hshape1 & Hall1).
    destruct (IH _ _ _ Hrun) as (sc2 & Hshape2 & Hall2).
    exists (sc1 ++ sc2). split.
    + rewrite map_app, Hshape1, Hshape2. done.
    + intros st0. rewrite record_all_app. unfold bind. rewrite Hall1. apply Hall2.
Qed.

(** The dictionary that [process_captcha] hands to [check_answer] holds,
    for each sprite, the first candidate of maximal similarity. *)
Lemma match_boxes_keeps_first_max (w : world) (captcha : image)
    (bboxes : list bbox) (result : gmap string pyval) (st st' : state) :
  match_boxes w captcha 0 bboxes ∅ st = (Ok result, st') →
  ∃ scored,
    map (λ t, (t.1.1, t.2)) scored =
      flat_map (λ b, map (λ j, (j, center b)) (seq 0 3)) bboxes ∧
    ∀ j, j < 3 → keeps_first_max scored result j.
Proof.
  intros Hrun. destruct (match_boxes_scored _ _ _ _ _ _ _ _ Hrun) as (scored & Hshape & Hall).
  exists scored. split; [done|].
  assert (Hlt : Forall (λ t : nat * Qc * string, t.1.1 < 3) scored).
  { assert (Hidx : Forall (λ jp : nat * string, jp.1 < 3)
                     (map (λ t : nat * Qc * string, (t.1.1, t.2)) scored)).
    { rewrite Hshape. clear. induction bboxes as [|b bboxes IH]; [done|].
      cbn [flat_map]. apply Forall_app. split; [|done].
      repeat constructor. }
    clear -Hidx. induction scored as [|t scored IH]; [done|].
    inversion Hidx; subst. constructor; [done|by apply IH]. }
  destruct (record_all_from w [] scored ∅ st' (λ j _, keeps_first_max_empty j) Hlt)
    as (result0 & Hrun0 & Hbest).
  rewrite Hall in Hrun0. by injection Hrun0 as ->.
Qed.

(** For a bare sequence of scored pairs: the update of lines 240-248,
    applied to the pairs in order from the empty dictionary, never fails
    and leaves for each sprite the first pair of maximal similarity. *)
Lemma record_all_keeps_first_max (w : world) (scored : list (nat * Qc * string))
    (st : state) :
  Forall (λ t, t.1.1 < 3) scored →
  ∃ result,
    record_all w scored ∅ st = (Ok result, st) ∧
    ∀ j, j < 3 → keeps_first_max scored result j.
Proof.
  intros Hall.
  destruct (record_all_from w [] scored ∅ st (λ j _, keeps_first_max_empty j) Hall)
    as (result & Hrun & Hbest).
  exists result. split; [exact Hrun|]. intros j Hj. exact (Hbest j Hj).
Qed.

(** *** The loops themselves *)

(** The inner loop (lines 238-248) for one candidate, entered with a
    dictionary that holds the best of the pairs [seen]. *)
Lemma match_sprites_keeps (w : world) (i : nat) (b : bbox) (js : list nat)
    (seen : list (nat * Qc * string)) (result0 : gmap string pyval) (st : state) :
  Forall (λ j, j < 3) js →
  (∀ j, j < 3 → keeps_first_max seen result0 j) →
  match score_sprites w i b js st with
  | (Ok scored, st') =>
      ∃ result,
        match_sprites w i b js result0 st = (Ok result, st') ∧
        ∀ j, j < 3 → keeps_first_max (seen ++ scored) result j
  | (Raise e, st') => match_sprites w i b js result0 st = (Raise e, st')
  end.
Proof.
  intros Hjs. revert seen result0 st.
  induction Hjs as [|j js Hj Hjs IH]; intros seen result0 st Hinv.
  - cbn [score_sprites match_sprites]. unfold ret. exists result0.
    split; [done|]. by rewrite app_nil_r.
  - cbn [score_sprites match_sprites]. unfold bind, ret.
    destruct (compute_similarity w (sprite_file j) (spec_file i) st)
      as [[sm|e] st1]; [|done].
    destruct (record_match_keeps w seen result0 j sm.1 (center b) st1 Hj Hinv)
      as (result1 & Hstep & Hinv1).
    rewrite Hstep.
    specialize (IH (seen ++ [(j, sm.1, center b)]) result1 st1 Hinv1).
    destruct (score_sprites w i b js st1) as [[scored|e] st2]; [|done].
    destruct IH as (result & Hrun & Hbest). exists result. split; [done|].
    by rewrite (cons_middle _ seen scored), app_assoc.
Qed.

(** C6. Keep-best accumulation.  Let the dictionary hold, for each sprite,
    the best of the (sprite, candidate) pairs [seen] so far.  Then the
    update of lines 240-248 with one more scored pair never fails and
    leaves a dictionary that holds the best of the pairs seen and the new
    one: exactly the entry (similarity and position) of the pair of
    maximal similarity, and among pairs of equal similarity the one seen
    first.  The matching loop of lines 234-248 scores the pairs in order,
    candidate by candidate and for each candidate the sprites 1 to 3,
    each pair with the similarity that [compute_similarity] returns for it
    ([score_boxes]); it fails only where the scoring fails, and otherwise
    leaves the best of all pairs seen and scored.  The run of
    [process_captcha] enters the loop with no pair seen and the empty
    dictionary. *)
Theorem matching_loop_keeps_first_max (w : world) (captcha : image) (i : nat)
    (bboxes : list bbox) (seen : list (nat * Qc * string))
    (result0 : gmap string pyval) (st : state) :
  (∀ j, j < 3 → keeps_first_max seen result0 j) →
  (∀ j similarity position, j < 3 →
     ∃ result,
       record_match w result0 j similarity position st = (Ok result, st) ∧
       ∀ j', j' < 3 → keeps_first_max (seen ++ [(j, similarity, position)]) result j') ∧
  match score_boxes w captcha i bboxes st with
  | (Ok scored, st') =>
      ∃ result,
        match_boxes w captcha i bboxes result0 st = (Ok result, st') ∧
        ∀ j, j < 3 → keeps_first_max (seen ++ scored) result j
  | (Raise e, st') => match_boxes w captcha i bboxes result0 st = (Raise e, st')
  end.
Proof.
  intros Hinv. split.
  { intros j similarity position Hj. by apply record_match_keeps. }
  revert i seen result0 st Hinv.
  induction bboxes as [|b bboxes IH]; intros i seen result0 st Hinv.
  - cbn [score_boxes match_boxes]. unfold ret. exists result0.
    split; [done|]. by rewrite app_nil_r.
  - cbn [score_boxes match_boxes]. unfold bind, ret.
    destruct (cv2_imwrite w (spec_file i) (crop captcha b) st) as [[ok|e] st1]; [|done].
    assert (Hjs : Forall (λ j, j < 3) (seq 0 3)) by (repeat constructor).
    pose proof (match_sprites_keeps w i b (seq 0 3) seen result0 st1 Hjs Hinv) as Hsp.
    destruct (score_sprites w i b (seq 0 3) st1) as [[scored1|e] st2];
      [|by rewrite Hsp].
    destruct Hsp as (result1 & Hrun1 & Hinv1). rewrite Hrun1.
    specialize (IH (S i) (seen ++ scored1) result1 st2 Hinv1).
    destruct (score_boxes w captcha (S i) bboxes st2) as [[scored2|e] st3]; [|done].
    destruct IH as (result & Hrun & Hbest). exists result. split; [done|].
    by rewrite app_assoc.
Qed.

(** ** How the functions change the state *)

Section Respects.

Context (R : relation state) `{!PreOrder R}.

Lemma respects_ret {A} (a : A) : respects R (ret a).
Proof. intros st. simpl. reflexivity. Qed.

Lemma respects_raise {A} (e : exn) : respects R (raise (A := A) e).
Proof. intros st. simpl. reflexivity. Qed.

Lemma respects_lift {A} (r : res A) : respects R (lift r).
Proof. intros st. simpl. reflexivity. Qed.

Lemma respects_bind {A B} (m : M A) (k : A → M B) :
  respects R m → (∀ a, respects R (k a)) → respects R (bind m k).
Proof.
  intros Hm Hk st. unfold bind. specialize (Hm st).
  destruct (m st) as [[a|e] st']; simpl in *; [|done].
  etrans; [exact Hm|apply Hk].
Qed.

Lemma respects_try {A} (m : M A) (catches : exn → bool) (h : exn → M A) :
  respects R m → (∀ e, respects R (h e)) → respects R (try_except m catches h).
Proof.
  intros Hm Hh st. unfold try_except. specialize (Hm st).
  destruct (m st) as [[a|e] st']; simpl in *; [done|].
  destruct (catches e); [|done].
  etrans; [exact Hm|apply Hh].
Qed.

(** The primitives: every event but the start of an acquisition and the
    call of the detector, and the four operations on the scratch
    directory. *)
Context (R_emit : ∀ e, plain e = true → respects R (emit e)).
Context (R_makedirs : respects R makedirs).
Context (R_write : ∀ name data, respects R (fs_write name data)).
Context (R_read : ∀ name, respects R (fs_read name)).

Ltac respects_step :=
  lazymatch goal with
  | |- respects _ (bind _ _) => apply respects_bind; [|intros ?]
  | |- respects _ (ret _) => apply respects_ret
  | |- respects _ (raise _) => apply respects_raise
  | |- respects _ (lift _) => apply respects_lift
  | |- respects _ (try_except _ _ _) => apply respects_try; [|intros ?]
  | |- respects _ (emit _) => by apply R_emit
  | |- respects _ (log _ _) => by apply R_emit
  | |- respects _ (sleep _) => by apply R_emit
  | |- respects _ makedirs => apply R_makedirs
  | |- respects _ (fs_write _ _) => apply R_write
  | |- respects _ (fs_read _) => apply R_read
  | |- respects _ (match ?x with _ => _ end) => destruct x
  | |- respects _ (let _ := _ in _) => cbv zeta
  end.

Ltac respects_auto := repeat (first [assumption | respects_step]).

Lemma respects_open_write name data : respects R (open_write name data).
Proof. unfold open_write. respects_auto. Qed.

Lemma respects_open_read name : respects R (open_read name).
Proof. unfold open_read. respects_auto. Qed.

Context (w : world).

Lemma respects_cv2_imread name : respects R (cv2_imread w name).
Proof. unfold cv2_imread. respects_auto. Qed.

Lemma respects_cv2_imread_gray name : respects R (cv2_imread_gray w name).
Proof. unfold cv2_imread_gray. respects_auto. Qed.

Lemma respects_cv2_imwrite name img : respects R (cv2_imwrite w name img).
Proof. unfold cv2_imwrite. respects_auto. Qed.

Lemma respects_download_image rc url filename :
  respects R (download_image w rc url filename).
Proof.
  unfold download_image. respects_auto. apply respects_open_write.
Qed.

Lemma respects_parse_style search what style :
  respects R (parse_style search what style).
Proof. unfold parse_style. respects_auto. Qed.

Lemma respects_py_float s : respects R (py_float w s).
Proof. unfold py_float. respects_auto. Qed.

Lemma respects_py_float64 s : respects R (py_float64 w s).
Proof. unfold py_float64. respects_auto. Qed.

Lemma respects_py_int s : respects R (py_int w s).
Proof. unfold py_int. respects_auto. Qed.

Lemma respects_fetch_images rc : respects R (fetch_images w rc).
Proof.
  unfold fetch_images, get_url_from_style.
  respects_auto; try apply respects_parse_style; apply respects_download_image.
Qed.

Lemma respects_check_thirds raw idxs : respects R (check_thirds w raw idxs).
Proof.
  induction idxs as [|i rest IH]; cbn [check_thirds]; respects_auto.
  - apply respects_cv2_imwrite.
  - apply respects_open_read.
Qed.

Lemma respects_check_captcha : respects R (check_captcha w).
Proof.
  unfold check_captcha. respects_auto.
  - apply respects_cv2_imread.
  - apply respects_check_thirds.
Qed.

Lemma respects_check_answer d : respects R (check_answer d).
Proof. unfold check_answer. respects_auto. Qed.

Lemma respects_py_truediv a b : respects R (py_truediv a b).
Proof. unfold py_truediv. respects_auto. Qed.

Lemma respects_compute_similarity p1 p2 : respects R (compute_similarity w p1 p2).
Proof.
  unfold compute_similarity, detectAndCompute.
  respects_auto; try apply respects_cv2_imread_gray; apply respects_py_truediv.
Qed.

Lemma respects_record_match result j similarity position :
  respects R (record_match w result j similarity position).
Proof.
  unfold record_match, float_of. respects_auto. apply respects_py_float.
Qed.

Lemma respects_match_sprites i b js result :
  respects R (match_sprites w i b js result).
Proof.
  revert result. induction js as [|j rest IH]; intros result;
    cbn [match_sprites]; respects_auto.
  - apply respects_compute_similarity.
  - apply respects_record_match.
  - apply IH.
Qed.

Lemma respects_match_boxes captcha i bboxes result :
  respects R (match_boxes w captcha i bboxes result).
Proof.
  revert i result.
  induction bboxes as [|b rest IH]; intros i result;
    cbn [match_boxes]; respects_auto.
  - apply respects_cv2_imwrite.
  - apply respects_match_sprites.
  - apply IH.
Qed.

Lemma respects_dict_get d key : respects R (dict_get d key).
Proof. unfold dict_get. respects_auto. Qed.

Lemma respects_parse_position v : respects R (parse_position w v).
Proof. unfold parse_position. respects_auto; apply respects_py_int. Qed.

Lemma respects_py_truediv64 a b : respects R (py_truediv64 a b).
Proof. unfold py_truediv64. respects_auto. Qed.

Lemma respects_int_of_float f : respects R (int_of_float f).
Proof. unfold int_of_float. respects_auto. Qed.

Lemma respects_axis_offset position raw display :
  respects R (axis_offset position raw display).
Proof.
  unfold axis_offset, axis_value. respects_auto.
  - apply respects_py_truediv64.
  - apply respects_int_of_float.
Qed.

Lemma respects_click_sprites rc captcha result idxs :
  respects R (click_sprites w rc captcha result idxs).
Proof.
  induction idxs as [|i rest IH]; cbn [click_sprites];
    unfold get_width_from_style, get_height_from_style; respects_auto;
    first [ apply respects_dict_get | apply respects_parse_position
          | apply respects_parse_style | apply respects_py_float64
          | apply respects_axis_offset ].
Qed.

Lemma respects_refresh rc site : respects R (refresh w rc site).
Proof. unfold refresh. respects_auto. Qed.

(** From here on the detector is called. *)
Context (R_detect : respects R (emit EvDetect)).

Lemma respects_solve_captcha rc : respects R (solve_captcha w rc).
Proof.
  unfold solve_captcha. respects_auto;
    first [ apply respects_cv2_imread | apply respects_open_read
          | apply respects_match_boxes | apply respects_check_answer
          | apply respects_click_sprites ].
Qed.

(** An attempt, after the first two steps of [download_captcha_img]. *)
Lemma respects_attempt_begun rc st :
  R ((emit EvAcquire ;; clear_scratch) st).2 (attempt w rc st).2.
Proof.
  assert (Hrest : respects R
            (fetch_images w rc ;;
             let* ok := check_captcha w in
             if ok then solve_captcha w rc
             else log Error "captcha quality too low, refreshing" ;; ret false)).
  { respects_auto.
    - apply respects_fetch_images.
    - apply respects_check_captcha.
    - apply respects_solve_captcha. }
  exact (Hrest ((emit EvAcquire ;; clear_scratch) st).2).
Qed.

(** And from here on acquisitions start. *)
Context (R_begin : respects R (emit EvAcquire ;; clear_scratch)).

Lemma respects_download_captcha_img rc : respects R (download_captcha_img w rc).
Proof.
  unfold download_captcha_img. intros st.
  change (R st (fetch_images w rc ((emit EvAcquire ;; clear_scratch) st).2).2).
  etrans; [apply R_begin|apply respects_fetch_images].
Qed.

Lemma respects_attempt rc : respects R (attempt w rc).
Proof.
  unfold attempt. respects_auto.
  - apply respects_download_captcha_img.
  - apply respects_check_captcha.
  - apply respects_solve_captcha.
Qed.

Lemma respects_try_block rc again :
  respects R again → respects R (try_block w rc again).
Proof.
  intros Hagain. unfold try_block. respects_auto.
  - apply respects_attempt.
  - apply respects_refresh.
Qed.

Lemma respects_handler rc again :
  respects R again → respects R (handler w rc again).
Proof.
  intros Hagain. unfold handler. respects_auto. apply respects_refresh.
Qed.

Lemma respects_process_captcha_loop remaining rc :
  respects R (process_captcha_loop w remaining rc).
Proof.
  revert rc. induction remaining as [|r IH]; intros rc;
    cbn [process_captcha_loop]; respects_auto.
  - by apply respects_try_block.
  - by apply respects_handler.
Qed.

(** A call of [process_captcha] below the cap, after the first two steps of
    its [download_captcha_img]. *)
Lemma respects_process_captcha_loop_begun r rc st :
  R ((emit EvAcquire ;; clear_scratch) st).2
    (process_captcha_loop w (S r) rc st).2.
Proof.
  assert (Hrest : respects R
            (try_except
               (let* solved :=
                  (fetch_images w rc ;;
                   let* ok := check_captcha w in
                   if ok then solve_captcha w rc
                   else log Error "captcha quality too low, refreshing" ;; ret false) in
                if solved then ret true
                else refresh w rc ReloadAfterAttempt ;;
                     process_captcha_loop w r (S rc))
               retryable
               (λ _, handler w rc (process_captcha_loop w r (S rc))))).
  { respects_auto.
    - apply respects_fetch_images.
    - apply respects_check_captcha.
    - apply respects_solve_captcha.
    - apply respects_refresh.
    - apply respects_process_captcha_loop.
    - apply respects_handler, respects_process_captcha_loop. }
  exact (Hrest ((emit EvAcquire ;; clear_scratch) st).2).
Qed.

End Respects.

(** ** Traces that only grow *)

Global Instance extends_by_preorder (P : event → Prop) : PreOrder (extends_by P).
Proof.
  split.
  - intros st. exists []. by rewrite app_nil_r.
  - intros st1 st2 st3 (evs1 & H1 & HP1) (evs2 & H2 & HP2).
    exists (evs1 ++ evs2). rewrite H2, H1, app_assoc. split; [done|].
    by apply Forall_app.
Qed.

Section Extends.

Context (P : event → Prop).
Context (P_plain : ∀ e, plain e = true → P e).
Context (P_read : ∀ name s, P (EvRead name s)).
Context (P_write : ∀ name, P (EvWrite name)).

Lemma extends_emit e : P e → respects (extends_by P) (emit e).
Proof. intros He st. exists [e]. split; [done|]. by constructor. Qed.

Lemma extends_plain e : plain e = true → respects (extends_by P) (emit e).
Proof. intros He. by apply extends_emit, P_plain. Qed.

Lemma extends_makedirs : respects (extends_by P) makedirs.
Proof. intros st. exists []. by rewrite app_nil_r. Qed.

Lemma extends_clear_scratch : respects (extends_by P) clear_scratch.
Proof. intros st. exists []. by rewrite app_nil_r. Qed.

Lemma extends_fs_write name data : respects (extends_by P) (fs_write name data).
Proof.
  intros st. unfold fs_write.
  destruct (scratch st) as [fs|]; [|exists []; by rewrite app_nil_r].
  destruct (fs !! name) as [[]|]; simpl;
    first [ exists [EvWrite name]; split; [done|]; by constructor
          | exists []; by rewrite app_nil_r ].
Qed.

Lemma extends_fs_read name : respects (extends_by P) (fs_read name).
Proof.
  intros st. unfold fs_read.
  destruct (scratch st ≫= _) as [[]|]; simpl;
    eexists [_]; (split; [done|]); by constructor.
Qed.

End Extends.

(** ** Counting acquisitions *)

Lemma acquisitions_app (t1 t2 : list event) :
  acquisitions (t1 ++ t2) = acquisitions t1 + acquisitions t2.
Proof. unfold acquisitions. by rewrite list.filter_app, List.length_app. Qed.

Lemma acquisitions_quiet (evs : list event) :
  Forall (λ e, e ≠ EvAcquire) evs → acquisitions evs = 0.
Proof.
  unfold acquisitions. induction 1 as [|e evs He _ IH]; [done|].
  by rewrite list.filter_cons_False.
Qed.

Lemma extends_acquisitions (st st' : state) :
  extends_by (λ e, e ≠ EvAcquire) st st' →
  acquisitions (trace st') = acquisitions (trace st).
Proof.
  intros (evs & Heq & Hevs). rewrite Heq, acquisitions_app, (acquisitions_quiet evs); [lia|done].
Qed.

Section Acquisitions.

Context (w : world).

Lemma quiet_plain e :
  plain e = true → respects (extends_by (λ e, e ≠ EvAcquire)) (emit e).
Proof. intros He. apply extends_emit. by destruct e. Qed.

Lemma attempt_acquisitions rc st :
  acquisitions (trace (attempt w rc st).2) = S (acquisitions (trace st)).
Proof.
  rewrite (extends_acquisitions ((emit EvAcquire ;; clear_scratch) st).2).
  - simpl. rewrite acquisitions_app. simpl. unfold acquisitions at 2. simpl. lia.
  - apply respects_attempt_begun;
      first [ apply extends_by_preorder | by apply extends_emit
            | apply extends_makedirs | by apply extends_fs_write
            | by apply extends_fs_read | exact quiet_plain ].
Qed.

Lemma refresh_acquisitions rc site st :
  acquisitions (trace (refresh w rc site st).2) = acquisitions (trace st).
Proof.
  apply extends_acquisitions.
  apply respects_refresh; [apply extends_by_preorder|exact quiet_plain].
Qed.

Lemma emit_acquisitions e st :
  e ≠ EvAcquire →
  acquisitions (trace (emit e st).2) = acquisitions (trace st).
Proof.
  intros He. simpl. rewrite acquisitions_app, (acquisitions_quiet [e]); [lia|].
  by constructor.
Qed.

Lemma not_Exception_not_retryable e : is_Exception e = false → retryable e = false.
Proof. by destruct e. Qed.

(** The handler makes no acquisition beyond those of the recursive call,
    and nothing retryable escapes it. *)
Lemma handler_bound rc again r st :
  (∀ st', acquisitions (trace (again st').2) ≤ acquisitions (trace st') + r) →
  acquisitions (trace (handler w rc again st).2) ≤ acquisitions (trace st) + r ∧
  ∀ e, (handler w rc again st).1 = Raise e → retryable e = false.
Proof.
  intros Hagain. unfold handler, log, bind, try_except.
  pose proof (emit_acquisitions (EvLog Error "captcha processing exception") st) as Hl.
  destruct (emit _ st) as [[[]|e0] sl] eqn:Hemit; [|done].
  simpl in Hl. specialize (Hl ltac:(done)).
  pose proof (refresh_acquisitions rc ReloadInHandler sl) as Hr.
  destruct (refresh w rc ReloadInHandler sl) as [[[]|e1] sr]; simpl in Hr.
  - specialize (Hagain sr).
    destruct (again sr) as [[b|e2] sf]; simpl in *.
    + split; [lia|done].
    + destruct (is_Exception e2) eqn:He2; simpl.
      * rewrite acquisitions_app. unfold acquisitions at 2. simpl. split; [lia|done].
      * split; [lia|]. intros e [= <-]. by apply not_Exception_not_retryable.
  - destruct (is_Exception e1) eqn:He1; simpl.
    + rewrite acquisitions_app. unfold acquisitions at 2. simpl. split; [lia|done].
    + split; [lia|]. intros e [= <-]. by apply not_Exception_not_retryable.
Qed.

(** The [try] block makes one acquisition of its own; a retryable
    exception leaves it before the recursive call. *)
Lemma try_block_bound rc again r st :
  (∀ st', acquisitions (trace (again st').2) ≤ acquisitions (trace st') + r ∧
          ∀ e, (again st').1 = Raise e → retryable e = false) →
  acquisitions (trace (try_block w rc again st).2) ≤ acquisitions (trace st) + S r ∧
  ∀ e, (try_block w rc again st).1 = Raise e → retryable e = true →
       acquisitions (trace (try_block w rc again st).2) = S (acquisitions (trace st)).
Proof.
  intros Hagain. unfold try_block, bind.
  pose proof (attempt_acquisitions rc st) as Ha.
  destruct (attempt w rc st) as [[[|]|e0] sa]; simpl in Ha.
  - simpl. split; [lia|done].
  - pose proof (refresh_acquisitions rc ReloadAfterAttempt sa) as Hr.
    destruct (refresh w rc ReloadAfterAttempt sa) as [[[]|e1] sr]; simpl in Hr.
    + destruct (Hagain sr) as [Hle Hnr].
      destruct (again sr) as [[b|e2] sf]; simpl in *.
      * split; [lia|done].
      * split; [lia|]. intros e [= <-] He. rewrite (Hnr e2) in He; done.
    + simpl. split; [lia|]. intros; lia.
  - simpl. split; [lia|]. intros; lia.
Qed.

Lemma process_captcha_loop_bound remaining rc st :
  acquisitions (trace (process_captcha_loop w remaining rc st).2)
    ≤ acquisitions (trace st) + remaining ∧
  ∀ e, (process_captcha_loop w remaining rc st).1 = Raise e → retryable e = false.
Proof.
  revert rc st. induction remaining as [|r IH]; intros rc st;
    cbn [process_captcha_loop].
  - simpl. rewrite acquisitions_app. unfold acquisitions at 2. simpl. split; [lia|done].
  - unfold try_except.
    destruct (try_block_bound rc (process_captcha_loop w r (S rc)) r st) as [Hle Hre];
      [intros st'; apply IH|].
    destruct (try_block w rc _ st) as [[b|e] s1]; simpl in *.
    + split; [lia|done].
    + destruct (retryable e) eqn:He.
      * specialize (Hre e eq_refl He).
        destruct (handler_bound rc (process_captcha_loop w r (S rc)) r s1) as [Hh Hnr];
          [intros st'; apply IH|].
        cbv beta iota. split; [lia|done].
      * cbv beta iota. simpl. split; [lia|]. by intros e' [= <-].
Qed.

(** The recursion on [remaining] is the recursion of the code on
    [retry_count]. *)
Lemma process_captcha_unfold rc st :
  process_captcha w rc st =
    if decide (retry_cap ≤ rc) then
      (log Error "too many captcha retries, task failed" ;; ret false) st
    else
      try_except (try_block w rc (process_captcha w (S rc))) retryable
        (λ _, handler w rc (process_captcha w (S rc))) st.
Proof.
  unfold process_captcha. case_decide as Hcap.
  - by replace (retry_cap - rc) with 0 by lia.
  - destruct (retry_cap - rc) as [|r] eqn:Hrem; [lia|].
    by replace (retry_cap - S rc) with r by lia.
Qed.

(** At most one acquisition per remaining retry. *)
Lemma process_captcha_acquisitions rc st :
  acquisitions (trace (process_captcha w rc st).2)
    ≤ acquisitions (trace st) + (retry_cap - rc).
Proof. apply process_captcha_loop_bound. Qed.

End Acquisitions.

(** C1. Retry bound: whatever the world answers, a run of
    [process_captcha] that starts at [retry_count = 0] starts at most
    [retry_cap + 1] acquisitions (calls of [download_captcha_img]) before
    it returns, where [retry_cap] is the cap 5 of the code. *)
Theorem retry_bound (w : world) (st : state) :
  acquisitions (trace (process_captcha w 0 st).2)
    ≤ acquisitions (trace st) + (retry_cap + 1).
Proof.
  unfold process_captcha.
  destruct (process_captcha_loop_bound w (retry_cap - 0) 0 st) as [Hle _].
  lia.
Qed.

(** ** The quality check of the sprite strip *)

Lemma slice_index_nonneg (n k : nat) : k ≤ n → slice_index n (Z.of_nat k) = k.
Proof.
  intros Hk. unfold slice_index.
  destruct (Z.ltb_spec (Z.of_nat k) 0); [lia|]. rewrite Nat2Z.id. lia.
Qed.

Lemma third_geometry (raw : image) (i : nat) :
  i < 3 →
  third raw i =
    Image (shape1 raw / 3)
          (map (λ r, take (shape1 raw / 3) (drop (shape1 raw / 3 * i) r)) (im_rows raw)).
Proof.
  intros Hi. unfold third, slice_cols, shape1.
  set (t := im_width raw / 3).
  assert (Ht : 3 * t ≤ im_width raw) by (apply Nat.Div0.mul_div_le).
  assert (Hdiv : (Z.of_nat (im_width raw) `div` 3)%Z = Z.of_nat t).
  { unfold t. by rewrite (Nat2Z.inj_div _ 3). }
  rewrite Hdiv.
  replace (Z.of_nat t * Z.of_nat i)%Z with (Z.of_nat (t * i)) by lia.
  replace (Z.of_nat t * (Z.of_nat i + 1))%Z with (Z.of_nat (t * (i + 1))) by lia.
  rewrite !slice_index_nonneg by nia.
  replace (t * (i + 1) - t * i) with t by nia. done.
Qed.

Lemma detections_app (t1 t2 : list event) :
  detections (t1 ++ t2) = detections t1 + detections t2.
Proof. unfold detections. by rewrite list.filter_app, List.length_app. Qed.

Lemma detections_quiet (evs : list event) :
  Forall (λ e, e ≠ EvDetect) evs → detections evs = 0.
Proof.
  unfold detections. induction 1 as [|e evs He _ IH]; [done|].
  by rewrite list.filter_cons_False.
Qed.

Lemma extends_detections (st st' : state) :
  extends_by (λ e, e ≠ EvDetect) st st' →
  detections (trace st') = detections (trace st).
Proof.
  intros (evs & Heq & Hevs).
  rewrite Heq, detections_app, (detections_quiet evs); [lia|done].
Qed.

Lemma writable_check (st : state) (name : string) :
  match scratch st with
  | Some fs => match fs !! name with Some EDir => False | _ => True end
  | None => False
  end →
  writable st name.
Proof.
  unfold writable. destruct (scratch st) as [fs|]; [|done].
  intros Hl. exists fs. split; [done|]. intros Hd. by rewrite Hd in Hl.
Qed.

Lemma writable_fs_write (name name' : string) (data : bytes) (st : state) :
  writable st name' → writable (fs_write name data st).2 name'.
Proof.
  intros (fs & Hs & Hd). unfold fs_write. rewrite Hs.
  assert (Hgoal : writable (State (Some (<[name:=EFile data (epoch st)]> fs))
                      (trace st ++ [EvWrite name])) name').
  { eexists. split; [done|]. rewrite lookup_insert. by case_decide. }
  destruct (fs !! name) as [[]|]; simpl; [done| |done].
  by exists fs.
Qed.

Lemma writable_fs_read (name name' : string) (st : state) :
  writable st name' → writable (fs_read name st).2 name'.
Proof. intros Hw. unfold fs_read. by destruct (scratch st ≫= _) as [[]|]. Qed.

Lemma bind_ok {A B} (m : M A) (k : A → M B) (st st' : state) (a : A) :
  m st = (Ok a, st') → bind m k st = k a st'.
Proof. intros Hm. unfold bind. by rewrite Hm. Qed.

Lemma bind_raise {A B} (m : M A) (k : A → M B) (st st' : state) (e : exn) :
  m st = (Raise e, st') → bind m k st = (Raise e, st').
Proof. intros Hm. unfold bind. by rewrite Hm. Qed.

Lemma bind_emit {B} (e : event) (k : unit → M B) (st : state) :
  bind (emit e) k st = k tt (emit e st).2.
Proof. done. Qed.

Lemma bind_lift_ok {A B} (r : res A) (k : A → M B) (st : state) (a : A) :
  r = Ok a → bind (lift r) k st = k a st.
Proof. by intros ->. Qed.

Lemma cv2_imwrite_writable (w : world) (name : string) (img : image)
    (data : bytes) (st : state) :
  writable st name → cv2_imencode w img = Ok data →
  ∃ st' fs,
    cv2_imwrite w name img st = (Ok true, st') ∧
    scratch st = Some fs ∧
    scratch st' = Some (<[name:=EFile data (epoch st)]> fs).
Proof.
  intros (fs & Hs & Hd) Henc. unfold cv2_imwrite.
  rewrite (bind_lift_ok _ _ _ data Henc). unfold fs_write. rewrite Hs.
  destruct (fs !! name) as [[]|]; [by eexists _, _|done|by eexists _, _].
Qed.

Lemma open_read_file (name : string) (data : bytes) (s : nat) (st : state) :
  scratch st ≫= (.!! name) = Some (EFile data s) →
  ∃ st', open_read name st = (Ok data, st') ∧ scratch st' = scratch st.
Proof.
  intros Hl. unfold open_read, bind, fs_read. rewrite Hl. by eexists.
Qed.

Section Quality.

Context (w : world).

(** One round of the loop of [check_captcha], up to the classification. *)
Lemma check_thirds_step (raw : image) (data : bytes) (label : string)
    (i : nat) (rest : list nat) (st : state) :
  writable st (sprite_file i) →
  cv2_imencode w (third raw i) = Ok data →
  ocr_classification w data = Ok label →
  ∃ st', check_thirds w raw (i :: rest) st =
           (if bool_decide (label ∈ ["0"; "1"]) then ret false
            else check_thirds w raw rest) st' ∧
         ∀ name, writable st name → writable st' name.
Proof.
  intros Hw Henc Hcls.
  destruct (cv2_imwrite_writable w _ _ _ st Hw Henc) as (st1 & fs & Hwr & Hs & Hs1).
  destruct (open_read_file (sprite_file i) data (epoch st) st1) as (st2 & Hrd & Hs2).
  { rewrite Hs1. simpl. by rewrite lookup_insert_eq. }
  cbn [check_thirds].
  rewrite (bind_ok _ _ _ _ _ Hwr), (bind_ok _ _ _ _ _ Hrd), bind_emit.
  rewrite (bind_lift_ok _ _ _ label Hcls).
  eexists. split; [done|].
  intros name (fs' & Hs' & Hd'). simpl. rewrite Hs2, Hs1. eexists. split; [done|].
  rewrite Hs in Hs'. injection Hs' as <-. rewrite lookup_insert. by case_decide.
Qed.

(** The loop returns [False] at the first third that is classified as
    ["0"] or ["1"]. *)
Lemma check_thirds_placeholder (raw : image) (enc : nat → bytes)
    (label : nat → string) (pre post : list nat) (i : nat) (st : state) :
  (∀ k, k ∈ pre ++ [i] →
        writable st (sprite_file k) ∧
        cv2_imencode w (third raw k) = Ok (enc k) ∧
        ocr_classification w (enc k) = Ok (label k)) →
  label i = "0" ∨ label i = "1" →
  ∃ st', check_thirds w raw (pre ++ i :: post) st = (Ok false, st').
Proof.
  intros Hall Hbad. revert st Hall.
  induction pre as [|k pre IH]; intros st Hall.
  - destruct (Hall i) as (Hw & Henc & Hcls); [by apply list_elem_of_singleton|].
    cbn [app].
    destruct (check_thirds_step raw _ _ i post st Hw Henc Hcls) as (st' & -> & _).
    rewrite bool_decide_eq_true_2; [by eexists|].
    destruct Hbad as [-> | ->]; [by left|by right; left].
  - destruct (Hall k) as (Hw & Henc & Hcls); [by left|].
    destruct (check_thirds_step raw _ _ k (pre ++ i :: post) st Hw Henc Hcls)
      as (st' & Heq & Hkeep).
    change ((k :: pre) ++ i :: post) with (k :: pre ++ i :: post). rewrite Heq.
    case_bool_decide; [by eexists|].
    apply IH. intros k' Hk'.
    destruct (Hall k') as (Hw' & ? & ?); [by right|]. auto.
Qed.

Lemma cv2_imread_image (path : string) (img : image) (st : state) :
  holds_image w st path img →
  ∃ st', cv2_imread w path st = (Ok (Some img), st') ∧ scratch st' = scratch st.
Proof.
  intros (data & s & Hf & Hd). unfold cv2_imread, bind, fs_read, ret.
  rewrite Hf. simpl. rewrite Hd. eauto.
Qed.

Lemma check_captcha_placeholder (raw : image) (enc : nat → bytes)
    (label : nat → string) (i : nat) (st : state) :
  i < 3 →
  holds_image w st "sprite.jpg" raw →
  (∀ k, k ≤ i →
        writable st (sprite_file k) ∧
        cv2_imencode w (third raw k) = Ok (enc k) ∧
        ocr_classification w (enc k) = Ok (label k)) →
  label i = "0" ∨ label i = "1" →
  ∃ st', check_captcha w st = (Ok false, st').
Proof.
  intros Hi Himg Hall Hbad.
  destruct (cv2_imread_image _ _ _ Himg) as (st1 & Hrd & Hs1).
  unfold check_captcha. rewrite (bind_ok _ _ _ _ _ Hrd).
  replace (seq 0 3) with (seq 0 i ++ i :: seq (S i) (2 - i))
    by (by destruct i as [|[|[|i]]]; [..|lia]).
  apply (check_thirds_placeholder raw enc label); [|done].
  intros k Hk. apply elem_of_app in Hk as [Hk|Hk].
  - apply elem_of_seq in Hk. destruct (Hall k) as ((fs & Hs & Hd) & ? & ?); [lia|].
    split; [|done]. exists fs. by rewrite Hs1.
  - apply list_elem_of_singleton in Hk as ->.
    destruct (Hall i) as ((fs & Hs & Hd) & ? & ?); [lia|].
    split; [|done]. exists fs. by rewrite Hs1.
Qed.

(** When the quality check fails the attempt ends without having called
    the detector. *)
Lemma attempt_low_quality (rc : nat) (st st1 st2 : state) :
  download_captcha_img w rc st = (Ok tt, st1) →
  check_captcha w st1 = (Ok false, st2) →
  attempt w rc st =
    (Ok false, (log Error "captcha quality too low, refreshing" st2).2) ∧
  detections (trace (attempt w rc st).2) = detections (trace st).
Proof.
  intros Hdl Hck.
  assert (Ha : attempt w rc st =
            (Ok false, (log Error "captcha quality too low, refreshing" st2).2)).
  { unfold attempt. by rewrite (bind_ok _ _ _ _ _ Hdl), (bind_ok _ _ _ _ _ Hck). }
  split; [done|]. rewrite Ha.
  assert (Hq1 : extends_by (λ e, e ≠ EvDetect) st st1).
  { replace st1 with (download_captcha_img w rc st).2 by by rewrite Hdl.
    apply respects_download_captcha_img;
      first [ apply extends_by_preorder | by apply extends_plain; intros []
            | apply extends_makedirs | by apply extends_fs_write
            | intros s; exists [EvAcquire]; split; [done|by constructor] ]. }
  assert (Hq2 : extends_by (λ e, e ≠ EvDetect) st1 st2).
  { replace st2 with (check_captcha w st1).2 by by rewrite Hck.
    apply respects_check_captcha;
      first [ apply extends_by_preorder | by apply extends_plain; intros []
            | by apply extends_fs_write | by apply extends_fs_read ]. }
  simpl. rewrite detections_app, (extends_detections _ _ Hq2),
    (extends_detections _ _ Hq1). unfold detections at 2. simpl. lia.
Qed.

(** Whatever follows, the refresh starts by looking up the control. *)
Lemma refresh_first (rc : nat) (site : reload_site) (again : M bool)
    (catches : exn → bool) (h : exn → M bool) (st : state) :
  respects (extends_by (λ _, True)) again →
  (∀ e, respects (extends_by (λ _, True)) (h e)) →
  ∃ evs, trace (try_except (refresh w rc site ;; again) catches h st).2 =
           trace st ++ EvFindReload :: evs.
Proof.
  intros Hagain Hh.
  assert (Hrest : respects (extends_by (λ _, True))
            (try_except
               ((lift (find_reload w rc site) ;; sleep 2 ;; emit EvClickReload ;;
                 lift (click_reload w rc site) ;; sleep 2) ;; again)
               catches h)).
  { apply respects_try; [apply extends_by_preorder| |done].
    repeat (apply respects_bind; [apply extends_by_preorder| |intros ?]);
      first [ done | apply respects_lift, extends_by_preorder
            | by apply extends_emit ]. }
  destruct (Hrest (emit EvFindReload st).2) as (evs & Heq & _).
  exists evs. simpl in Heq. rewrite <- app_assoc in Heq. exact Heq.
Qed.

Lemma process_captcha_loop_extends (remaining rc : nat) :
  respects (extends_by (λ _, True)) (process_captcha_loop w remaining rc).
Proof.
  apply respects_process_captcha_loop;
    first [ apply extends_by_preorder | by apply extends_plain
          | apply extends_makedirs | by apply extends_fs_write
          | by apply extends_fs_read | by apply extends_emit
          | intros s; exists [EvAcquire]; split; [done|by constructor] ].
Qed.

Lemma handler_extends (rc : nat) (again : M bool) :
  respects (extends_by (λ _, True)) again →
  respects (extends_by (λ _, True)) (handler w rc again).
Proof.
  intros Hagain. apply respects_handler;
    first [ done | apply extends_by_preorder | by apply extends_plain ].
Qed.

End Quality.

(** C7. Quality check: the strip is cut into three thirds of equal width
    [shape1 raw / 3]; if the classification of one of them answers ["0"]
    or ["1"], [check_captcha] returns [False], the attempt ends as
    low-quality without any call of the detector, and the next thing the
    controller does is to look up the refresh control. *)
Theorem placeholder_third_refreshes (w : world) (r rc : nat) (st st1 : state)
    (raw : image) (enc : nat → bytes) (label : nat → string) (i : nat) :
  i < 3 →
  download_captcha_img w rc st = (Ok tt, st1) →
  holds_image w st1 "sprite.jpg" raw →
  (∀ k, k ≤ i →
        writable st1 (sprite_file k) ∧
        cv2_imencode w (third raw k) = Ok (enc k) ∧
        ocr_classification w (enc k) = Ok (label k)) →
  label i = "0" ∨ label i = "1" →
  (∀ k, k < 3 →
        third raw k =
          Image (shape1 raw / 3)
                (map (λ row, take (shape1 raw / 3) (drop (shape1 raw / 3 * k) row))
                     (im_rows raw))) ∧
  ∃ st2,
    check_captcha w st1 = (Ok false, st2) ∧
    attempt w rc st =
      (Ok false, (log Error "captcha quality too low, refreshing" st2).2) ∧
    detections (trace (attempt w rc st).2) = detections (trace st) ∧
    ∃ evs,
      trace (process_captcha_loop w (S r) rc st).2 =
        trace (attempt w rc st).2 ++ EvFindReload :: evs.
Proof.
  intros Hi Hdl Himg Hall Hbad. split; [intros k Hk; by apply third_geometry|].
  destruct (check_captcha_placeholder w raw enc label i st1 Hi Himg Hall Hbad)
    as (st2 & Hck).
  destruct (attempt_low_quality w rc st st1 st2 Hdl Hck) as [Ha Hd].
  exists st2. split_and!; [done..|].
  cbn [process_captcha_loop].
  replace (try_except (try_block w rc (process_captcha_loop w r (S rc))) retryable
             (λ _, handler w rc (process_captcha_loop w r (S rc))) st)
    with (try_except
            (refresh w rc ReloadAfterAttempt ;; process_captcha_loop w r (S rc))
            retryable
            (λ _, handler w rc (process_captcha_loop w r (S rc)))
            (attempt w rc st).2).
  - apply refresh_first; [apply process_captcha_loop_extends|].
    intros _. apply handler_extends, process_captcha_loop_extends.
  - unfold try_except, try_block. rewrite (bind_ok _ _ _ _ _ Ha). by rewrite Ha.
Qed.

(** ** Decode failures *)

Section Decode.

Context (w : world).

Lemma check_captcha_unreadable (st st2 : state) :
  cv2_imread w "sprite.jpg" st = (Ok None, st2) →
  check_captcha w st =
    (Ok false, (log Error "sprite image could not be read" st2).2).
Proof. intros Hrd. unfold check_captcha. by rewrite (bind_ok _ _ _ _ _ Hrd). Qed.

Lemma solve_captcha_unreadable (rc : nat) (st st3 : state) :
  cv2_imread w "captcha.jpg" (log Info "start recognising the captcha" st).2
    = (Ok None, st3) →
  solve_captcha w rc st =
    (Raise (CaptchaRetryableError "captcha image read failed"),
     (log Error "captcha background could not be read" st3).2).
Proof.
  intros Hrd. unfold solve_captcha, log at 1. rewrite bind_emit.
  by rewrite (bind_ok _ _ _ _ _ Hrd).
Qed.

Lemma cv2_imread_extends (name : string) (st : state) :
  extends_by (λ e, e ≠ EvDetect) st (cv2_imread w name st).2.
Proof.
  apply respects_cv2_imread;
    first [ apply extends_by_preorder | by apply extends_fs_read ].
Qed.

End Decode.

(** C9, as amended.  A background image that cannot be decoded raises
    [CaptchaRetryableError] before the detector is called: a failure of
    its own, not an image of size zero.  A sprite strip that cannot be
    decoded is logged as unreadable and makes [check_captcha] return
    [False], which the controller handles as the low-quality rejection. *)
Theorem decode_failure_paths (w : world) (rc : nat) (st st1 st2 : state) :
  download_captcha_img w rc st = (Ok tt, st1) →
  (cv2_imread w "sprite.jpg" st1 = (Ok None, st2) →
   check_captcha w st1 =
     (Ok false, (log Error "sprite image could not be read" st2).2) ∧
   attempt w rc st =
     (Ok false,
      (log Error "captcha quality too low, refreshing"
         (log Error "sprite image could not be read" st2).2).2)) ∧
  (∀ st3,
     check_captcha w st1 = (Ok true, st2) →
     cv2_imread w "captcha.jpg" (log Info "start recognising the captcha" st2).2
       = (Ok None, st3) →
     attempt w rc st =
       (Raise (CaptchaRetryableError "captcha image read failed"),
        (log Error "captcha background could not be read" st3).2) ∧
     detections (trace (attempt w rc st).2) = detections (trace st)).
Proof.
  intros Hdl. split.
  - intros Hrd. pose proof (check_captcha_unreadable w st1 st2 Hrd) as Hck.
    split; [done|]. by apply (attempt_low_quality w rc st st1).
  - intros st3 Hck Hrd.
    pose proof (solve_captcha_unreadable w rc st2 st3 Hrd) as Hsolve.
    assert (Ha : attempt w rc st =
              (Raise (CaptchaRetryableError "captcha image read failed"),
               (log Error "captcha background could not be read" st3).2)).
    { unfold attempt.
      by rewrite (bind_ok _ _ _ _ _ Hdl), (bind_ok _ _ _ _ _ Hck). }
    split; [done|]. rewrite Ha.
    assert (Hq1 : extends_by (λ e, e ≠ EvDetect) st st1).
    { replace st1 with (download_captcha_img w rc st).2 by by rewrite Hdl.
      apply respects_download_captcha_img;
        first [ apply extends_by_preorder | by apply extends_plain; intros []
              | apply extends_makedirs | by apply extends_fs_write
              | intros s; exists [EvAcquire]; split; [done|by constructor] ]. }
    assert (Hq2 : extends_by (λ e, e ≠ EvDetect) st1 st2).
    { replace st2 with (check_captcha w st1).2 by by rewrite Hck.
      apply respects_check_captcha;
        first [ apply extends_by_preorder | by apply extends_plain; intros []
              | by apply extends_fs_write | by apply extends_fs_read ]. }
    assert (Hq3 : extends_by (λ e, e ≠ EvDetect)
                    (log Info "start recognising the captcha" st2).2 st3).
    { replace st3 with
        (cv2_imread w "captcha.jpg" (log Info "start recognising the captcha" st2).2).2
        by by rewrite Hrd.
      apply cv2_imread_extends. }
    simpl. rewrite detections_app, (extends_detections _ _ Hq3). simpl.
    rewrite detections_app, (extends_detections _ _ Hq2), (extends_detections _ _ Hq1).
    unfold detections at 2 3. simpl. lia.
Qed.

(** C9 as stated fails: an undecodable sprite strip ends the attempt on
    the low-quality path. *)
Lemma decode_failure_not_distinct :
  ¬ (∀ (w : world) (rc : nat) (st st1 st2 : state),
       download_captcha_img w rc st = (Ok tt, st1) →
       cv2_imread w "sprite.jpg" st1 = (Ok None, st2) →
       EvLog Error "captcha quality too low, refreshing" ∉ trace (attempt w rc st).2).
Proof.
  intros H.
  apply (H Sample.corrupt_sprite 0 Sample.start
           (download_captcha_img Sample.corrupt_sprite 0 Sample.start).2
           (cv2_imread Sample.corrupt_sprite "sprite.jpg"
              (download_captcha_img Sample.corrupt_sprite 0 Sample.start).2).2);
    [by vm_compute|by vm_compute|].
  vm_compute. do 9 right. left.
Qed.

(** ** Unexpected errors *)

(** An error outside the retryable classes that leaves the [try] block,
    from the attempt itself or from the recursive call of line 283, leaves
    [process_captcha] unchanged. *)
Lemma unexpected_error_propagates (w : world) (r rc : nat) (st st' : state) (e : exn) :
  try_block w rc (process_captcha_loop w r (S rc)) st = (Raise e, st') →
  retryable e = false →
  process_captcha_loop w (S r) rc st = (Raise e, st').
Proof.
  intros Hblock Hne. cbn [process_captcha_loop]. unfold try_except.
  by rewrite Hblock, Hne.
Qed.

(** C8, at the failing input: the first attempt times out (retryable),
    the second raises an error outside the retryable classes.  Called
    directly, the second attempt lets the error surface; called from the
    handler of the first, the error is caught by the [except Exception] of
    line 294 and turned into the result [False]. *)
Theorem unexpected_error_swallowed :
  (process_captcha Sample.flaky 1 Sample.start).1
    = Raise (OtherException "WebDriverException") ∧
  (attempt Sample.flaky 0 Sample.start).1 = Raise TimeoutException ∧
  (process_captcha Sample.flaky 0 Sample.start).1 = Ok false.
Proof. by vm_compute. Qed.

(** ** Freshness of the scratch directory *)

Global Instance keeps_fresh_preorder : PreOrder keeps_fresh.
Proof.
  split.
  - intros st Hf. done.
  - intros st1 st2 st3 H12 H23 Hf1.
    destruct (H12 Hf1) as [Hf2 Hr12]. destruct (H23 Hf2) as [Hf3 Hr23].
    split; [done|]. auto.
Qed.

Lemma acquisitions_cons (e : event) (t : list event) :
  acquisitions (e :: t) = (if decide (e = EvAcquire) then 1 else 0) + acquisitions t.
Proof.
  unfold acquisitions. destruct (decide (e = EvAcquire)) as [He|He].
  - by rewrite list.filter_cons_True.
  - by rewrite list.filter_cons_False.
Qed.

Lemma fresh_reads_app (n : nat) (t1 t2 : list event) :
  fresh_reads n (t1 ++ t2) =
    fresh_reads n t1 && fresh_reads (n + acquisitions t1) t2.
Proof.
  revert n. induction t1 as [|e t1 IH]; intros n.
  - simpl. f_equal. unfold acquisitions. simpl. lia.
  - rewrite acquisitions_cons.
    destruct e as [|name [s|]| | | | | | | | | |];
      (case_decide as He; [try discriminate He|try done]);
      simpl; rewrite ?Nat.add_succ_r, IH, <- ?andb_assoc; done.
Qed.

Lemma epoch_emit (e : event) (st : state) :
  e ≠ EvAcquire → epoch (emit e st).2 = epoch st.
Proof. apply emit_acquisitions. Qed.

Lemma keeps_fresh_emit (e : event) :
  e ≠ EvAcquire → (∀ name s, e ≠ EvRead name (Some s)) →
  respects keeps_fresh (emit e).
Proof.
  intros He Hread st Hf. split.
  - intros fs name data s Hs Hl. rewrite epoch_emit by done. by eapply Hf.
  - intros Hr. simpl. rewrite fresh_reads_app, Hr. simpl.
    destruct e as [|name [s|]| | | | | | | | | |]; try done.
    by destruct (Hread name s).
Qed.

Lemma keeps_fresh_plain (e : event) : plain e = true → respects keeps_fresh (emit e).
Proof. intros He. apply keeps_fresh_emit; intros; by destruct e. Qed.

Lemma keeps_fresh_makedirs : respects keeps_fresh makedirs.
Proof.
  intros st Hf. split; [|done].
  intros fs name data s Hs Hl. simpl in Hs.
  destruct (scratch st) as [fs'|] eqn:Hsc; simpl in Hs.
  - injection Hs as <-. by eapply Hf.
  - injection Hs as <-. by rewrite lookup_empty in Hl.
Qed.

Lemma keeps_fresh_fs_write name data : respects keeps_fresh (fs_write name data).
Proof.
  intros st Hf. unfold fs_write.
  destruct (scratch st) as [fs|] eqn:Hsc; [|done].
  assert (Hgoal : keeps_fresh st
            (State (Some (<[name:=EFile data (epoch st)]> fs))
                   (trace st ++ [EvWrite name]))).
  { intros _. split.
    - intros fs' name' data' s Hs Hl. simpl in Hs. injection Hs as <-.
      change (s = acquisitions (trace st ++ [EvWrite name])).
      rewrite acquisitions_app. unfold acquisitions at 2. simpl. rewrite Nat.add_0_r.
      rewrite lookup_insert in Hl. case_decide.
      + by injection Hl as _ <-.
      + by eapply Hf.
    - intros Hr. simpl. by rewrite fresh_reads_app, Hr. }
  destruct (fs !! name) as [[]|]; simpl; first [by apply Hgoal | done].
Qed.

Lemma keeps_fresh_fs_read name : respects keeps_fresh (fs_read name).
Proof.
  intros st Hf. unfold fs_read.
  assert (Hnone : keeps_fresh st (State (scratch st) (trace st ++ [EvRead name None]))).
  { apply (keeps_fresh_emit (EvRead name None)); done. }
  destruct (scratch st ≫= _) as [[data s|]|] eqn:Hl; simpl;
    [|by apply Hnone..].
  destruct (scratch st) as [fs|] eqn:Hsc; [|done]. simpl in Hl.
  assert (Hs : s = epoch st) by (by eapply Hf).
  split.
  - intros fs' name' data' s' Hs' Hl'. simpl in Hs'. injection Hs' as <-.
    change (s' = acquisitions (trace st ++ [EvRead name (Some s)])).
    rewrite acquisitions_app. unfold acquisitions at 2. simpl. rewrite Nat.add_0_r.
    by eapply Hf.
  - intros Hr. simpl. rewrite fresh_reads_app, Hr. simpl.
    rewrite andb_true_r. by apply bool_decide_eq_true.
Qed.

Lemma keeps_fresh_detect : respects keeps_fresh (emit EvDetect).
Proof. by apply keeps_fresh_emit. Qed.

(** The first two steps of [download_captcha_img] leave no file at all. *)
Lemma begin_no_file (st : state) (fs : gmap string entry) (name : string)
    (data : bytes) (s : nat) :
  scratch ((emit EvAcquire ;; clear_scratch) st).2 = Some fs →
  fs !! name ≠ Some (EFile data s).
Proof.
  simpl. intros Hs Hl. destruct (scratch st) as [fs0|]; [|done].
  simpl in Hs. injection Hs as <-.
  apply map_lookup_filter_Some in Hl as [_ Hl]. done.
Qed.

Lemma begin_files_fresh (st : state) :
  files_fresh ((emit EvAcquire ;; clear_scratch) st).2.
Proof. intros fs name data s Hs Hl. by destruct (begin_no_file st fs name data s). Qed.

Lemma begin_fresh_reads (st : state) :
  fresh_reads 0 (trace st) = true →
  fresh_reads 0 (trace ((emit EvAcquire ;; clear_scratch) st).2) = true.
Proof. intros Hr. simpl. by rewrite fresh_reads_app, Hr. Qed.

Lemma keeps_fresh_begin : respects keeps_fresh (emit EvAcquire ;; clear_scratch).
Proof.
  intros st _. split; [apply begin_files_fresh|apply begin_fresh_reads].
Qed.

Lemma epoch_begin (st : state) :
  epoch ((emit EvAcquire ;; clear_scratch) st).2 = S (epoch st).
Proof.
  unfold epoch. simpl. rewrite acquisitions_app. unfold acquisitions at 2. simpl. lia.
Qed.

Section Fresh.

Context (w : world).

Local Ltac fresh_primitives :=
  first [ exact keeps_fresh_plain | exact keeps_fresh_makedirs
        | exact keeps_fresh_fs_write | exact keeps_fresh_fs_read
        | exact keeps_fresh_detect | exact keeps_fresh_begin
        | exact keeps_fresh_preorder ].

Local Ltac quiet_primitives :=
  first [ exact quiet_plain | apply extends_makedirs
        | apply extends_fs_write; by intros
        | apply extends_fs_read; by intros
        | apply extends_by_preorder ].

Lemma download_captcha_img_fresh rc st :
  files_fresh (download_captcha_img w rc st).2 ∧
  epoch (download_captcha_img w rc st).2 = S (epoch st).
Proof.
  split.
  - assert (H : respects keeps_fresh (fetch_images w rc))
      by (apply respects_fetch_images; fresh_primitives).
    apply (H ((emit EvAcquire ;; clear_scratch) st).2), begin_files_fresh.
  - assert (H : respects (extends_by (λ e, e ≠ EvAcquire)) (fetch_images w rc))
      by (apply respects_fetch_images; quiet_primitives).
    rewrite <- epoch_begin. unfold epoch. apply extends_acquisitions.
    apply (H ((emit EvAcquire ;; clear_scratch) st).2).
Qed.

Lemma process_captcha_loop_fresh r rc st :
  fresh_reads 0 (trace st) = true →
  files_fresh (process_captcha_loop w (S r) rc st).2 ∧
  fresh_reads 0 (trace (process_captcha_loop w (S r) rc st).2) = true.
Proof.
  intros Hr.
  assert (H : keeps_fresh ((emit EvAcquire ;; clear_scratch) st).2
                          (process_captcha_loop w (S r) rc st).2)
    by (apply respects_process_captcha_loop_begun; fresh_primitives).
  destruct H as [Hf Hrr]; [apply begin_files_fresh|].
  split; [done|]. by apply Hrr, begin_fresh_reads.
Qed.

Lemma process_captcha_loop_epoch r rc st :
  epoch st < epoch (process_captcha_loop w (S r) rc st).2.
Proof.
  assert (H : extends_by (λ _, True) ((emit EvAcquire ;; clear_scratch) st).2
                         (process_captcha_loop w (S r) rc st).2).
  { apply respects_process_captcha_loop_begun;
      first [ apply extends_by_preorder | by apply extends_plain
            | apply extends_makedirs | by apply extends_fs_write
            | by apply extends_fs_read | by apply extends_emit
            | intros s; exists [EvAcquire]; split; [done|by constructor] ]. }
  destruct H as (evs & Heq & _). unfold epoch. rewrite Heq, acquisitions_app.
  change (acquisitions (trace ((emit EvAcquire ;; clear_scratch) st).2))
    with (epoch ((emit EvAcquire ;; clear_scratch) st).2).
  rewrite epoch_begin. unfold epoch. lia.
Qed.

End Fresh.

(** C10. Scratch cleanup: every acquisition starts by removing all files
    of the scratch directory, before anything is written; so after
    [download_captcha_img], and after a whole run of [process_captcha] below
    the cap (any number of consecutive attempts), every file of the scratch
    directory was written during the most recent acquisition, and every
    read along the run found a file written during the acquisition that
    was current at that time. *)
Theorem scratch_only_latest_attempt (w : world) (rc : nat) (st : state) :
  rc < retry_cap → fresh_reads 0 (trace st) = true →
  (download_captcha_img w rc st =
     fetch_images w rc ((emit EvAcquire ;; clear_scratch) st).2 ∧
   ∀ fs name data s,
     scratch ((emit EvAcquire ;; clear_scratch) st).2 = Some fs →
     fs !! name ≠ Some (EFile data s)) ∧
  (files_fresh (download_captcha_img w rc st).2 ∧
   epoch (download_captcha_img w rc st).2 = S (epoch st)) ∧
  (files_fresh (process_captcha w rc st).2 ∧
   fresh_reads 0 (trace (process_captcha w rc st).2) = true ∧
   epoch st < epoch (process_captcha w rc st).2).
Proof.
  intros Hrc Hr. split_and!.
  - done.
  - intros fs name data s. apply begin_no_file.
  - apply download_captcha_img_fresh.
  - apply download_captcha_img_fresh.
  - unfold process_captcha. destruct (retry_cap - rc) as [|r] eqn:Hrem; [lia|].
    by apply process_captcha_loop_fresh.
  - unfold process_captcha. destruct (retry_cap - rc) as [|r] eqn:Hrem; [lia|].
    by apply process_captcha_loop_fresh.
  - unfold process_captcha. destruct (retry_cap - rc) as [|r] eqn:Hrem; [lia|].
    apply process_captcha_loop_epoch.
Qed.

(** ** The properties on the concrete world *)

Lemma check_answer_rejects_witness :
  (check_answer Sample.two_sprites Sample.start).1 = Ok false ∧
  (check_answer Sample.same_position Sample.start).1 = Ok false.
Proof.
  split.
  - apply check_answer_rejects. left. vm_compute. lia.
  - apply check_answer_rejects. right. exists 0, 1, (PyStr "2,0").
    split_and!; [lia|lia|lia|by vm_compute|by vm_compute].
Defined.

Lemma check_answer_equal_scores_witness :
  size Sample.same_score = 6 ∧
  Sample.same_score !! position_key 0 = Some (PyStr "2,0") ∧
  Sample.same_score !! position_key 1 = Some (PyStr "6,0") ∧
  Sample.same_score !! position_key 2 = Some (PyStr "10,0") ∧
  (check_answer Sample.same_score Sample.start).1 = Ok false.
Proof.
  split_and!; [by vm_compute..|].
  apply (check_answer_equal_scores Sample.same_score Sample.start 0 1 (Q2Qc (1 # 2)));
    [lia|lia|lia|by vm_compute|by vm_compute].
Defined.

Lemma compute_similarity_total_witness :
  holds_crop Sample.clean Sample.crops "sprite_1.jpg" (Image 1 [[10%Z]]) ∧
  holds_crop Sample.clean Sample.crops "spec_1.jpg" (Image 4 [[10; 11; 12; 13]%Z]) ∧
  ∃ sim votes,
    (compute_similarity Sample.clean "sprite_1.jpg" "spec_1.jpg" Sample.crops).1
      = Ok (sim, votes) ∧
    (sift_detectAndCompute Sample.clean (Image 1 [[10%Z]]) = None ∨
     sift_detectAndCompute Sample.clean (Image 4 [[10; 11; 12; 13]%Z]) = None →
     sim = Q2Qc 0 ∧ votes = 0) ∧
    (∀ d1 d2,
       sift_detectAndCompute Sample.clean (Image 1 [[10%Z]]) = Some d1 →
       sift_detectAndCompute Sample.clean (Image 4 [[10; 11; 12; 13]%Z]) = Some d2 →
       good_matches (bf_knnMatch Sample.clean d1 d2) = [] →
       sim = Q2Qc 0 ∧ votes = 0).
Proof.
  assert (H1 : holds_crop Sample.clean Sample.crops "sprite_1.jpg" (Image 1 [[10%Z]])).
  { exists (Sample.pixels [10%Z]), 1. split; by vm_compute. }
  assert (H2 : holds_crop Sample.clean Sample.crops "spec_1.jpg"
                 (Image 4 [[10; 11; 12; 13]%Z])).
  { exists (Sample.pixels [10; 11; 12; 13]%Z), 1. split; by vm_compute. }
  split_and!; [done..|].
  exact (compute_similarity_total Sample.clean Sample.crops _ _ _ _ H1 H2).
Defined.

Lemma axis_offset_center_witness :
  0 < 300 ∧ (2 * 150)%Z = Z.of_nat 300 ∧
  binary64.valid (binary64.of_Z 340) ∧ binary64.finite (binary64.of_Z 340) ∧
  axis_value 150 300 (binary64.of_Z 340) Sample.start
    = (Ok (S754_zero false), Sample.start) ∧
  axis_offset 150 300 (binary64.of_Z 340) Sample.start = (Ok 0%Z, Sample.start).
Proof.
  assert (Hraw : 0 < 300) by lia.
  assert (Hvalid : binary64.valid (binary64.of_Z 340)) by reflexivity.
  assert (Hfinite : binary64.finite (binary64.of_Z 340)) by exact I.
  destruct (axis_offset_center 150 300 (binary64.of_Z 340) Sample.start Hraw)
    as (_ & _ & Hcentre).
  destruct (Hcentre eq_refl) as [Hzero _].
  destruct (Hzero Hvalid Hfinite) as [Hvalue Hoffset].
  split_and!; [exact Hraw|reflexivity|exact Hvalid|exact Hfinite|exact Hvalue|exact Hoffset].
Defined.

(** The centre is not mapped to 0 for every raw size and every display
    size.  An image 3 pixels wide that is shown 12 px wide has no position
    that is mapped to 0: positions are integers, and 0, 1, 2 and 3 are
    mapped to -6, -2, 2 and 6.  And for a display size that overflowed to
    infinity the centre of an image of even size has no offset at all:
    [int] raises. *)
Lemma axis_offset_center_fails :
  ¬ (∀ (raw : nat) (display : binary64.float) (st : state),
       0 < raw → binary64.valid display → binary64.finite display →
       ∃ position : Z,
         (0 ≤ position ≤ Z.of_nat raw)%Z ∧
         axis_offset position raw display st = (Ok 0%Z, st)) ∧
  ¬ (∀ (position : Z) (raw : nat) (display : binary64.float) (st : state),
       0 < raw → (2 * position)%Z = Z.of_nat raw → binary64.valid display →
       axis_offset position raw display st = (Ok 0%Z, st)).
Proof.
  split.
  - intros H.
    destruct (H 3 (binary64.of_Z 12) Sample.start ltac:(lia) eq_refl I)
      as (position & Hrange & Hoffset).
    assert (Hcases : position = 0%Z ∨ position = 1%Z ∨ position = 2%Z ∨ position = 3%Z)
      by lia.
    destruct Hcases as [-> | [-> | [-> | ->]]]; vm_compute in Hoffset; discriminate Hoffset.
  - intros H.
    pose proof (H 150%Z 300 (S754_infinity false) Sample.start ltac:(lia) eq_refl eq_refl)
      as Hoffset.
    vm_compute in Hoffset. discriminate Hoffset.
Qed.

Lemma matching_loop_keeps_first_max_witness :
  (∃ result,
     record_match Sample.clean ∅ 1 (Q2Qc (2 # 3)) "6,0" Cases.checked
       = (Ok result, Cases.checked) ∧
     ∀ j', j' < 3 → keeps_first_max ([] ++ [(1, Q2Qc (2 # 3), "6,0")]) result j') ∧
  ∃ scored st' result,
    score_boxes Sample.clean Cases.background 0 Sample.boxes Cases.checked
      = (Ok scored, st') ∧
    length scored = 9 ∧
    match_boxes Sample.clean Cases.background 0 Sample.boxes ∅ Cases.checked
      = (Ok result, st') ∧
    ∀ j, j < 3 → keeps_first_max ([] ++ scored) result j.
Proof.
  pose proof (matching_loop_keeps_first_max Sample.clean Cases.background 0
                Sample.boxes [] ∅ Cases.checked (λ j _, keeps_first_max_empty j))
    as [Hstep H].
  split; [apply Hstep; lia|].
  assert (Hlen : match (score_boxes Sample.clean Cases.background 0 Sample.boxes
                          Cases.checked).1 with
                 | Ok scored => length scored
                 | Raise _ => 0
                 end = 9) by (vm_compute; reflexivity).
  destruct (score_boxes Sample.clean Cases.background 0 Sample.boxes Cases.checked)
    as [[scored|e] st']; [|discriminate Hlen].
  destruct H as (result & Hrun & Hbest).
  exists scored, st', result. split_and!; [reflexivity|exact Hlen|exact Hrun|exact Hbest].
Defined.

Lemma placeholder_third_refreshes_witness :
  ∃ st2,
    check_captcha Sample.placeholder
      (download_captcha_img Sample.placeholder 0 Sample.start).2 = (Ok false, st2) ∧
    attempt Sample.placeholder 0 Sample.start =
      (Ok false, (log Error "captcha quality too low, refreshing" st2).2) ∧
    detections (trace (attempt Sample.placeholder 0 Sample.start).2)
      = detections (trace Sample.start) ∧
    ∃ evs,
      trace (process_captcha_loop Sample.placeholder 5 0 Sample.start).2 =
        trace (attempt Sample.placeholder 0 Sample.start).2 ++ EvFindReload :: evs.
Proof.
  refine (proj2 (placeholder_third_refreshes Sample.placeholder 4 0 Sample.start
            (download_captcha_img Sample.placeholder 0 Sample.start).2
            (Image 9 [[10; 11; 12; 49; 51; 70; 90; 60; 130]%Z])
            (λ k, match cv2_imencode Sample.placeholder
                          (third (Image 9 [[10; 11; 12; 49; 51; 70; 90; 60; 130]%Z]) k) with
                  | Ok data => data
                  | Raise _ => []
                  end)
            (λ k, match k with 1 => "1" | _ => "8" end)
            1 _ _ _ _ _)).
  - lia.
  - by vm_compute.
  - eexists _, _. split; by vm_compute.
  - intros k Hk. destruct k as [|[|k]]; [| |lia].
    + split_and!; [|by vm_compute..]. apply writable_check. by vm_compute.
    + split_and!; [|by vm_compute..]. apply writable_check. by vm_compute.
  - by right.
Defined.

Lemma decode_failure_paths_witness :
  (check_captcha Sample.corrupt_sprite
     (download_captcha_img Sample.corrupt_sprite 0 Sample.start).2).1 = Ok false ∧
  (attempt Sample.corrupt_sprite 0 Sample.start).1 = Ok false ∧
  (attempt Sample.corrupt_background 0 Sample.start).1
    = Raise (CaptchaRetryableError "captcha image read failed") ∧
  detections (trace (attempt Sample.corrupt_background 0 Sample.start).2)
    = detections (trace Sample.start).
Proof.
  pose proof (decode_failure_paths Sample.corrupt_sprite 0 Sample.start
                (download_captcha_img Sample.corrupt_sprite 0 Sample.start).2
                (cv2_imread Sample.corrupt_sprite "sprite.jpg"
                   (download_captcha_img Sample.corrupt_sprite 0 Sample.start).2).2
                ltac:(by vm_compute)) as [HA _].
  destruct (HA ltac:(by vm_compute)) as [Hck Ha].
  pose proof (decode_failure_paths Sample.corrupt_background 0 Sample.start
                (download_captcha_img Sample.corrupt_background 0 Sample.start).2
                (check_captcha Sample.corrupt_background
                   (download_captcha_img Sample.corrupt_background 0 Sample.start).2).2
                ltac:(by vm_compute)) as [_ HB].
  destruct (HB (cv2_imread Sample.corrupt_background "captcha.jpg"
                  (log Info "start recognising the captcha"
                     (check_captcha Sample.corrupt_background
                        (download_captcha_img Sample.corrupt_background 0
                           Sample.start).2).2).2).2
               ltac:(by vm_compute) ltac:(by vm_compute)) as [Hb Hd].
  split_and!.
  - by rewrite Hck.
  - by rewrite Ha.
  - by rewrite Hb.
  - exact Hd.
Defined.

Lemma scratch_only_latest_attempt_witness :
  0 < retry_cap ∧ fresh_reads 0 (trace Sample.start) = true ∧
  files_fresh (process_captcha Sample.placeholder 0 Sample.start).2 ∧
  fresh_reads 0 (trace (process_captcha Sample.placeholder 0 Sample.start).2) = true ∧
  epoch Sample.start < epoch (process_captcha Sample.placeholder 0 Sample.start).2.
Proof.
  assert (H0 : 0 < retry_cap) by (unfold retry_cap; lia).
  assert (H1 : fresh_reads 0 (trace Sample.start) = true) by done.
  split_and!; [done..| | |];
    apply (scratch_only_latest_attempt Sample.placeholder 0 Sample.start H0 H1).
Defined.

(** *** Further checks on the concrete world *)

(** Scenario A of the specification: three distinct positions with
    similarities 0.9, 0.85 and 0.7 are accepted. *)
Example check_answer_scenario_a :
  (check_answer Sample.scenario_a Sample.start).1 = Ok true.
Proof. by vm_compute. Qed.

(** A clean puzzle is solved in the first attempt. *)
Example process_captcha_clean :
  (process_captcha Sample.clean 0 Sample.start).1 = Ok true ∧
  acquisitions (trace (process_captcha Sample.clean 0 Sample.start).2) = 1.
Proof. by vm_compute. Qed.

(** A puzzle that is low-quality every time exhausts the budget after
    exactly [retry_cap] acquisitions. *)
Example process_captcha_exhausted :
  (process_captcha Sample.placeholder 0 Sample.start).1 = Ok false ∧
  acquisitions (trace (process_captcha Sample.placeholder 0 Sample.start).2) = retry_cap.
Proof. by vm_compute. Qed.

(** Off the centre the offset is truncated towards zero. *)
Example axis_offset_truncates :
  axis_offset 1 3 (binary64.of_Z 10) Sample.start = (Ok (-1)%Z, Sample.start).
Proof. by vm_compute. Qed.

(** The rounding shows: [58 / 100 * 100.0] is the float just below 58, so
    that the offset is 7 where the exact value, 8, is an integer. *)
Example axis_offset_rounds :
  axis_value 58 100 (binary64.of_Z 100) Sample.start
    = (Ok (S754_finite false 9007199254740984 (-50)), Sample.start) ∧
  axis_offset 58 100 (binary64.of_Z 100) Sample.start = (Ok 7%Z, Sample.start).
Proof. by vm_compute. Qed.

(** For an image 680 pixels wide that is shown 340 px wide, 16 of the 681
    positions get another offset than exact arithmetic would give. *)
Example axis_offset_rounds_often :
  List.filter
    (λ position,
       match (axis_offset position 680 (binary64.of_Z 340) Sample.start).1 with
       | Ok offset => negb (offset =? (2 * position * 340 - 340 * 680) `quot` (2 * 680))%Z
       | Raise _ => true
       end)
    (Z.of_nat <$> seq 0 681)
  = [176; 186; 208; 218; 240; 250; 350; 370; 392; 412; 414; 434; 456; 476; 478; 498]%Z.
Proof. by vm_compute. Qed.

(** The quotient of two ints is rounded once, also when neither has a
    float of its own; it may be too large for a float, and a position of 0
    has the sign of the divisor. *)
Example py_truediv64_cases :
  (py_truediv64 (2 ^ 64 + 1) 3 Sample.start).1
    = Ok (S754_finite false 6004799503160661 10) ∧
  (py_truediv64 (10 ^ 400) 3 Sample.start).1 = Raise (OtherException "OverflowError") ∧
  (py_truediv64 0 (-5) Sample.start).1 = Ok (S754_zero true) ∧
  (py_truediv64 1 0 Sample.start).1 = Raise (OtherException "ZeroDivisionError").
Proof. by vm_compute. Qed.

(** The update of lines 240-248 on the scores of the clean world, as a
    bare sequence. *)
Example record_all_sample :
  ∃ result,
    record_all Sample.clean Sample.scored ∅ Sample.start = (Ok result, Sample.start) ∧
    ∀ j, j < 3 → keeps_first_max Sample.scored result j.
Proof.
  apply record_all_keeps_first_max.
  unfold Sample.scored. repeat (constructor; [simpl; lia|]). constructor.
Qed.

(** ** Further properties of the answer check *)

(** When no value occurs under two keys, the reversed dictionary has as
    many keys as the dictionary itself. *)
Lemma flip_dict_size_injective (d : gmap string pyval) :
  (∀ k1 k2 v, d !! k1 = Some v → d !! k2 = Some v → k1 = k2) →
  size (flip_dict d) = size d.
Proof.
  unfold flip_dict.
  apply (map_fold_weak_ind (λ (r : gmap pyval string) (m : gmap string pyval),
           (∀ v, is_Some (r !! v) → ∃ key, m !! key = Some v) ∧
           ((∀ k1 k2 v, m !! k1 = Some v → m !! k2 = Some v → k1 = k2) →
            size r = size m))).
  - split; [|done]. intros v [x Hx]. by rewrite lookup_empty in Hx.
  - intros i x m r Hi [Hdom Hsize]. split.
    + intros v Hv. rewrite lookup_insert in Hv. case_decide as Hxv.
      * subst. exists i. by rewrite lookup_insert_eq.
      * destruct (Hdom v Hv) as [key Hk]. exists key.
        rewrite lookup_insert_ne; [done|]. intros ->. congruence.
    + intros Hinj. rewrite (map_size_insert_None i x m Hi).
      assert (Hfresh : r !! x = None).
      { destruct (r !! x) as [k|] eqn:Hr; [|done].
        destruct (Hdom x) as [key Hk]; [by rewrite Hr|].
        assert (key = i); [|congruence].
        apply (Hinj key i x).
        - rewrite lookup_insert_ne; [done|]. intros ->. congruence.
        - by rewrite lookup_insert_eq. }
      rewrite map_size_insert_None by done. f_equal. apply Hsize.
      intros k1 k2 v H1 H2. apply (Hinj k1 k2 v).
      * rewrite lookup_insert_ne; [done|]. intros ->. congruence.
      * rewrite lookup_insert_ne; [done|]. intros ->. congruence.
Qed.

(** X1. [check_answer] accepts exactly the dictionaries with at least 6 keys
    whose values are pairwise different. *)
Theorem check_answer_accepts_iff (d : gmap string pyval) (st : state) :
  (check_answer d st).1 = Ok true ↔
  6 ≤ size d ∧ ∀ k1 k2 v, d !! k1 = Some v → d !! k2 = Some v → k1 = k2.
Proof.
  split.
  - intros Hok. split.
    + destruct (decide (size d < 6)) as [Hlt|]; [|lia].
      by rewrite (check_answer_incomplete d st Hlt) in Hok.
    + intros k1 k2 v H1 H2. destruct (decide (k1 = k2)) as [|Hne]; [done|].
      by rewrite (check_answer_duplicate d st k1 k2 v Hne H1 H2) in Hok.
  - intros [Hsize Hinj]. unfold check_answer.
    rewrite bool_decide_eq_false_2 by lia. rewrite bool_decide_eq_false_2 by lia.
    simpl. f_equal. apply bool_decide_eq_true. symmetry.
    by apply flip_dict_size_injective.
Qed.

(** ** Further properties of the similarity *)

Lemma good_of_length (m_n : list DMatch) : length (good_of m_n) ≤ 1.
Proof.
  unfold good_of. destruct m_n as [|m [|n [|]]]; simpl; try lia.
  destruct (decide _); simpl; lia.
Qed.

(** The ratio filter accepts at most one correspondence per key point. *)
Lemma good_matches_length (matches : list (list DMatch)) :
  length (good_matches matches) ≤ length matches.
Proof.
  unfold good_matches. induction matches as [|m_n matches IH]; [done|].
  cbn [flat_map]. rewrite List.length_app. pose proof (good_of_length m_n). simpl. lia.
Qed.

Lemma Qc_ratio (a b : Z) :
  (0 < b)%Z →
  ((Q2Qc (inject_Z a) / Q2Qc (inject_Z b))%Qc : Q) == a # Z.to_pos b.
Proof.
  intros Hb. unfold Qcdiv, Qcmult, Qcinv. simpl.
  rewrite !Qred_correct. unfold Qeq, Qmult, Qinv, inject_Z. simpl.
  destruct b as [|p|p]; [lia| |lia]. simpl. lia.
Qed.

Lemma ratio_bounds (a b : nat) :
  0 < a → a ≤ b →
  (Q2Qc 0 < Q2Qc (inject_Z (Z.of_nat a)) / Q2Qc (inject_Z (Z.of_nat b)))%Qc ∧
  (Q2Qc (inject_Z (Z.of_nat a)) / Q2Qc (inject_Z (Z.of_nat b)) ≤ Q2Qc 1)%Qc.
Proof.
  intros Ha Hab. unfold Qclt, Qcle.
  rewrite (Qc_ratio (Z.of_nat a) (Z.of_nat b)) by lia.
  simpl. unfold Qlt, Qle. simpl. rewrite Z2Pos.id by lia. lia.
Qed.

(** X2. The similarity of two crops is the share of accepted correspondences:
    it lies between 0 and 1, the votes are the accepted correspondences,
    and the score is 0 exactly when there is no vote. *)
Theorem compute_similarity_bounds (w : world) (st : state) (p1 p2 : string)
    (img1 img2 : image) :
  holds_crop w st p1 img1 → holds_crop w st p2 img2 →
  ∃ sim votes,
    (compute_similarity w p1 p2 st).1 = Ok (sim, votes) ∧
    (Q2Qc 0 ≤ sim)%Qc ∧ (sim ≤ Q2Qc 1)%Qc ∧
    (votes = 0 ↔ sim = Q2Qc 0) ∧
    ∀ d1 d2,
      sift_detectAndCompute w img1 = Some d1 →
      sift_detectAndCompute w img2 = Some d2 →
      votes = length (good_matches (bf_knnMatch w d1 d2)) ∧
      votes ≤ length (bf_knnMatch w d1 d2).
Proof.
  intros H1 H2.
  destruct (cv2_imread_gray_crop w st p1 img1 H1) as (st1 & Hr1 & Hs1).
  assert (H2' : holds_crop w st1 p2 img2).
  { destruct H2 as (data & s & Hf & Hd). exists data, s. by rewrite Hs1. }
  destruct (cv2_imread_gray_crop w st1 p2 img2 H2') as (st2 & Hr2 & Hs2).
  unfold compute_similarity, bind. rewrite Hr1, Hr2. simpl. unfold ret.
  assert (Hzero : (Q2Qc 0 ≤ Q2Qc 0)%Qc ∧ (Q2Qc 0 ≤ Q2Qc 1)%Qc) by (by split).
  destruct (sift_detectAndCompute w img1) as [d1|] eqn:Hd1;
    [|exists (Q2Qc 0), 0; split_and!; [done|apply Hzero|apply Hzero|done|done]].
  destruct (sift_detectAndCompute w img2) as [d2|] eqn:Hd2;
    [|exists (Q2Qc 0), 0; split_and!; [done|apply Hzero|apply Hzero|done|done]].
  pose proof (good_matches_length (bf_knnMatch w d1 d2)) as Hle.
  case_bool_decide as Hgood.
  - exists (Q2Qc 0), 0. split_and!; [done|apply Hzero|apply Hzero|done|].
    intros d1' d2' [= <-] [= <-]. split; [done|lia].
  - unfold py_truediv. destruct (decide _) as [Hz|Hnz]; [lia|].
    destruct (ratio_bounds (length (good_matches (bf_knnMatch w d1 d2)))
                (length (bf_knnMatch w d1 d2))) as [Hpos Hone]; [lia|lia|].
    eexists _, _. split_and!; [done| |exact Hone| |].
    + by apply Qclt_le_weak.
    + split; [done|]. intros Heq. rewrite Heq in Hpos. by apply Qclt_not_eq in Hpos.
    + intros d1' d2' [= <-] [= <-]. split; [done|lia].
Qed.

(** ** Further properties of the split of the sprite strip *)

Lemma take_three (t : nat) (row : list pixel) :
  take t (drop (t * 0) row) ++ take t (drop (t * 1) row) ++ take t (drop (t * 2) row)
    = take (3 * t) row.
Proof.
  rewrite Nat.mul_0_r, Nat.mul_1_r. rewrite drop_0.
  replace (t * 2) with (t + t) by lia.
  rewrite app_assoc, take_take_drop, take_take_drop. f_equal. lia.
Qed.

(** X3. The three thirds lie side by side from the left edge of the strip:
    row by row they make up its first [3 * (w // 3)] columns; the columns
    left out at the right edge are fewer than 3, and every third has all
    the rows of the strip. *)
Theorem thirds_tile (raw : image) :
  shape1 raw - 3 * (shape1 raw / 3) < 3 ∧
  (∀ i, i < 3 → shape0 (third raw i) = shape0 raw) ∧
  ∀ k row,
    im_rows raw !! k = Some row →
    ∃ r0 r1 r2,
      im_rows (third raw 0) !! k = Some r0 ∧
      im_rows (third raw 1) !! k = Some r1 ∧
      im_rows (third raw 2) !! k = Some r2 ∧
      r0 ++ r1 ++ r2 = take (3 * (shape1 raw / 3)) row.
Proof.
  split_and!.
  - pose proof (Nat.div_mod_eq (shape1 raw) 3).
    pose proof (Nat.mod_upper_bound (shape1 raw) 3). lia.
  - intros i Hi. rewrite (third_geometry raw i Hi). unfold shape0. simpl.
    by rewrite length_map.
  - intros k row Hk. rewrite !third_geometry by lia. simpl.
    rewrite !list_lookup_fmap, Hk. simpl.
    eexists _, _, _. split_and!; [done..|]. apply take_three.
Qed.

(** ** The downloads *)

Section Download.

Context (w : world).

(** X4. A response with status 200 is stored: [download_image] creates the
    scratch directory if need be, writes the body under the given name,
    leaves every other entry alone and returns [True]; reading the file
    back gives the body. *)
Theorem download_image_stores (rc : nat) (url filename : string)
    (resp : response) (st : state) :
  requests_get w rc filename url = Ok resp →
  status_code resp = 200%Z →
  default ∅ (scratch st) !! filename ≠ Some EDir →
  ∃ st',
    download_image w rc url filename st = (Ok true, st') ∧
    scratch st' =
      Some (<[filename := EFile (content resp) (epoch st)]> (default ∅ (scratch st))) ∧
    trace st' = trace st ++ [EvHttpGet url; EvWrite filename] ∧
    (open_read filename st').1 = Ok (content resp).
Proof.
  intros Hget Hstatus Hdir.
  unfold download_image, bind at 1, makedirs, try_except.
  rewrite bind_emit, (bind_lift_ok _ _ _ resp Hget).
  rewrite decide_True by done.
  unfold open_write, bind, fs_write, emit. simpl.
  assert (Hw : ∃ st1,
    (match default ∅ (scratch st) !! filename with
     | Some EDir =>
         (Ok false, State (Some (default ∅ (scratch st))) (trace st ++ [EvHttpGet url]))
     | _ =>
         (Ok true,
          State (Some (<[filename:=EFile (content resp)
                           (epoch (State (Some (default ∅ (scratch st)))
                                     (trace st ++ [EvHttpGet url])))]>
                         (default ∅ (scratch st))))
            ((trace st ++ [EvHttpGet url]) ++ [EvWrite filename]))
     end) = (Ok true, st1) ∧
    st1 = State (Some (<[filename:=EFile (content resp) (epoch st)]>
                         (default ∅ (scratch st))))
            (trace st ++ [EvHttpGet url; EvWrite filename])).
  { assert (He : epoch (State (Some (default ∅ (scratch st)))
                    (trace st ++ [EvHttpGet url])) = epoch st).
    { unfold epoch. simpl. rewrite acquisitions_app. unfold acquisitions at 2.
      simpl. lia. }
    rewrite He, <- app_assoc. simpl.
    destruct (default ∅ (scratch st) !! filename) as [[]|]; [by eexists|done|by eexists]. }
  destruct Hw as (st1 & -> & ->). simpl.
  eexists. split_and!; [done..|].
  destruct (open_read_file filename (content resp) (epoch st)
              (State (Some (<[filename:=EFile (content resp) (epoch st)]>
                              (default ∅ (scratch st))))
                 (trace st ++ [EvHttpGet url; EvWrite filename])))
    as (st2 & Hread & _); [apply lookup_insert_eq|].
  by rewrite Hread.
Qed.

Lemma download_image_bad_status (rc : nat) (url filename : string)
    (resp : response) (st : state) :
  requests_get w rc filename url = Ok resp → status_code resp ≠ 200%Z →
  ∃ msg,
    download_image w rc url filename st =
      (Ok false,
       State (Some (default ∅ (scratch st)))
             (trace st ++ [EvHttpGet url; EvLog Error msg])).
Proof.
  intros Hget Hstatus.
  unfold download_image, bind at 1, makedirs, try_except.
  rewrite bind_emit, (bind_lift_ok _ _ _ resp Hget). rewrite decide_False by done.
  eexists. unfold log, bind, emit, ret. simpl. by rewrite <- app_assoc.
Qed.

Lemma download_image_network_error (rc : nat) (url filename : string) (st : state) :
  requests_get w rc filename url = Raise RequestException →
  ∃ msg,
    download_image w rc url filename st =
      (Ok false,
       State (Some (default ∅ (scratch st)))
             (trace st ++ [EvHttpGet url; EvLog Error msg])).
Proof.
  intros Hget.
  unfold download_image, bind at 1, makedirs, try_except.
  rewrite bind_emit. unfold bind at 1, lift. rewrite Hget. simpl.
  eexists. unfold log, bind, emit, ret. simpl. by rewrite <- app_assoc.
Qed.

(** X5. A response with another status and a network error both make
    [download_image] return [False]: nothing is raised, no file is written
    or changed, and the failure is logged. *)
Theorem download_image_fails (rc : nat) (url filename : string) (st : state) :
  (∃ resp, requests_get w rc filename url = Ok resp ∧ status_code resp ≠ 200%Z) ∨
  requests_get w rc filename url = Raise RequestException →
  ∃ msg,
    download_image w rc url filename st =
      (Ok false,
       State (Some (default ∅ (scratch st)))
             (trace st ++ [EvHttpGet url; EvLog Error msg])).
Proof.
  intros [(resp & Hget & Hstatus)|Hget].
  - by apply (download_image_bad_status rc url filename resp).
  - by apply download_image_network_error.
Qed.

End Download.

(** ** Further properties of the retry controller *)

Lemma bind_Ok_inv {A B} (m : M A) (k : A → M B) (st st' : state) (b : B) :
  bind m k st = (Ok b, st') →
  ∃ a st1, m st = (Ok a, st1) ∧ k a st1 = (Ok b, st').
Proof.
  unfold bind. destruct (m st) as [[a|e] st1]; [|done]. eauto.
Qed.

Lemma try_except_Ok_inv {A} (m : M A) (catches : exn → bool) (h : exn → M A)
    (st st' : state) (a : A) :
  try_except m catches h st = (Ok a, st') →
  m st = (Ok a, st') ∨
  ∃ e st1, m st = (Raise e, st1) ∧ catches e = true ∧ h e st1 = (Ok a, st').
Proof.
  unfold try_except. destruct (m st) as [[a'|e] st1]; [by left|].
  destruct (catches e) eqn:Hc; [|done]. right. eauto.
Qed.

Section Control.

Context (w : world).

(** X6. Nothing of the retryable classes ever leaves [process_captcha]: what
    it raises is outside [TimeoutException], [ValueError] and
    [CaptchaRetryableError]. *)
Theorem process_captcha_raises_only_unexpected (rc : nat) (st : state) (e : exn) :
  (process_captcha w rc st).1 = Raise e → retryable e = false.
Proof. unfold process_captcha. apply process_captcha_loop_bound. Qed.

(** [solve_captcha] answers [True] only at line 271: the confirm control
    was clicked (line 266), five seconds were waited and the success
    indicator was seen; these are the last entries of the trace. *)
Lemma solve_captcha_true (rc : nat) (st st' : state) :
  solve_captcha w rc st = (Ok true, st') →
  confirm_click w rc = Ok tt ∧
  result_success w rc = Ok true ∧
  ∃ t, trace st' = t ++ [EvLog Info "submitting the captcha"; EvSubmit; EvSleep 5;
                         EvLog Info "captcha passed"].
Proof.
  unfold solve_captcha. intros H.
  apply bind_Ok_inv in H as (_ & s1 & _ & H).
  apply bind_Ok_inv in H as (captcha & s2 & _ & H).
  destruct captcha as [captcha|];
    [|by apply bind_Ok_inv in H as (_ & ? & _ & H)].
  apply bind_Ok_inv in H as (captcha_b & s3 & _ & H).
  apply bind_Ok_inv in H as (_ & s4 & _ & H).
  apply bind_Ok_inv in H as (bboxes & s5 & _ & H).
  apply bind_Ok_inv in H as (result & s6 & _ & H).
  apply bind_Ok_inv in H as (ok & s7 & _ & H).
  destruct ok; [|by apply bind_Ok_inv in H as (_ & ? & _ & H)].
  apply bind_Ok_inv in H as (_ & s8 & _ & H).
  apply bind_Ok_inv in H as (_ & s9 & _ & H).
  apply bind_Ok_inv in H as (u10 & s10 & Hlog & H).
  apply bind_Ok_inv in H as (u11 & s11 & Hsubmit & H).
  apply bind_Ok_inv in H as (u12 & s12 & Hclick & H). destruct u12.
  apply bind_Ok_inv in H as (u13 & s13 & Hsleep & H).
  apply bind_Ok_inv in H as (success & s14 & Hsuccess & H).
  destruct success; [|by apply bind_Ok_inv in H as (_ & ? & _ & H)].
  unfold lift in Hsuccess, Hclick.
  injection Hsuccess as Hsuccess E14. injection Hclick as Hclick E12.
  unfold log, sleep, emit in Hlog, Hsubmit, Hsleep.
  injection Hlog as _ E10. injection Hsubmit as _ E11. injection Hsleep as _ E13.
  split_and!; [done..|].
  unfold log, bind, emit, ret in H. injection H as <-.
  exists (trace s9). subst s14 s13 s12 s11 s10. simpl. by rewrite <- !app_assoc.
Qed.

Lemma attempt_true (rc : nat) (st st' : state) :
  attempt w rc st = (Ok true, st') →
  confirm_click w rc = Ok tt ∧
  result_success w rc = Ok true ∧
  ∃ t, trace st' = t ++ [EvLog Info "submitting the captcha"; EvSubmit; EvSleep 5;
                         EvLog Info "captcha passed"].
Proof.
  unfold attempt. intros H.
  apply bind_Ok_inv in H as (_ & s1 & _ & H).
  apply bind_Ok_inv in H as (ok & s2 & _ & H).
  destruct ok; [by apply (solve_captcha_true rc s2)|].
  by apply bind_Ok_inv in H as (_ & ? & _ & H).
Qed.

Lemma process_captcha_loop_true (remaining rc : nat) (st st' : state) :
  process_captcha_loop w remaining rc st = (Ok true, st') →
  ∃ k t, rc ≤ k < rc + remaining ∧
         confirm_click w k = Ok tt ∧
         result_success w k = Ok true ∧
         trace st' = t ++ [EvLog Info "submitting the captcha"; EvSubmit; EvSleep 5;
                           EvLog Info "captcha passed"].
Proof.
  revert rc st. induction remaining as [|r IH]; intros rc st H.
  - cbn [process_captcha_loop] in H. by apply bind_Ok_inv in H as (_ & ? & _ & H).
  - cbn [process_captcha_loop] in H.
    assert (Hagain : ∀ s, process_captcha_loop w r (S rc) s = (Ok true, st') →
              ∃ k t, rc ≤ k < rc + S r ∧ confirm_click w k = Ok tt ∧
                     result_success w k = Ok true ∧
                     trace st' = t ++ [EvLog Info "submitting the captcha"; EvSubmit;
                                       EvSleep 5; EvLog Info "captcha passed"]).
    { intros s Hs. destruct (IH _ _ Hs) as (k & t & Hk & Hrest).
      exists k, t. split; [lia|done]. }
    apply try_except_Ok_inv in H as [H|(e & s1 & _ & _ & H)].
    + unfold try_block in H.
      apply bind_Ok_inv in H as (solved & s1 & Ha & H).
      destruct solved.
      * injection H as <-.
        destruct (attempt_true rc st s1 Ha) as (Hclick & Hsucc & t & Ht).
        exists rc, t. split; [lia|done].
      * apply bind_Ok_inv in H as (_ & s2 & _ & H). by apply (Hagain s2).
    + unfold handler in H.
      apply bind_Ok_inv in H as (_ & s2 & _ & H).
      apply try_except_Ok_inv in H as [H|(e' & s3 & _ & _ & H)].
      * apply bind_Ok_inv in H as (_ & s3 & _ & H). by apply (Hagain s3).
      * by apply bind_Ok_inv in H as (_ & ? & _ & H).
Qed.

(** X7. [process_captcha] answers [True] only if, in one of the attempts left,
    the answer was submitted and the page then showed the success
    indicator: the click on the confirm control went through, and the run
    ends with the announcement of the submission, the submission itself
    (line 266), the wait of five seconds and the log of the success. *)
Theorem process_captcha_true_verified (rc : nat) (st : state) :
  (process_captcha w rc st).1 = Ok true →
  ∃ k t, rc ≤ k < retry_cap ∧
         confirm_click w k = Ok tt ∧
         result_success w k = Ok true ∧
         trace (process_captcha w rc st).2
           = t ++ [EvLog Info "submitting the captcha"; EvSubmit; EvSleep 5;
                   EvLog Info "captcha passed"].
Proof.
  intros H. unfold process_captcha in *.
  destruct (process_captcha_loop w (retry_cap - rc) rc st) as [res st'] eqn:Hrun.
  simpl in H. subst res.
  destruct (process_captcha_loop_true _ _ _ _ Hrun) as (k & t & Hk & Hrest).
  exists k, t. split; [lia|done].
Qed.

(** X8. When the background image cannot be downloaded (bad status or network
    error), [download_captcha_img] raises [CaptchaRetryableError] right
    away: the sprite strip is not requested and nothing is left in the
    scratch directory but its sub-directories. *)
Theorem download_captcha_img_background_fails (rc : nat) (style url : string)
    (st : state) :
  slideBg_style w rc 0 = Ok (Some style) → style ≠ EmptyString →
  re_url w style = Some url →
  ((∃ resp, requests_get w rc "captcha.jpg" url = Ok resp ∧ status_code resp ≠ 200%Z) ∨
   requests_get w rc "captcha.jpg" url = Raise RequestException) →
  ∃ msg,
    download_captcha_img w rc st =
      (Raise (CaptchaRetryableError "captcha background download failed"),
       State (Some (default ∅ (filter (λ kv, kv.2 = EDir) <$> scratch st)))
             (trace st ++ [EvAcquire; EvLog Info "downloading captcha image (1)";
                           EvHttpGet url; EvLog Error msg])).
Proof.
  intros Hstyle Hne Hurl Hget.
  assert (∃ msg,
            download_image w rc url "captcha.jpg"
              (State (filter (λ kv, kv.2 = EDir) <$> scratch st)
                 (trace st ++ [EvAcquire; EvLog Info "downloading captcha image (1)"]))
            = (Ok false,
               State (Some (default ∅ (filter (λ kv, kv.2 = EDir) <$> scratch st)))
                 ((trace st ++ [EvAcquire; EvLog Info "downloading captcha image (1)"])
                    ++ [EvHttpGet url; EvLog Error msg]))) as (msg & Hdl).
  { destruct Hget as [(resp & Hget & Hstatus)|Hget].
    - by apply (download_image_bad_status w rc url "captcha.jpg" resp).
    - by apply download_image_network_error. }
  exists msg.
  unfold download_captcha_img. rewrite bind_emit.
  unfold bind at 1, clear_scratch. unfold fetch_images.
  rewrite (bind_lift_ok _ _ _ _ Hstyle).
  unfold get_url_from_style, parse_style. rewrite bool_decide_eq_false_2 by done.
  rewrite Hurl. unfold bind at 1, ret. unfold log at 1. rewrite bind_emit.
  simpl. rewrite <- app_assoc. simpl.
  rewrite (bind_ok _ _ _ _ _ Hdl). simpl. unfold raise.
  by rewrite <- app_assoc.
Qed.

(** X9. When an attempt fails with a retryable error and the refresh control
    cannot be pressed (whatever [Exception] that raises),
    [process_captcha] gives up: it returns [False] and starts no further
    acquisition. *)
Theorem refresh_failure_gives_up (r rc : nat) (st st1 : state) (e e' : exn) :
  attempt w rc st = (Raise e, st1) → retryable e = true →
  (find_reload w rc ReloadInHandler = Raise e' ∨
   (find_reload w rc ReloadInHandler = Ok tt ∧
    click_reload w rc ReloadInHandler = Raise e')) →
  is_Exception e' = true →
  (process_captcha_loop w (S r) rc st).1 = Ok false ∧
  acquisitions (trace (process_captcha_loop w (S r) rc st).2)
    = acquisitions (trace st1) ∧
  list.last (trace (process_captcha_loop w (S r) rc st).2)
    = Some (EvLog Error "cannot refresh the captcha, giving up").
Proof.
  intros Ha He Hrefresh He'.
  assert (∃ evs, process_captcha_loop w (S r) rc st
                   = (Ok false, State (scratch st1)
                        (trace st1 ++ evs ++
                           [EvLog Error "cannot refresh the captcha, giving up"])) ∧
                 Forall (λ ev, ev ≠ EvAcquire) evs) as (evs & -> & Hevs).
  { cbn [process_captcha_loop].
    unfold try_except at 1, try_block. rewrite (bind_raise _ _ _ _ _ Ha), He.
    unfold handler, try_except, refresh, bind, log, sleep, emit, lift.
    destruct Hrefresh as [Hfind|[Hfind Hclick]].
    - rewrite Hfind, He'. simpl.
      exists [EvLog Error "captcha processing exception"; EvFindReload].
      rewrite <- !app_assoc. split; [done|]. by repeat constructor.
    - rewrite Hfind, Hclick, He'. simpl.
      exists [EvLog Error "captcha processing exception"; EvFindReload;
              EvSleep 2; EvClickReload].
      rewrite <- !app_assoc. split; [done|]. by repeat constructor. }
  simpl. split_and!; [done| |].
  - rewrite !acquisitions_app, (acquisitions_quiet evs) by done.
    unfold acquisitions at 2. simpl. lia.
  - rewrite !app_assoc. apply last_snoc.
Qed.

(** X10. After an attempt that did not solve the puzzle, a failure to press the
    refresh control that is not of the retryable classes (the control is
    not found, say) leaves [process_captcha] as that exception. *)
Theorem refresh_failure_after_attempt_raises (r rc : nat) (st st1 : state) (e : exn) :
  attempt w rc st = (Ok false, st1) →
  find_reload w rc ReloadAfterAttempt = Raise e → retryable e = false →
  process_captcha_loop w (S r) rc st =
    (Raise e, State (scratch st1) (trace st1 ++ [EvFindReload])).
Proof.
  intros Ha Hfind He. cbn [process_captcha_loop].
  unfold try_except, try_block. rewrite (bind_ok _ _ _ _ _ Ha).
  unfold refresh, bind, emit, lift. rewrite Hfind. simpl.
  by rewrite He.
Qed.

(** X11. When the style of the background element is missing, empty or without
    a url, [download_captcha_img] raises [ValueError] before any request
    is made; the scratch directory has been emptied, and the error is one
    that [process_captcha] retries. *)
Theorem download_captcha_img_style_unusable (rc : nat) (st : state) :
  (slideBg_style w rc 0 = Ok None ∨
   slideBg_style w rc 0 = Ok (Some EmptyString) ∨
   ∃ style, slideBg_style w rc 0 = Ok (Some style) ∧ re_url w style = None) →
  ∃ msg,
    download_captcha_img w rc st =
      (Raise (ValueError msg),
       State (filter (λ kv, kv.2 = EDir) <$> scratch st) (trace st ++ [EvAcquire])) ∧
    retryable (ValueError msg) = true.
Proof.
  intros Hstyle. unfold download_captcha_img. rewrite bind_emit.
  unfold bind at 1, clear_scratch. unfold fetch_images.
  destruct Hstyle as [Hs|[Hs|(style & Hs & Hurl)]];
    rewrite (bind_lift_ok _ _ _ _ Hs);
    unfold get_url_from_style, parse_style, bind, raise; simpl.
  - by eexists.
  - by eexists.
  - case_bool_decide; [by eexists|]. rewrite Hurl. by eexists.
Qed.

End Control.

(** ** The answer that is clicked *)

(** Every pair scored for a sprite carries the centre of a detected box,
    and, as soon as one box is detected, every sprite is scored. *)
Lemma scored_shape (bboxes : list bbox) (scored : list (nat * Qc * string)) :
  map (λ t : nat * Qc * string, (t.1.1, t.2)) scored =
    flat_map (λ b, map (λ j, (j, center b)) (seq 0 3)) bboxes →
  (∀ k j s p, scored !! k = Some (j, s, p) → ∃ b, b ∈ bboxes ∧ p = center b) ∧
  (bboxes ≠ [] → ∀ j, j < 3 → ∃ k s p, scored !! k = Some (j, s, p)).
Proof.
  intros Hshape. split.
  - intros k j s p Hk.
    assert (Hin : (j, p) ∈ map (λ t : nat * Qc * string, (t.1.1, t.2)) scored).
    { apply list_elem_of_fmap. exists (j, s, p). split; [done|].
      by apply list_elem_of_lookup_2 in Hk. }
    rewrite Hshape in Hin. apply list_elem_of_In, in_flat_map in Hin.
    destruct Hin as (b & Hb & Hjp). exists b. split; [by apply list_elem_of_In|].
    apply in_map_iff in Hjp. destruct Hjp as (j' & [= _ Hp] & _). done.
  - intros Hne j Hj. destruct bboxes as [|b bboxes]; [done|].
    assert (Hin : (j, center b) ∈ map (λ t : nat * Qc * string, (t.1.1, t.2)) scored).
    { rewrite Hshape. cbn [flat_map]. apply elem_of_app. left.
      apply list_elem_of_fmap. exists j. split; [done|].
      apply list_elem_of_In, in_seq. lia. }
    apply list_elem_of_fmap in Hin. destruct Hin as ([[j' s] p] & [= -> Hp] & Hin). simpl in Hp.
    apply list_elem_of_lookup_1 in Hin. destruct Hin as [k Hk]. by exists k, s, p.
Qed.

Lemma match_boxes_position (w : world) (captcha : image) (bboxes : list bbox)
    (result : gmap string pyval) (st st' : state) (j : nat) :
  match_boxes w captcha 0 bboxes ∅ st = (Ok result, st') →
  bboxes ≠ [] → j < 3 →
  ∃ b, b ∈ bboxes ∧ result !! position_key j = Some (PyStr (center b)).
Proof.
  intros Hrun Hne Hj.
  destruct (match_boxes_keeps_first_max w captcha bboxes result st st' Hrun)
    as (scored & Hshape & Hbest).
  destruct (scored_shape bboxes scored Hshape) as [Hcentre Hall].
  destruct (Hbest j Hj) as [(Hnone & _)|(k & s & p & Hk & _ & Hpos & _)].
  - destruct (Hall Hne j Hj) as (k & s & p & Hk). by destruct (Hnone k s p).
  - destruct (Hcentre k j s p Hk) as (b & Hb & ->). by exists b.
Qed.

(** X12. An answer that [check_answer] accepts assigns to the three sprites the
    centres of three detected boxes, and these centres are pairwise
    different; so the detector found at least three boxes.  With fewer
    boxes the answer is always rejected. *)
Theorem accepted_answer_three_boxes (w : world) (captcha : image)
    (bboxes : list bbox) (result : gmap string pyval) (st st' st'' : state) :
  match_boxes w captcha 0 bboxes ∅ st = (Ok result, st') →
  (check_answer result st'').1 = Ok true →
  3 ≤ length bboxes ∧
  ∃ b0 b1 b2,
    b0 ∈ bboxes ∧ b1 ∈ bboxes ∧ b2 ∈ bboxes ∧
    result !! position_key 0 = Some (PyStr (center b0)) ∧
    result !! position_key 1 = Some (PyStr (center b1)) ∧
    result !! position_key 2 = Some (PyStr (center b2)) ∧
    center b0 ≠ center b1 ∧ center b0 ≠ center b2 ∧ center b1 ≠ center b2.
Proof.
  intros Hrun Hok.
  assert (Hne : bboxes ≠ []).
  { intros ->. injection Hrun as <- <-.
    by rewrite (check_answer_incomplete ∅ st'') in Hok
      by (rewrite map_size_empty; lia). }
  destruct (match_boxes_position w captcha bboxes result st st' 0 Hrun Hne)
    as (b0 & Hb0 & H0); [lia|].
  destruct (match_boxes_position w captcha bboxes result st st' 1 Hrun Hne)
    as (b1 & Hb1 & H1); [lia|].
  destruct (match_boxes_position w captcha bboxes result st st' 2 Hrun Hne)
    as (b2 & Hb2 & H2); [lia|].
  assert (Hdist : ∀ i j b b', i < 3 → j < 3 → i ≠ j →
            result !! position_key i = Some (PyStr (center b)) →
            result !! position_key j = Some (PyStr (center b')) →
            center b ≠ center b').
  { intros i j b b' Hi Hj Hij Hpi Hpj Heq. rewrite <- Heq in Hpj.
    destruct (sprite_keys_distinct i j Hi Hj) as (Hpos & _).
    rewrite (check_answer_duplicate result st'' _ _ _ (Hpos Hij) Hpi Hpj) in Hok.
    done. }
  pose proof (Hdist 0 1 b0 b1 ltac:(lia) ltac:(lia) ltac:(lia) H0 H1) as H01.
  pose proof (Hdist 0 2 b0 b2 ltac:(lia) ltac:(lia) ltac:(lia) H0 H2) as H02.
  pose proof (Hdist 1 2 b1 b2 ltac:(lia) ltac:(lia) ltac:(lia) H1 H2) as H12.
  split; [|by exists b0, b1, b2].
  assert (Hnd : NoDup [b0; b1; b2]).
  { apply NoDup_cons_2; [|apply NoDup_cons_2; [|apply NoDup_singleton]].
    - rewrite !elem_of_cons, elem_of_nil. intuition congruence.
    - rewrite elem_of_cons, elem_of_nil. intuition congruence. }
  apply (NoDup_submseteq _ bboxes) in Hnd.
  2:{ intros x. rewrite !elem_of_cons, elem_of_nil. intuition congruence. }
  by apply submseteq_length in Hnd.
Qed.

(** ** The click stays inside the element

    The arithmetic of the coordinate mapper is followed in binary64: each
    operation rounds, and the bounds below are carried through the
    roundings. *)

Section Rounding.

Local Open Scope Z_scope.

Local Notation "'fexp64'" := (fexp binary64.prec binary64.emax).
Local Notation "'shr_fexp64'" := (shr_fexp binary64.prec binary64.emax).
Local Notation "'round64'" := (binary_round_aux binary64.prec binary64.emax).

(** *** Shifting a mantissa to the right *)

Lemma iter_pos_iter {A} (f : A → A) (n : positive) (x : A) :
  SpecFloat.iter_pos f n x = Pos.iter f x n.
Proof.
  revert x. induction n as [n IH|n IH|]; intros x; cbn [SpecFloat.iter_pos Pos.iter].
  - by rewrite !IH, <- !Pos.iter_swap.
  - by rewrite !IH.
  - done.
Qed.

Lemma shr_1_spec (mrs : shr_record) :
  0 ≤ shr_m mrs →
  shr_m (shr_1 mrs) = shr_m mrs / 2 ∧
  (lossless (shr_1 mrs) ↔ lossless mrs ∧ shr_m mrs mod 2 = 0).
Proof.
  destruct mrs as [m r s]. cbn [shr_m]. intros Hm. unfold lossless.
  destruct m as [|[p|p|]|p]; cbn [shr_1 shr_m shr_r shr_s]; [| | | |lia].
  - split; [done|]. destruct r, s; cbn; intuition congruence.
  - rewrite Pos2Z.inj_xI.
    rewrite <- (Z.div_unique (2 * Zpos p + 1) 2 (Zpos p) 1) by lia.
    rewrite <- (Z.mod_unique (2 * Zpos p + 1) 2 (Zpos p) 1) by lia.
    split; [done|]. destruct r, s; cbn; intuition congruence.
  - rewrite Pos2Z.inj_xO.
    rewrite <- (Z.div_unique (2 * Zpos p) 2 (Zpos p) 0) by lia.
    rewrite <- (Z.mod_unique (2 * Zpos p) 2 (Zpos p) 0) by lia.
    split; [done|]. destruct r, s; cbn; intuition congruence.
  - split; [done|]. change (1 mod 2) with 1.
    destruct r, s; cbn; intuition congruence.
Qed.

Lemma shr_iter_spec (n : positive) (mrs : shr_record) :
  0 ≤ shr_m mrs →
  shr_m (Pos.iter shr_1 mrs n) = shr_m mrs / 2 ^ Zpos n ∧
  (lossless (Pos.iter shr_1 mrs n) ↔ lossless mrs ∧ shr_m mrs mod 2 ^ Zpos n = 0).
Proof.
  intros Hm. induction n as [|n IH] using Pos.peano_ind.
  - cbn [Pos.iter]. change (2 ^ 1) with 2. by apply shr_1_spec.
  - rewrite Pos.iter_succ, Pos2Z.inj_succ, Z.pow_succ_r by lia.
    destruct IH as [IHm IHe].
    assert (Hpos : 0 < 2 ^ Zpos n) by (apply Z.pow_pos_nonneg; lia).
    assert (H0 : 0 ≤ shr_m (Pos.iter shr_1 mrs n)).
    { rewrite IHm. apply Z.div_pos; lia. }
    destruct (shr_1_spec _ H0) as [Hm1 He1]. split.
    + rewrite Hm1, IHm, Z.div_div, (Z.mul_comm 2) by lia. done.
    + rewrite He1, IHe, IHm.
      assert (shr_m mrs mod (2 * 2 ^ Zpos n) = 0 ↔
              shr_m mrs mod 2 ^ Zpos n = 0 ∧ (shr_m mrs / 2 ^ Zpos n) mod 2 = 0);
        [|tauto].
      rewrite (Z.mul_comm 2), Z.rem_mul_r by lia.
      pose proof (Z.mod_pos_bound (shr_m mrs) (2 ^ Zpos n) Hpos).
      pose proof (Z.mod_pos_bound (shr_m mrs / 2 ^ Zpos n) 2 ltac:(lia)).
      nia.
Qed.

Lemma exact_of_loc (m : Z) (l : location) :
  lossless (shr_record_of_loc m l) ↔ l = loc_Exact.
Proof. unfold lossless. destruct l as [|[]]; cbn; intuition congruence. Qed.

Lemma loc_of_exact (mrs : shr_record) :
  loc_of_shr_record mrs = loc_Exact ↔ lossless mrs.
Proof. unfold lossless. destruct mrs as [m [] []]; cbn; intuition congruence. Qed.

Lemma shr_m_of_loc (m : Z) (l : location) : shr_m (shr_record_of_loc m l) = m.
Proof. by destruct l as [|[]]. Qed.

(** The shift of [shr_fexp]: the mantissa is divided by the power of two
    that brings it to the exponent [fexp], and the result is exact when
    the mantissa was and nothing but zeros is shifted out. *)
Lemma shr_fexp_spec (m e : Z) (l : location) :
  0 ≤ m → e ≤ fexp64 (Zdigits2 m + e) →
  ∃ mrs,
    shr_fexp64 m e l = (mrs, fexp64 (Zdigits2 m + e)) ∧
    shr_m mrs = m / 2 ^ (fexp64 (Zdigits2 m + e) - e) ∧
    (lossless mrs ↔ l = loc_Exact ∧ m mod 2 ^ (fexp64 (Zdigits2 m + e) - e) = 0).
Proof.
  intros Hm He. unfold shr_fexp.
  destruct (fexp64 (Zdigits2 m + e) - e) as [|n|n] eqn:Hn; [| |lia].
  - exists (shr_record_of_loc m l). cbn [shr]. split_and!.
    + f_equal. lia.
    + by rewrite shr_m_of_loc, Z.div_1_r.
    + rewrite exact_of_loc, Z.mod_1_r. tauto.
  - exists (Pos.iter shr_1 (shr_record_of_loc m l) n). cbn [shr].
    rewrite iter_pos_iter.
    destruct (shr_iter_spec n (shr_record_of_loc m l)) as [Hq Hexact].
    { by rewrite shr_m_of_loc. }
    rewrite shr_m_of_loc in Hq, Hexact. rewrite exact_of_loc in Hexact.
    split_and!; [f_equal; lia|done|done].
Qed.

Lemma shr_fexp_zero (e : Z) (l : location) : shr_m (shr_fexp64 0 e l).1 = 0.
Proof.
  unfold shr_fexp, shr.
  destruct (fexp64 (Zdigits2 0 + e) - e) as [|n|n]; cbn [fst];
    [apply shr_m_of_loc| |apply shr_m_of_loc].
  rewrite iter_pos_iter.
  destruct (shr_iter_spec n (shr_record_of_loc 0 l)) as [-> _].
  - by rewrite shr_m_of_loc.
  - by rewrite shr_m_of_loc, Z.div_0_l by (apply Z.pow_nonzero; lia).
Qed.

Lemma round_nearest_even_bounds (q : Z) (l : location) :
  q ≤ round_nearest_even q l ≤ q + 1 ∧
  (l = loc_Exact → round_nearest_even q l = q).
Proof.
  destruct l as [|[]]; cbn [round_nearest_even];
    (split; [try destruct (Z.even q); lia|done]).
Qed.

(** *** The number of digits *)

Lemma Zdigits2_bounds (m : Z) :
  0 < m → 2 ^ (Zdigits2 m - 1) ≤ m < 2 ^ Zdigits2 m.
Proof.
  destruct m as [|p|p]; [lia| |lia]. intros _. apply digits2_pos_bounds.
Qed.

Lemma Zdigits2_pos (m : Z) : 0 < m → 0 < Zdigits2 m.
Proof. destruct m; [lia|done|lia]. Qed.

Lemma Zdigits2_unique (m j : Z) : 2 ^ (j - 1) ≤ m < 2 ^ j → 0 < m → Zdigits2 m = j.
Proof.
  intros [Hlo Hhi] Hm. pose proof (Zdigits2_bounds m Hm) as [Hlo' Hhi'].
  pose proof (Zdigits2_pos m Hm).
  assert (0 < j).
  { destruct (Z.lt_trichotomy j 0) as [Hj|[->|Hj]]; [|simpl in Hhi; lia|done].
    rewrite Z.pow_neg_r in Hhi by lia. lia. }
  destruct (Z.lt_trichotomy (Zdigits2 m) j) as [Hlt|[Heq|Hgt]]; [|done|].
  - assert (2 ^ Zdigits2 m ≤ 2 ^ (j - 1)) by (apply Z.pow_le_mono_r; lia). lia.
  - assert (2 ^ j ≤ 2 ^ (Zdigits2 m - 1)) by (apply Z.pow_le_mono_r; lia). lia.
Qed.

Lemma fexp64_mono (a b : Z) : a ≤ b → fexp64 a ≤ fexp64 b.
Proof. rewrite !fexp64_eq. lia. Qed.

Lemma fexp64_ge (a : Z) : -1074 ≤ fexp64 a.
Proof. rewrite fexp64_eq. lia. Qed.

(** *** Values, in units of [2 ^ -2200] *)

Lemma scaled_shift (m e n : Z) :
  -2200 ≤ e → 0 ≤ n → scaled m (e + n) = scaled (m * 2 ^ n) e.
Proof.
  intros He Hn. unfold scaled.
  replace (e + n + 2200) with (n + (e + 2200)) by lia.
  rewrite Z.pow_add_r by lia. lia.
Qed.

Lemma scaled_pos (e : Z) : -2200 ≤ e → 0 < 2 ^ (e + 2200).
Proof. intros He. apply Z.pow_pos_nonneg; lia. Qed.

Lemma scaled_le (a b e : Z) : -2200 ≤ e → scaled a e ≤ scaled b e ↔ a ≤ b.
Proof.
  intros He. unfold scaled. pose proof (scaled_pos e He). split; [|nia].
  intros H1. apply Z.mul_le_mono_pos_r in H1; lia.
Qed.

Lemma scaled_lt (a b e : Z) : -2200 ≤ e → scaled a e < scaled b e ↔ a < b.
Proof.
  intros He. unfold scaled. pose proof (scaled_pos e He). split; [|nia].
  intros H1. apply Z.mul_lt_mono_pos_r in H1; lia.
Qed.

(** A larger value has at least the magnitude. *)
Lemma magnitude_le (a ea b eb : Z) :
  0 < a → 0 < b → -2200 ≤ ea → -2200 ≤ eb →
  scaled a ea ≤ scaled b eb → Zdigits2 a + ea ≤ Zdigits2 b + eb.
Proof.
  intros Ha Hb Hea Heb Hle. unfold scaled in Hle.
  pose proof (Zdigits2_bounds a Ha) as [Hlo _].
  pose proof (Zdigits2_bounds b Hb) as [_ Hhi].
  pose proof (Zdigits2_pos a Ha). pose proof (Zdigits2_pos b Hb).
  pose proof (scaled_pos ea Hea). pose proof (scaled_pos eb Heb).
  assert (K1 : 2 ^ (Zdigits2 a - 1 + (ea + 2200)) ≤ a * 2 ^ (ea + 2200)).
  { rewrite (Z.pow_add_r 2 (Zdigits2 a - 1) (ea + 2200)) by lia. nia. }
  assert (K2 : b * 2 ^ (eb + 2200) < 2 ^ (Zdigits2 b + (eb + 2200))).
  { rewrite (Z.pow_add_r 2 (Zdigits2 b) (eb + 2200)) by lia. nia. }
  assert (K3 : 2 ^ (Zdigits2 a - 1 + (ea + 2200)) < 2 ^ (Zdigits2 b + (eb + 2200))) by lia.
  apply Z.pow_lt_mono_r_iff in K3; lia.
Qed.

Lemma Zdigits2_div (m n : Z) :
  0 < m → 0 ≤ n → 0 < m / 2 ^ n → Zdigits2 (m / 2 ^ n) = Zdigits2 m - n.
Proof.
  intros Hm Hn Hq. pose proof (Zdigits2_bounds m Hm) as [Hlo Hhi].
  pose proof (Zdigits2_pos m Hm) as Hd.
  assert (Hp : 0 < 2 ^ n) by (apply Z.pow_pos_nonneg; lia).
  assert (Hnd : n < Zdigits2 m).
  { destruct (Z.lt_ge_cases n (Zdigits2 m)) as [|Hge]; [done|].
    assert (2 ^ Zdigits2 m ≤ 2 ^ n) by (apply Z.pow_le_mono_r; lia).
    rewrite Z.div_small in Hq by lia. lia. }
  apply Zdigits2_unique; [|done]. split.
  - apply Z.div_le_lower_bound; [done|].
    rewrite <- Z.pow_add_r by lia.
    replace (n + (Zdigits2 m - n - 1)) with (Zdigits2 m - 1) by lia. done.
  - apply Z.div_lt_upper_bound; [done|].
    rewrite <- Z.pow_add_r by lia.
    replace (n + (Zdigits2 m - n)) with (Zdigits2 m) by lia. done.
Qed.

Lemma Zdigits2_next (q k : Z) :
  0 < q → q ≤ k ≤ q + 1 →
  Zdigits2 k = Zdigits2 q ∨ (Zdigits2 k = Zdigits2 q + 1 ∧ k = 2 ^ Zdigits2 q).
Proof.
  intros Hq Hk. pose proof (Zdigits2_bounds q Hq) as [Hlo Hhi].
  pose proof (Zdigits2_pos q Hq) as Hd.
  destruct (decide (k < 2 ^ Zdigits2 q)) as [Hlt|Hge].
  - left. apply Zdigits2_unique; lia.
  - right. assert (k = 2 ^ Zdigits2 q) as -> by lia. split; [|done].
    apply Zdigits2_unique; [|lia].
    replace (Zdigits2 q + 1 - 1) with (Zdigits2 q) by lia.
    rewrite Z.pow_add_r by lia. lia.
Qed.

(** After the rounding the mantissa may have one digit more; the second
    shift of [binary_round_aux] then brings it back without loss. *)
Lemma renormalise (q k E E2 : Z) :
  0 ≤ q → q ≤ k ≤ q + 1 → 0 < k →
  (q = 0 → E = -1074) → (0 < q → fexp64 (Zdigits2 q + E) = E) →
  E2 = fexp64 (Zdigits2 k + E) →
  E ≤ E2 ∧
  k / 2 ^ (E2 - E) * 2 ^ (E2 - E) = k ∧
  0 < k / 2 ^ (E2 - E) ∧
  fexp64 (Zdigits2 (k / 2 ^ (E2 - E)) + E2) = E2.
Proof.
  intros Hq Hk Hk0 Hzero Hcan HE2.
  assert (Hsame : E2 = E →
            E ≤ E2 ∧ k / 2 ^ (E2 - E) * 2 ^ (E2 - E) = k ∧
            0 < k / 2 ^ (E2 - E) ∧ fexp64 (Zdigits2 (k / 2 ^ (E2 - E)) + E2) = E2).
  { intros Heq. rewrite Heq, Z.sub_diag, Z.pow_0_r, Z.div_1_r.
    split_and!; [lia|lia|done|congruence]. }
  destruct (decide (q = 0)) as [->|Hq0].
  - assert (k = 1) as -> by lia. pose proof (Hzero eq_refl) as ->.
    apply Hsame. by rewrite HE2.
  - specialize (Hcan ltac:(lia)).
    pose proof (Zdigits2_pos q ltac:(lia)) as Hd.
    destruct (Zdigits2_next q k ltac:(lia) Hk) as [Hdk|[Hdk Hpow]].
    + apply Hsame. by rewrite HE2, Hdk.
    + rewrite Hdk in HE2.
      assert (Hcases : E2 = E ∨ E2 = E + 1).
      { rewrite fexp64_eq in HE2, Hcan. lia. }
      destruct Hcases as [Heq|Heq]; [by apply Hsame|].
      replace (E2 - E) with 1 by lia. change (2 ^ 1) with 2.
      assert (Hhalf : k / 2 = 2 ^ (Zdigits2 q - 1)).
      { rewrite Hpow. replace (Zdigits2 q) with (Z.succ (Zdigits2 q - 1)) at 1 by lia.
        rewrite Z.pow_succ_r, Z.mul_comm, Z.div_mul by lia. done. }
      assert (Hp : 0 < 2 ^ (Zdigits2 q - 1)) by (apply Z.pow_pos_nonneg; lia).
      rewrite Hhalf. split_and!; [lia| |done|].
      * rewrite Hpow. replace (Zdigits2 q) with (Z.succ (Zdigits2 q - 1)) at 2 by lia.
        rewrite Z.pow_succ_r by lia. lia.
      * rewrite (Zdigits2_unique (2 ^ (Zdigits2 q - 1)) (Zdigits2 q)); [|split|done].
        -- rewrite HE2 at 2. f_equal. lia.
        -- lia.
        -- apply Z.pow_lt_mono_r; lia.
Qed.

Lemma bounded_spec (U : positive) (F : Z) :
  bounded binary64.prec binary64.emax U F = true ↔
  fexp64 (Zdigits2 (Zpos U) + F) = F ∧ F ≤ 971.
Proof.
  unfold bounded, canonical_mantissa. cbn [Zdigits2].
  rewrite andb_true_iff, Z.eqb_eq, Z.leb_le. done.
Qed.

(** *** Rounding stays below the floats above the value *)

(** [binary_round_aux] rounds a value that is at most the float
    [U * 2 ^ F] to a float of the format that is at most this float, or
    to zero; it never overflows then. *)
Lemma round_le (sx : bool) (mx ex : Z) (lx : location) (U : positive) (F : Z) :
  0 ≤ mx → -2200 ≤ ex → ex ≤ fexp64 (Zdigits2 mx + ex) →
  bounded binary64.prec binary64.emax U F = true →
  scaled (mantissa_ceil mx lx) ex ≤ scaled (Zpos U) F →
  below sx (Zpos U) F (round64 sx mx ex lx).
Proof.
  intros Hmx Hex Hpre HU Hle. apply bounded_spec in HU as [HcanU HF].
  pose proof (fexp64_ge (Zdigits2 (Zpos U) + F)) as HFmin. rewrite HcanU in HFmin.
  destruct (shr_fexp_spec mx ex lx Hmx Hpre) as (mrs & Hshift & Hq & Hexact).
  rewrite binary_round_aux_shifted, Hshift. unfold round_shifted.
  set (E := fexp64 (Zdigits2 mx + ex)) in *.
  set (q := shr_m mrs) in *.
  set (k := round_nearest_even q (loc_of_shr_record mrs)).
  assert (Hn : 0 ≤ E - ex) by lia.
  assert (Hpn : 0 < 2 ^ (E - ex)) by (apply Z.pow_pos_nonneg; lia).
  assert (Hq0 : 0 ≤ q) by (rewrite Hq; apply Z.div_pos; lia).
  destruct (round_nearest_even_bounds q (loc_of_shr_record mrs)) as [Hk Hkexact].
  fold k in Hk, Hkexact.
  assert (Hceil : mx ≤ mantissa_ceil mx lx) by (destruct lx; cbn; lia).
  (* the exponent of the result is at most that of the bound *)
  assert (HEF : E ≤ F).
  { destruct (decide (mx = 0)) as [Hz|Hnz].
    - unfold E in *. rewrite Hz in *. cbn [Zdigits2] in *.
      rewrite fexp64_eq in *. lia.
    - rewrite <- HcanU. apply fexp64_mono.
      apply magnitude_le; [lia|lia|lia|lia|].
      etrans; [|exact Hle]. apply scaled_le; lia. }
  (* the bound, at the exponent of the result *)
  assert (HEmin : -1074 ≤ E) by apply fexp64_ge.
  set (U' := Zpos U * 2 ^ (F - E)).
  assert (HU' : scaled (Zpos U) F = scaled U' E).
  { unfold U'. rewrite <- scaled_shift by lia. f_equal. lia. }
  assert (Hceil' : mantissa_ceil mx lx ≤ U' * 2 ^ (E - ex)).
  { apply (scaled_le _ _ ex); [lia|].
    rewrite <- scaled_shift by lia. replace (ex + (E - ex)) with E by lia.
    by rewrite <- HU'. }
  assert (HkU : k ≤ U').
  { destruct (decide (k = q)) as [->|Hne].
    - rewrite Hq. apply Z.div_le_upper_bound; [done|]. lia.
    - assert (k = q + 1) as -> by lia.
      assert (Hstrict : mx < U' * 2 ^ (E - ex)).
      { destruct lx as [|c]; [|cbn in Hceil'; lia].
        cbn in Hceil'.
        destruct (decide (mx = U' * 2 ^ (E - ex))) as [Heq|]; [|lia].
        exfalso. apply Hne. apply Hkexact. apply loc_of_exact, Hexact.
        split; [done|]. rewrite Heq. by apply Z.mod_mul; lia. }
      rewrite Hq.
      enough (mx / 2 ^ (E - ex) < U') by lia.
      apply Z.div_lt_upper_bound; [done|]. lia. }
  destruct (decide (k = 0)) as [Hk0|Hk0].
  { rewrite Hk0. pose proof (shr_fexp_zero E loc_Exact) as Hz.
    destruct (shr_fexp64 0 E loc_Exact) as [mrs2 e2]. cbn [fst] in Hz.
    by rewrite Hz. }
  (* the mantissa of the result is canonical *)
  assert (Hzero : q = 0 → E = -1074).
  { intros Hqz. destruct (decide (mx = 0)) as [Hz|Hnz].
    - unfold E in *. rewrite Hz in *. cbn [Zdigits2] in *.
      rewrite fexp64_eq in *. lia.
    - rewrite Hq in Hqz. apply Z.div_small_iff in Hqz as [Hsmall|]; [|lia|lia].
      pose proof (Zdigits2_bounds mx ltac:(lia)) as [Hlo _].
      pose proof (Zdigits2_pos mx ltac:(lia)).
      assert (Hlt : 2 ^ (Zdigits2 mx - 1) < 2 ^ (E - ex)) by lia.
      apply Z.pow_lt_mono_r_iff in Hlt; [|lia|lia].
      unfold E in *. rewrite fexp64_eq in *. lia. }
  assert (Hcan : 0 < q → fexp64 (Zdigits2 q + E) = E).
  { intros Hqpos. assert (0 < mx).
    { destruct (decide (mx = 0)) as [Hz|]; [|lia].
      rewrite Hq, Hz, Z.div_0_l in Hqpos by lia. lia. }
    rewrite Hq, Zdigits2_div by (rewrite <- ?Hq; lia).
    replace (Zdigits2 mx - (E - ex) + E) with (Zdigits2 mx + ex) by lia. done. }
  destruct (renormalise q k E (fexp64 (Zdigits2 k + E)) Hq0 Hk ltac:(lia) Hzero Hcan
              eq_refl) as (HE2 & Hval & Hk2 & Hcan2).
  destruct (shr_fexp_spec k E loc_Exact ltac:(lia) HE2) as (mrs2 & Hshift2 & Hq2 & _).
  rewrite Hshift2, Hq2.
  set (E2 := fexp64 (Zdigits2 k + E)) in *.
  set (k2 := k / 2 ^ (E2 - E)) in *.
  assert (Hle2 : scaled k2 E2 ≤ scaled (Zpos U) F).
  { replace E2 with (E + (E2 - E)) at 1 by lia.
    rewrite scaled_shift, Hval, HU' by lia. apply scaled_le; lia. }
  assert (HE2F : E2 ≤ F).
  { rewrite <- Hcan2, <- HcanU. apply fexp64_mono.
    apply magnitude_le; [lia|lia|lia|lia|done]. }
  destruct k2 as [|p|p] eqn:Hp; [lia| |lia].
  change (binary64.emax - binary64.prec) with 971.
  destruct (Z.leb_spec E2 971) as [_|]; [|lia].
  cbn [below]. split_and!; [done| |done].
  apply bounded_spec. split; [exact Hcan2|lia].
Qed.

(** *** The quotient of two ints *)

Lemma new_location_ceil (nb q r : Z) :
  mantissa_ceil q (new_location nb r) = if decide (r = 0) then q else q + 1.
Proof.
  unfold new_location, new_location_even, new_location_odd.
  destruct (decide (r = 0)) as [->|Hr].
  - by destruct (Z.even nb).
  - apply Z.eqb_neq in Hr. destruct (Z.even nb); by rewrite Hr.
Qed.

Lemma Zdigits2_ge (a j : Z) : 0 ≤ j → 2 ^ j ≤ a → j + 1 ≤ Zdigits2 a.
Proof.
  intros Hj Ha. assert (0 < a) by (pose proof (Z.pow_pos_nonneg 2 j); lia).
  pose proof (Zdigits2_bounds a ltac:(done)) as [_ Hhi].
  pose proof (Zdigits2_pos a ltac:(done)).
  assert (Hlt : 2 ^ j < 2 ^ Zdigits2 a) by lia.
  apply Z.pow_lt_mono_r_iff in Hlt; lia.
Qed.

(** A position inside the image over the size of the image: at most 1. *)
Lemma quotient_below (x W : positive) :
  Zpos x ≤ Zpos W →
  below false 4503599627370496 (-52) (binary64.quotient (Zpos x) (Zpos W)).
Proof.
  intros HxW. unfold binary64.quotient. cbn [Z.ltb Z.compare].
  change (Z.to_pos (Z.abs (Zpos x))) with x. change (Z.to_pos (Z.abs (Zpos W))) with W.
  unfold SFdiv, SFdiv_core_binary. cbn [Zdigits2 xorb].
  set (d1 := Zpos (digits2_pos x)). set (d2 := Zpos (digits2_pos W)).
  rewrite !Z.add_0_r. change (0 - 0) with 0.
  set (e' := Z.min (fexp64 (d1 - d2)) 0).
  assert (He' : -1074 ≤ e' ≤ 0).
  { unfold e'. pose proof (fexp64_ge (d1 - d2)). lia. }
  assert (Hm' : match 0 - e' with
                | 0 => Zpos x
                | Zpos _ => Z.shiftl (Zpos x) (0 - e')
                | Zneg _ => 0
                end = Zpos x * 2 ^ (- e')).
  { destruct (0 - e') as [|s|s] eqn:Hs; [| |lia].
    - replace (- e') with 0 by lia. lia.
    - rewrite Z.shiftl_mul_pow2 by lia. f_equal. f_equal. lia. }
  rewrite Hm', div_eucl_div_mod.
  set (s := - e') in *.
  assert (Hs : 0 ≤ s) by (unfold s; lia).
  assert (Hps : 0 < 2 ^ s) by (apply Z.pow_pos_nonneg; lia).
  set (q := Zpos x * 2 ^ s / Zpos W).
  set (r := (Zpos x * 2 ^ s) mod Zpos W).
  assert (Hdiv : Zpos x * 2 ^ s = Zpos W * q + r) by (apply Z.div_mod; lia).
  assert (Hr : 0 ≤ r < Zpos W) by (apply Z.mod_pos_bound; lia).
  assert (Hq0 : 0 ≤ q) by (apply Z.div_pos; lia).
  pose proof (digits2_pos_bounds x) as [Hxlo Hxhi].
  pose proof (digits2_pos_bounds W) as [HWlo HWhi]. fold d1 in Hxlo, Hxhi. fold d2 in HWlo, HWhi.
  assert (Hd1 : 0 < d1) by done. assert (Hd2 : 0 < d2) by done.
  apply round_le; [done|lia| |done|].
  - (* the quotient has digits enough *)
    destruct (decide (q = 0)) as [Hqz|Hqnz].
    + rewrite Hqz. cbn [Zdigits2]. rewrite Z.add_0_l.
      (* the dividend is below the divisor only at the least exponent *)
      assert (Hlt : 2 ^ (d1 - 1 + s) < 2 ^ d2).
      { rewrite Z.pow_add_r by lia. nia. }
      apply Z.pow_lt_mono_r_iff in Hlt; [|lia|lia].
      unfold s, e' in *. rewrite !fexp64_eq in *. lia.
    + assert (Hdq : d1 + s - d2 ≤ Zdigits2 q).
      { pose proof (Zdigits2_bounds q ltac:(lia)) as [_ Hqhi].
        pose proof (Zdigits2_pos q ltac:(lia)).
        assert (Hlt : 2 ^ (d1 - 1 + s) < 2 ^ (Zdigits2 q + d2)).
        { rewrite !Z.pow_add_r by lia. nia. }
        apply Z.pow_lt_mono_r_iff in Hlt; lia. }
      etrans; [|apply fexp64_mono with (a := d1 - d2); unfold s in Hdq; lia].
      unfold e'. lia.
  - (* the quotient is at most 1 *)
    rewrite new_location_ceil.
    assert (Hbound : (if decide (r = 0) then q else q + 1) ≤ 2 ^ s).
    { destruct (decide (r = 0)); nia. }
    unfold scaled.
    assert (Hone : 4503599627370496 * 2 ^ (-52 + 2200) = 2 ^ s * 2 ^ (e' + 2200)).
    { rewrite <- (Z.pow_add_r 2 s (e' + 2200)) by lia.
      replace (s + (e' + 2200)) with 2200 by (unfold s; lia). by vm_compute. }
    rewrite Hone.
    apply Z.mul_le_mono_nonneg_r; [|done]. apply Z.pow_nonneg. lia.
Qed.

(** *** The product with a factor of at most 1 *)

Lemma scaled_mul (a ea b eb : Z) :
  -2200 ≤ ea → -2200 ≤ eb → -2200 ≤ ea + eb →
  scaled (a * b) (ea + eb) * 2 ^ 2200 = scaled a ea * scaled b eb.
Proof.
  intros Ha Hb Hab. unfold scaled.
  transitivity (a * b * (2 ^ (ea + eb + 2200) * 2 ^ 2200)); [lia|].
  rewrite <- Z.pow_add_r by lia.
  replace (ea + eb + 2200 + 2200) with ((ea + 2200) + (eb + 2200)) by lia.
  rewrite Z.pow_add_r by lia. lia.
Qed.

Lemma mul_below (r : binary64.float) (m : positive) (e : Z) :
  below false 4503599627370496 (-52) r →
  bounded binary64.prec binary64.emax m e = true →
  below false (Zpos m) e (binary64.mul r (S754_finite false m e)).
Proof.
  intros Hr HD. destruct r as [s|s| |s kr Er]; [|done|done|].
  - cbn in Hr. subst s. done.
  - destruct Hr as (-> & Hbr & Hle).
    unfold binary64.mul, SFmul. cbn [xorb].
    pose proof HD as HD'. apply bounded_spec in HD' as [HcanD HeD].
    apply bounded_spec in Hbr as [Hcanr Her].
    pose proof (fexp64_ge (Zdigits2 (Zpos kr) + Er)) as Hrmin. rewrite Hcanr in Hrmin.
    pose proof (fexp64_ge (Zdigits2 (Zpos m) + e)) as HDmin. rewrite HcanD in HDmin.
    pose proof (Zdigits2_bounds (Zpos kr) ltac:(done)) as [Hrlo _].
    pose proof (Zdigits2_bounds (Zpos m) ltac:(done)) as [Hmlo _].
    pose proof (Zdigits2_pos (Zpos kr) ltac:(done)) as Hdr.
    pose proof (Zdigits2_pos (Zpos m) ltac:(done)) as Hdm.
    apply round_le; [done|lia| |done|].
    + assert (Hdig : Zdigits2 (Zpos kr) + Zdigits2 (Zpos m) - 1 ≤ Zdigits2 (Zpos (kr * m))).
      { replace (Zdigits2 (Zpos kr) + Zdigits2 (Zpos m) - 1)
          with ((Zdigits2 (Zpos kr) - 1 + (Zdigits2 (Zpos m) - 1)) + 1) by lia.
        apply Zdigits2_ge; [lia|]. rewrite Z.pow_add_r, Pos2Z.inj_mul by lia. nia. }
      etrans; [|apply fexp64_mono
                  with (a := Zdigits2 (Zpos kr) + Zdigits2 (Zpos m) - 1 + (Er + e)); lia].
      rewrite fexp64_eq in *. lia.
    + cbn [mantissa_ceil]. rewrite Pos2Z.inj_mul.
      assert (Hp : 0 < 2 ^ 2200) by done.
      assert (Hone : scaled 4503599627370496 (-52) = 2 ^ 2200) by (by vm_compute).
      rewrite Hone in Hle.
      assert (HsD : 0 ≤ scaled (Zpos m) e).
      { unfold scaled. pose proof (scaled_pos e ltac:(lia)). lia. }
      pose proof (scaled_mul (Zpos kr) Er (Zpos m) e ltac:(lia) ltac:(lia) ltac:(lia)) as Hmul.
      apply (Z.mul_le_mono_pos_r _ _ (2 ^ 2200)); [done|]. rewrite Hmul.
      rewrite (Z.mul_comm (scaled (Zpos m) e)).
      by apply Z.mul_le_mono_nonneg_r.
Qed.

(** *** The sum *)

Lemma pos_iter_xO (m d : positive) : Zpos (Pos.iter xO m d) = Zpos m * 2 ^ Zpos d.
Proof.
  induction d as [|d IH] using Pos.peano_ind.
  - cbn [Pos.iter]. lia.
  - rewrite Pos.iter_succ, Pos2Z.inj_xO, IH, Pos2Z.inj_succ, Z.pow_succ_r by lia. lia.
Qed.

Lemma shl_align_spec (m : positive) (e e' : Z) :
  e' ≤ e →
  (shl_align m e e').2 = e' ∧ Zpos (shl_align m e e').1 = Zpos m * 2 ^ (e - e').
Proof.
  intros He. unfold shl_align. destruct (e' - e) as [|d|d] eqn:Hd; cbn [fst snd]; [|lia|].
  - replace (e - e') with 0 by lia. split; lia.
  - rewrite pos_iter_xO. split; [done|]. f_equal. f_equal. lia.
Qed.

Lemma Zdigits2_shift (m d : Z) : 0 < m → 0 ≤ d → Zdigits2 (m * 2 ^ d) = Zdigits2 m + d.
Proof.
  intros Hm Hd. pose proof (Zdigits2_bounds m Hm) as [Hlo Hhi].
  pose proof (Zdigits2_pos m Hm).
  assert (Hp : 0 < 2 ^ d) by (apply Z.pow_pos_nonneg; lia).
  apply Zdigits2_unique; [|lia]. split.
  - replace (Zdigits2 m + d - 1) with (Zdigits2 m - 1 + d) by lia.
    rewrite Z.pow_add_r by lia. nia.
  - rewrite Z.pow_add_r by lia. nia.
Qed.

Lemma binary_round_below (sx : bool) (mx : positive) (ex : Z) (U : positive) (F : Z) :
  -2200 ≤ ex →
  bounded binary64.prec binary64.emax U F = true →
  scaled (Zpos mx) ex ≤ scaled (Zpos U) F →
  below sx (Zpos U) F (binary_round binary64.prec binary64.emax sx mx ex).
Proof.
  intros Hex HU Hle. unfold binary_round.
  change (Zpos (digits2_pos mx)) with (Zdigits2 (Zpos mx)).
  set (t := fexp64 (Zdigits2 (Zpos mx) + ex)).
  assert (Ht : -1074 ≤ t) by apply fexp64_ge.
  destruct (Z.le_gt_cases ex t) as [Hno|Hyes].
  - assert (Hsame : shl_align mx ex t = (mx, ex)).
    { unfold shl_align. destruct (t - ex) eqn:Hd; [done|done|lia]. }
    rewrite Hsame. apply round_le; [done|done|done|done|done].
  - destruct (shl_align_spec mx ex t ltac:(lia)) as [Hexp Hman].
    destruct (shl_align mx ex t) as [mz ez]. cbn [fst snd] in *. subst ez.
    apply round_le; [done|lia| |done|].
    + rewrite Hman, Zdigits2_shift by lia.
      replace (Zdigits2 (Zpos mx) + (ex - t) + t) with (Zdigits2 (Zpos mx) + ex) by lia.
      fold t. lia.
    + cbn [mantissa_ceil]. rewrite Hman, <- scaled_shift by lia.
      by replace (t + (ex - t)) with ex by lia.
Qed.

(** The sum of the opposite of [h] and of [p], both non-negative: of
    absolute value at most the float [U * 2 ^ F] when [h] and [p - h]
    are. *)
Lemma add_opp_below (h p : binary64.float) (U Up : positive) (F Fp : Z) :
  bounded binary64.prec binary64.emax U F = true →
  below false (Zpos U) F h → below false (Zpos Up) Fp p →
  val64 p ≤ val64 h + scaled (Zpos U) F →
  ∃ sx, below sx (Zpos U) F (binary64.add (binary64.opp h) p).
Proof.
  intros HU Hh Hp Hdiff.
  destruct h as [sh|sh| |sh mh eh]; [|done|done|];
    destruct p as [sp|sp| |sp mp ep]; try done.
  - cbn in Hh, Hp. subst. by exists false.
  - cbn in Hh. destruct Hp as (-> & Hbp & _). subst sh.
    exists false. cbn. cbn in Hdiff. done.
  - destruct Hh as (-> & Hbh & Hle). exists true. cbn. done.
  - destruct Hh as (-> & Hbh & Hle). destruct Hp as (-> & Hbp & _).
    cbn [val64 cond_Zopp] in Hdiff.
    unfold binary64.add, binary64.opp, SFopp, SFadd. cbn [negb cond_Zopp].
    apply bounded_spec in Hbh as [Hcanh _]. apply bounded_spec in Hbp as [Hcanp _].
    pose proof (fexp64_ge (Zdigits2 (Zpos mh) + eh)) as Hhmin. rewrite Hcanh in Hhmin.
    pose proof (fexp64_ge (Zdigits2 (Zpos mp) + ep)) as Hpmin. rewrite Hcanp in Hpmin.
    set (ez := Z.min eh ep).
    destruct (shl_align_spec mh eh ez ltac:(lia)) as [_ Hmh].
    destruct (shl_align_spec mp ep ez ltac:(lia)) as [_ Hmp].
    rewrite Hmh, Hmp.
    assert (Hsh : scaled (Zpos mh * 2 ^ (eh - ez)) ez = scaled (Zpos mh) eh).
    { rewrite <- scaled_shift by lia. f_equal. lia. }
    assert (Hsp : scaled (Zpos mp * 2 ^ (ep - ez)) ez = scaled (Zpos mp) ep).
    { rewrite <- scaled_shift by lia. f_equal. lia. }
    assert (Hsum : ∀ a b, scaled (a + b) ez = scaled a ez + scaled b ez)
      by (intros; unfold scaled; lia).
    assert (Hopp : ∀ a, scaled (- a) ez = - scaled a ez)
      by (intros; unfold scaled; lia).
    assert (Hnonneg : 0 ≤ scaled (Zpos mp) ep).
    { unfold scaled. pose proof (scaled_pos ep ltac:(lia)). lia. }
    destruct (- (Zpos mh * 2 ^ (eh - ez)) + Zpos mp * 2 ^ (ep - ez)) as [|z|z] eqn:Hz.
    + by exists false.
    + exists false. cbn [binary_normalize].
      apply binary_round_below; [lia|done|].
      rewrite <- Hz, Hsum, Hopp, Hsh, Hsp. lia.
    + exists true. cbn [binary_normalize].
      apply binary_round_below; [lia|done|].
      replace (Zpos z) with (- Zneg z) by done.
      rewrite <- Hz, Hopp, Hsum, Hopp, Hsh, Hsp. lia.
Qed.

(** *** Truncation *)

Lemma int_of_float_below (sx : bool) (f : binary64.float) (U : positive) (F : Z)
    (st : state) :
  below sx (Zpos U) F f →
  ∃ z, int_of_float f st = (Ok z, st) ∧ Z.abs z * 2 ^ 2200 ≤ scaled (Zpos U) F.
Proof.
  destruct f as [s|s| |s k E]; [|done|done|]; intros Hf.
  - exists 0. split; [done|]. unfold scaled.
    assert (0 ≤ 2 ^ (F + 2200)) by (apply Z.pow_nonneg; lia). cbn. lia.
  - destruct Hf as (_ & Hb & Hle). exists (cond_Zopp s (Z.shiftl (Zpos k) E)).
    split; [done|]. etrans; [|exact Hle].
    apply bounded_spec in Hb as [Hcan _].
    pose proof (fexp64_ge (Zdigits2 (Zpos k) + E)) as HE. rewrite Hcan in HE.
    assert (Hsh : 0 ≤ Z.shiftl (Zpos k) E) by (by apply Z.shiftl_nonneg).
    replace (Z.abs (cond_Zopp s (Z.shiftl (Zpos k) E))) with (Z.shiftl (Zpos k) E)
      by (destruct s; cbn [cond_Zopp]; lia).
    unfold scaled. destruct (Z.le_gt_cases 0 E) as [Hpos|Hneg].
    + rewrite Z.shiftl_mul_pow2, (Z.add_comm E), Z.pow_add_r by lia. lia.
    + assert (Hdiv : Z.shiftl (Zpos k) E = Zpos k / 2 ^ (- E)).
      { apply Z.shiftl_div_pow2. lia. }
      assert (Hsplit : 2 ^ 2200 = 2 ^ (- E) * 2 ^ (E + 2200)).
      { rewrite <- Z.pow_add_r by lia. f_equal. lia. }
      rewrite Hdiv, Hsplit.
      assert (Hp : 0 < 2 ^ (- E)) by (apply Z.pow_pos_nonneg; lia).
      pose proof (Z.mul_div_le (Zpos k) (2 ^ (- E)) Hp) as Hfloor.
      pose proof (scaled_pos E ltac:(lia)) as Hq.
      set (P := 2 ^ (- E)) in *. set (Q := 2 ^ (E + 2200)) in *.
      set (d := Zpos k / P) in *. nia.
Qed.

(** *** Half of a float that is not tiny *)

Lemma mul_half_normal (m : positive) (e : Z) :
  bounded binary64.prec binary64.emax m e = true → -1073 ≤ e →
  binary64.mul half (S754_finite false m e) = S754_finite false m (e - 1).
Proof.
  intros Hb He. destruct (bounded_cases m e Hb) as [Hmax [[Hd _]|[-> _]]]; [|lia].
  unfold binary64.mul, half, SFmul. cbn [xorb].
  rewrite binary_round_aux_shifted, (shr_fexp_shift _ _ _ 52).
  2:{ rewrite digits2_pos_shift52, fexp64_eq, Hd. lia. }
  replace (-53 + e + 52) with (e - 1) by lia.
  change (SpecFloat.iter_pos shr_1 52
            (shr_record_of_loc (Zpos (4503599627370496 * m)) loc_Exact))
    with (Build_shr_record (Zpos m) false false).
  unfold round_shifted. cbn [shr_m loc_of_shr_record round_nearest_even].
  rewrite shr_fexp_noshift.
  2:{ cbn [Zdigits2]. rewrite fexp64_eq, Hd. lia. }
  cbn [shr_record_of_loc shr_m]. change (binary64.emax - binary64.prec) with 971.
  destruct (Z.leb_spec (e - 1) 971); [done|lia].
Qed.

(** *** The click stays inside the element *)

Lemma below_half : below false 4503599627370496 (-52) half.
Proof. split_and!; [done|done|by vm_compute]. Qed.

Lemma below_val64 (f : binary64.float) (U : positive) (F : Z) :
  below false (Zpos U) F f → 0 ≤ val64 f ≤ scaled (Zpos U) F.
Proof.
  assert (0 ≤ scaled (Zpos U) F).
  { unfold scaled. assert (0 ≤ 2 ^ (F + 2200)) by (apply Z.pow_nonneg; lia). lia. }
  destruct f as [s|s| |s k E]; [done|done|done|]. intros (-> & Hb & Hle).
  cbn [val64 cond_Zopp]. split; [|done].
  unfold scaled. assert (0 ≤ 2 ^ (E + 2200)) by (apply Z.pow_nonneg; lia). lia.
Qed.

(** X13. A position inside the raw image is mapped to an offset inside the
    displayed element: for a position between 0 and the raw size and a
    display size that is a non-negative float, the mapping returns an
    offset of absolute value at most half the display size. *)
Theorem axis_offset_within_display (position : Z) (raw : nat)
    (display : binary64.float) (st : state) :
  (0 < raw)%nat → 0 ≤ position ≤ Z.of_nat raw →
  binary64.valid display → nonneg display →
  ∃ z, axis_offset position raw display st = (Ok z, st) ∧ within_half z display.
Proof.
  intros Hraw Hpos Hvalid Hnonneg.
  (* the ratio is at most 1 *)
  assert (Hratio : below false 4503599627370496 (-52)
                     (binary64.quotient position (Z.of_nat raw))).
  { destruct (Z.of_nat raw) as [|W|W] eqn:HW; [lia| |lia].
    destruct position as [|x|x]; [done| |lia].
    apply quotient_below. lia. }
  set (r := binary64.quotient position (Z.of_nat raw)) in *.
  assert (Hvalue : axis_value position raw display st =
            (Ok (binary64.add (binary64.div (binary64.opp display) binary64.two)
                              (binary64.mul r display)), st)).
  { unfold axis_value, py_truediv64, bind, ret.
    destruct (decide (Z.of_nat raw = 0)); [lia|]. fold r.
    by destruct r as [s|s| |s k E]. }
  assert (Hfinite : binary64.finite display) by (by destruct display as [|[]| |[]]).
  destruct (half_opposite display Hvalid Hfinite) as [_ Hopp].
  unfold axis_offset, bind. rewrite Hvalue, Hopp. clear Hvalue Hopp.
  destruct display as [s|s| |s m e]; [|done|done|].
  - (* a display size of zero *)
    exists 0. split; [|done].
    destruct r as [sr|sr| |sr k E]; [|done|done|]; by destruct s, sr.
  - destruct s; [done|]. unfold binary64.valid in Hvalid. cbn [valid_binary] in Hvalid.
    pose proof (mul_below half m e below_half Hvalid) as Hh.
    pose proof (mul_below r m e Hratio Hvalid) as Hp.
    pose proof (below_val64 _ _ _ Hh) as [Hh0 HhD].
    pose proof (below_val64 _ _ _ Hp) as [Hp0 HpD].
    destruct (bounded_cases m e Hvalid) as [Hmax Hshape].
    destruct (Z.le_gt_cases (-1073) e) as [Hnormal|Htiny].
    + (* half the display size is a float *)
      assert (Hd : Zpos (digits2_pos m) = 53) by lia.
      assert (Hbh : bounded binary64.prec binary64.emax m (e - 1) = true).
      { apply bounded_spec. cbn [Zdigits2]. rewrite fexp64_eq, Hd. lia. }
      assert (Hdouble : scaled (Zpos m) e = 2 * scaled (Zpos m) (e - 1)).
      { unfold scaled. replace (e + 2200) with (Z.succ (e - 1 + 2200)) by lia.
        rewrite Z.pow_succ_r by lia. lia. }
      rewrite (mul_half_normal m e Hvalid Hnormal) in *.
      cbn [val64 cond_Zopp] in Hh0, HhD.
      destruct (add_opp_below (S754_finite false m (e - 1))
                  (binary64.mul r (S754_finite false m e)) m m (e - 1) e Hbh)
        as [sx Hsum]; [by split_and!|done|cbn [val64 cond_Zopp]; lia|].
      destruct (int_of_float_below _ _ _ _ st Hsum) as (z & Hz & Hbound).
      exists z. split; [exact Hz|]. cbn [within_half].
      assert (Hgoal : 2 * Z.abs z * 2 ^ 2200 ≤ scaled (Zpos m) e) by lia.
      clear -Hgoal Hnormal. unfold scaled in Hgoal.
      destruct (Z.le_gt_cases 0 e) as [He|He].
      * rewrite Z.max_l, Z.max_r by lia. rewrite Z.pow_0_r.
        rewrite (Z.pow_add_r 2 e 2200) in Hgoal by lia.
        assert (0 < 2 ^ 2200) by done. nia.
      * rewrite Z.max_r, Z.max_l by lia. rewrite Z.pow_0_r.
        assert (Hsplit : 2 ^ 2200 = 2 ^ (- e) * 2 ^ (e + 2200)).
        { rewrite <- Z.pow_add_r by lia. f_equal. lia. }
        rewrite Hsplit in Hgoal.
        assert (0 < 2 ^ (e + 2200)) by (apply Z.pow_pos_nonneg; lia).
        set (P := 2 ^ (- e)) in *. set (Q := 2 ^ (e + 2200)) in *. nia.
    + (* a tiny display size: the offset is 0 *)
      assert (e = -1074) as -> by lia.
      destruct (add_opp_below (binary64.mul half (S754_finite false m (-1074)))
                  (binary64.mul r (S754_finite false m (-1074))) m m (-1074) (-1074)
                  Hvalid) as [sx Hsum]; [done|done|lia|].
      destruct (int_of_float_below _ _ _ _ st Hsum) as (z & Hz & Hbound).
      exists z. split; [exact Hz|]. cbn [within_half].
      assert (Hm : Zpos m < 2 ^ 53).
      { pose proof (digits2_pos_bounds m) as [_ Hhi].
        eapply Z.lt_le_trans; [exact Hhi|]. apply Z.pow_le_mono_r; lia. }
      assert (Hsmall : scaled (Zpos m) (-1074) < 2 ^ 2200).
      { unfold scaled. change (-1074 + 2200) with 1126.
        apply Z.lt_le_trans with (2 ^ 53 * 2 ^ 1126).
        - apply Z.mul_lt_mono_pos_r; [done|exact Hm].
        - by vm_compute. }
      assert (Hz0 : z = 0).
      { assert (0 < 2 ^ 2200) by done.
        destruct (decide (z = 0)) as [|Hnz]; [done|].
        assert (1 ≤ Z.abs z) by lia. nia. }
      rewrite Hz0. cbn. lia.
Qed.

End Rounding.

(** ** The position string *)

Lemma split_comma_free (s : string) : comma_free s → split_comma s = [s].
Proof.
  induction s as [|c s IH]; intros Hs; [done|].
  cbn [split_comma].
  destruct (Ascii.eqb_spec c ","%char) as [->|Hc].
  - destruct (Hs ","%char); [left|done].
  - rewrite IH; [done|]. intros c' Hc'. apply Hs. by right.
Qed.

Lemma split_comma_app (s1 s2 : string) :
  comma_free s1 →
  split_comma (s1 +:+ "," +:+ s2) = s1 :: split_comma s2.
Proof.
  change ("," +:+ s2) with (String ","%char s2).
  induction s1 as [|c s1 IH]; intros Hs; [done|].
  change (String c s1 +:+ String ","%char s2)
    with (String c (s1 +:+ String ","%char s2)).
  cbn [split_comma].
  destruct (Ascii.eqb_spec c ","%char) as [->|Hc].
  - destruct (Hs ","%char); [left|done].
  - rewrite IH; [done|]. intros c' Hc'. apply Hs. by right.
Qed.

Lemma pretty_N_go_comma_free (x : N) (s : string) :
  comma_free s → comma_free (pretty_N_go x s).
Proof.
  revert s. induction (N.lt_wf_0 x) as [x _ IH]; intros s Hs.
  assert (x = 0 ∨ 0 < x)%N as [->|Hx] by lia.
  - by rewrite pretty_N_go_0.
  - rewrite pretty_N_go_step by done. apply IH.
    { by apply N.div_lt. }
    intros c Hc. apply elem_of_cons in Hc as [->|Hc]; [|by apply Hs].
    unfold pretty_N_char. by repeat case_match.
Qed.

Lemma pretty_N_comma_free (x : N) : comma_free (pretty x).
Proof.
  unfold pretty, pretty_N. case_decide.
  - intros c Hc. apply list_elem_of_singleton in Hc as ->. done.
  - apply pretty_N_go_comma_free. intros c Hc. by apply elem_of_nil in Hc.
Qed.

Lemma pretty_Z_comma_free (z : Z) : comma_free (pretty z).
Proof.
  destruct z as [|p|p]; unfold pretty, pretty_Z.
  - intros c Hc. apply list_elem_of_singleton in Hc as ->. done.
  - apply pretty_N_comma_free.
  - intros c Hc. cbn in Hc. apply elem_of_cons in Hc as [->|Hc]; [done|].
    by apply (pretty_N_comma_free (N.pos p)).
Qed.

(** X14. The position string that is stored for a box reads back as the two
    coordinates of its centre: [parse_position] hands exactly the decimal
    renderings of the two centre coordinates to [int]. *)
Theorem parse_position_center (w : world) (b : bbox) (st : state) :
  split_comma (center b) =
    [pretty ((bx1 b + bx2 b) `quot` 2)%Z; pretty ((by1 b + by2 b) `quot` 2)%Z] ∧
  parse_position w (PyStr (center b)) st =
    (let* x := py_int w (pretty ((bx1 b + bx2 b) `quot` 2)%Z) in
     let* y := py_int w (pretty ((by1 b + by2 b) `quot` 2)%Z) in
     ret (x, y)) st.
Proof.
  assert (Hsplit : split_comma (center b) =
    [pretty ((bx1 b + bx2 b) `quot` 2)%Z; pretty ((by1 b + by2 b) `quot` 2)%Z]).
  { unfold center. rewrite split_comma_app by apply pretty_Z_comma_free.
    by rewrite split_comma_free by apply pretty_Z_comma_free. }
  split; [done|]. unfold parse_position. by rewrite Hsplit.
Qed.

(** ** Clicks and submissions *)

Lemma clicks_app (t1 t2 : list event) : clicks (t1 ++ t2) = clicks t1 + clicks t2.
Proof. unfold clicks. by rewrite list.filter_app, List.length_app. Qed.

Lemma submits_app (t1 t2 : list event) : submits (t1 ++ t2) = submits t1 + submits t2.
Proof. unfold submits. by rewrite list.filter_app, List.length_app. Qed.

Lemma hands_off_counts (st st' : state) :
  extends_by hands_off st st' →
  clicks (trace st') = clicks (trace st) ∧ submits (trace st') = submits (trace st).
Proof.
  intros (evs & -> & Hevs). rewrite clicks_app, submits_app.
  assert (clicks evs = 0 ∧ submits evs = 0) as [-> ->]; [|lia].
  induction Hevs as [|e evs [Hc Hs] _ [IHc IHs]]; [done|].
  unfold clicks, submits in *. split.
  - rewrite list.filter_cons_False; [done|]. by rewrite Hc.
  - by rewrite list.filter_cons_False.
Qed.

Section Clicks.

Context (w : world).

Local Notation "'R'" := (extends_by hands_off).

Lemma hands_off_emit (e : event) : hands_off e → respects R (emit e).
Proof. apply extends_emit. Qed.

Lemma hands_off_log (lvl : level) (msg : string) : respects R (log lvl msg).
Proof. by apply extends_emit. Qed.

Lemma hands_off_read (name : string) : respects R (fs_read name).
Proof. by apply extends_fs_read. Qed.

Lemma hands_off_write (name : string) (data : bytes) : respects R (fs_write name data).
Proof. by apply extends_fs_write. Qed.

Lemma hands_off_check_answer (d : gmap string pyval) : respects R (check_answer d).
Proof.
  unfold check_answer. destruct (_ || _).
  - apply respects_bind; [apply extends_by_preorder|apply hands_off_log|].
    intros _. apply respects_ret, extends_by_preorder.
  - apply respects_ret, extends_by_preorder.
Qed.

(** One step of a sequence: the first computation neither clicks nor
    submits, so a property of the counts carries over to the rest. *)
Lemma peel {A C} (m : M A) (k : A → M C) (Φ : res C * state → Prop) (st : state) :
  respects R m →
  (∀ e st1, R st st1 → Φ (Raise e, st1)) →
  (∀ a st1, R st st1 → Φ (k a st1)) →
  Φ (bind m k st).
Proof.
  intros Hm Hraise Hok. unfold bind. specialize (Hm st).
  destruct (m st) as [[a|e] st1]; simpl in Hm; [by apply Hok|by apply Hraise].
Qed.

(** The loop over the sprites submits nothing and clicks once per sprite:
    exactly so when it ends normally, at most so when it raises. *)
Lemma click_sprites_counts (rc : nat) (captcha : image) (result : gmap string pyval)
    (idxs : list nat) (st : state) :
  click_counts (length idxs) st (click_sprites w rc captcha result idxs st).
Proof.
  revert st. induction idxs as [|i idxs IH]; intros st.
  - unfold click_counts. simpl. split_and!; [done|lia|intros _; lia].
  - cbn [click_sprites length].
    set (Φ := click_counts (S (length idxs)) st).
    assert (Hraise : ∀ e st1, R st st1 → Φ (Raise e, st1)).
    { intros e st1 HR. destruct (hands_off_counts _ _ HR) as [Hc Hs].
      unfold Φ, click_counts. simpl. split_and!; [done|lia|done]. }
    assert (Hpre : PreOrder R) by apply extends_by_preorder.
    apply peel; [by apply respects_dict_get|done|]. intros positon st1 HR1.
    apply peel; [by apply respects_dict_get| |].
    { intros e st2 HR2. apply Hraise. by etrans. }
    intros _ st2 HR2.
    apply peel; [apply hands_off_log| |].
    { intros e st3 HR3. apply Hraise. by do 2 (etrans; [eassumption|]). }
    intros _ st3 HR3.
    assert (H3 : R st st3) by (by do 2 (etrans; [eassumption|])).
    clear HR1 HR2 HR3 st1 st2.
    apply peel; [by apply respects_lift| |].
    { intros e st4 HR4. apply Hraise. by etrans. }
    intros style st4 HR4.
    apply peel; [by apply respects_parse_position| |].
    { intros e st5 HR5. apply Hraise. by do 2 (etrans; [eassumption|]). }
    intros xy st5 HR5.
    assert (H5 : R st st5) by (by do 2 (etrans; [eassumption|])).
    clear H3 HR4 HR5 st3 st4.
    apply peel; [by apply respects_parse_style| |].
    { intros e st6 HR6. apply Hraise. by etrans. }
    intros width_s st6 HR6.
    apply peel; [by apply respects_py_float64| |].
    { intros e st7 HR7. apply Hraise. by do 2 (etrans; [eassumption|]). }
    intros width st7 HR7.
    assert (H7 : R st st7) by (by do 2 (etrans; [eassumption|])).
    clear H5 HR6 HR7 st5 st6.
    apply peel; [by apply respects_parse_style| |].
    { intros e st8 HR8. apply Hraise. by etrans. }
    intros height_s st8 HR8.
    apply peel; [by apply respects_py_float64| |].
    { intros e st9 HR9. apply Hraise. by do 2 (etrans; [eassumption|]). }
    intros height st9 HR9.
    assert (H9 : R st st9) by (by do 2 (etrans; [eassumption|])).
    clear H7 HR8 HR9 st7 st8.
    apply peel; [by apply respects_axis_offset| |].
    { intros e st10 HR10. apply Hraise. by etrans. }
    intros final_x st10 HR10.
    apply peel; [by apply respects_axis_offset| |].
    { intros e st11 HR11. apply Hraise. by do 2 (etrans; [eassumption|]). }
    intros final_y st11 HR11.
    assert (H11 : R st st11) by (by do 2 (etrans; [eassumption|])).
    clear H9 HR10 HR11 st9 st10.
    destruct (hands_off_counts _ _ H11) as [Hc Hs].
    rewrite bind_emit. unfold bind, lift. cbn [emit fst snd].
    set (st12 := State (scratch st11) (trace st11 ++ [EvMoveClick final_x final_y])).
    assert (Hc12 : clicks (trace st12) = S (clicks (trace st))).
    { unfold st12. cbn [trace]. rewrite clicks_app, Hc. unfold clicks at 2. simpl. lia. }
    assert (Hs12 : submits (trace st12) = submits (trace st)).
    { unfold st12. cbn [trace]. rewrite submits_app, Hs. unfold submits at 2. simpl. lia. }
    destruct (move_click w rc i final_x final_y) as [[]|e].
    + destruct (IH st12) as (I1 & I2 & I3). unfold Φ, click_counts. split_and!.
      * by rewrite I1.
      * rewrite Hc12 in I2. lia.
      * intros Hok. rewrite (I3 Hok), Hc12. lia.
    + unfold Φ, click_counts. cbn [fst snd]. split_and!; [exact Hs12|rewrite Hc12; lia|done].
Qed.

(** X15. In one attempt an answer is submitted at most once, and only after a
    click on each of the three sprites: without a submission the attempt
    made at most three clicks, with one it made exactly three. *)
Theorem submit_after_three_clicks (rc : nat) (st : state) :
  (submits (trace (solve_captcha w rc st).2) = submits (trace st) ∧
   clicks (trace (solve_captcha w rc st).2) ≤ clicks (trace st) + 3) ∨
  (submits (trace (solve_captcha w rc st).2) = submits (trace st) + 1 ∧
   clicks (trace (solve_captcha w rc st).2) = clicks (trace st) + 3).
Proof.
  change (submit_counts st (solve_captcha w rc st)).
  set (Ψ := submit_counts st).
  assert (Hpre : PreOrder R) by apply extends_by_preorder.
  assert (Hquiet : ∀ (o : res bool) st1, R st st1 → Ψ (o, st1)).
  { intros o st1 HR. destruct (hands_off_counts _ _ HR) as [Hc Hs].
    left. cbn [fst snd]. split; [done|lia]. }
  unfold solve_captcha.
  apply peel; [apply hands_off_log|by intros; apply Hquiet|]. intros _ st1 HR1.
  apply peel; [apply respects_cv2_imread; [done|apply hands_off_read]| |].
  { intros e st2 HR2. apply Hquiet. by etrans. }
  intros captcha st2 HR2.
  assert (H2 : R st st2) by (by etrans). clear HR1 HR2 st1.
  destruct captcha as [captcha|].
  2:{ apply peel; [apply hands_off_log| |].
      - intros e st3 HR3. apply Hquiet. by etrans.
      - intros _ st3 HR3. apply Hquiet. by etrans. }
  apply peel; [apply respects_open_read; [done|apply hands_off_read]| |].
  { intros e st3 HR3. apply Hquiet. by etrans. }
  intros captcha_b st3 HR3.
  apply peel; [by apply hands_off_emit| |].
  { intros e st4 HR4. apply Hquiet. by do 2 (etrans; [eassumption|]). }
  intros _ st4 HR4.
  assert (H4 : R st st4) by (by do 2 (etrans; [eassumption|])). clear H2 HR3 HR4 st2 st3.
  apply peel; [by apply respects_lift| |].
  { intros e st5 HR5. apply Hquiet. by etrans. }
  intros bboxes st5 HR5.
  apply peel; [apply respects_match_boxes; [done|apply hands_off_write|apply hands_off_read]| |].
  { intros e st6 HR6. apply Hquiet. by do 2 (etrans; [eassumption|]). }
  intros result st6 HR6.
  assert (H6 : R st st6) by (by do 2 (etrans; [eassumption|])). clear H4 HR5 HR6 st4 st5.
  apply peel; [apply hands_off_check_answer| |].
  { intros e st7 HR7. apply Hquiet. by etrans. }
  intros ok st7 HR7.
  assert (H7 : R st st7) by (by etrans). clear H6 HR7 st6.
  destruct ok.
  2:{ apply peel; [apply hands_off_log| |].
      - intros e st8 HR8. apply Hquiet. by etrans.
      - intros _ st8 HR8. apply Hquiet. by etrans. }
  destruct (hands_off_counts _ _ H7) as [Hc7 Hs7].
  destruct (click_sprites_counts rc captcha result (seq 0 3) st7) as (Ks & Kle & Kok).
  change (length (seq 0 3)) with 3 in Kle, Kok.
  unfold bind at 1.
  destruct (click_sprites w rc captcha result (seq 0 3) st7) as [[[]|e] st8];
    cbn [fst snd] in *.
  2:{ left. cbn [fst snd]. split; [congruence|lia]. }
  specialize (Kok eq_refl).
  unfold bind at 1, lift at 1.
  destruct (confirm_button w rc) as [[]|e].
  2:{ left. cbn [fst snd]. split; [congruence|lia]. }
  unfold log at 1. rewrite bind_emit, bind_emit. cbn [emit snd].
  set (st9 := State _ (_ ++ [EvSubmit])).
  assert (Hs9 : submits (trace st9) = submits (trace st) + 1).
  { unfold st9. cbn [trace]. rewrite !submits_app, Ks, Hs7.
    unfold submits at 2 3. simpl. lia. }
  assert (Hc9 : clicks (trace st9) = clicks (trace st) + 3).
  { unfold st9. cbn [trace]. rewrite !clicks_app, Kok, Hc7.
    unfold clicks at 2 3. simpl. lia. }
  assert (Hdone : ∀ (o : res bool) st10, R st9 st10 → Ψ (o, st10)).
  { intros o st10 HR. destruct (hands_off_counts _ _ HR) as [Hc Hs].
    right. cbn [fst snd]. split; congruence. }
  apply (peel _ _ Ψ); [by apply respects_lift|by intros; apply Hdone|].
  intros _ st10 HR10.
  apply (peel _ _ Ψ); [by apply hands_off_emit| |].
  { intros e st11 HR11. apply Hdone. by etrans. }
  intros _ st11 HR11.
  apply (peel _ _ Ψ); [by apply respects_lift| |].
  { intros e st12 HR12. apply Hdone. by do 2 (etrans; [eassumption|]). }
  intros success st12 HR12.
  assert (H12 : R st9 st12) by (by do 2 (etrans; [eassumption|])).
  destruct success.
  - apply (peel _ _ Ψ); [apply hands_off_log| |].
    + intros e st13 HR13. apply Hdone. by etrans.
    + intros _ st13 HR13. apply Hdone. by etrans.
  - apply (peel _ _ Ψ); [apply hands_off_log| |].
    + intros e st13 HR13. apply Hdone. by etrans.
    + intros _ st13 HR13. apply Hdone. by etrans.
Qed.

End Clicks.

(** * server_manager.py *)

Section Servers.

Import server_manager.
Local Open Scope Z_scope.

Context {S : Type} (env : remote S).

Ltac sm_simpl := cbn [fst snd history var_servers var_result world
                      points servers renewed warnings
                      st_name st_expired st_days_remaining st_renewed] in *.

Ltac sm_run :=
  cbv beta iota zeta delta [bind ret throw get_result set_result get_servers
                            set_servers add_warning log] in *;
  sm_simpl.

(** ** Reading the clock *)

Lemma reads_bind {A B} (m : SM S A) (k : A → SM S B) :
  reads m → (∀ a, reads (k a)) → reads (bind m k).
Proof.
  intros Hm Hk st. unfold bind. destruct (Hm st) as (H1 & H2 & H3 & H4).
  destruct (m st) as [[a|e] st1]; simpl in *.
  - destruct (Hk a st1) as (K1 & K2 & K3 & K4). by rewrite K1, K2, K3.
  - split_and!; [done..|]. intros text [= ->]. by destruct (H4 text).
Qed.

Lemma reads_ret {A} (a : A) : reads (ret (S := S) a).
Proof. by intros st. Qed.

Lemma reads_now : reads (now env).
Proof. intros st. unfold now. by destruct (datetime_now env (world st)). Qed.

Lemma reads_expired_datetime self : reads (expired_datetime env self).
Proof. intros st. unfold expired_datetime. by destruct (datetime_fromtimestamp _ _). Qed.

Lemma reads_days_remaining self : reads (days_remaining env self).
Proof.
  apply reads_bind; [apply reads_expired_datetime|intros e].
  apply reads_bind; [apply reads_now|intros n]. apply reads_ret.
Qed.

Lemma reads_expired_str self : reads (expired_str env self).
Proof. apply reads_bind; [apply reads_expired_datetime|intros e]. apply reads_ret. Qed.

Lemma days_remaining_value self st d st' :
  days_remaining env self st = (Return d, st') →
  ∃ e s, datetime_fromtimestamp env (expired_at self) = Some e ∧
         d = Z.max 0 (timedelta_days (e - (datetime_now env s).1)).
Proof.
  unfold days_remaining, expired_datetime, bind, now, ret, throw.
  destruct (datetime_fromtimestamp env (expired_at self)) as [e|]; [|done].
  destruct (datetime_now env (world st)) as [n s1] eqn:Hn. intros [= <- <-].
  exists e, (world st). by rewrite Hn.
Qed.

Lemma renewals_app (h1 h2 : list event) :
  renewals (h1 ++ h2) = renewals h1 ++ renewals h2.
Proof. apply omap_app. Qed.

Lemma calls_app (h1 h2 : list event) : calls (h1 ++ h2) = calls h1 ++ calls h2.
Proof. apply omap_app. Qed.

Lemma bind_Return {A B} (m : SM S A) (k : A → SM S B) st a st' :
  m st = (Return a, st') → bind m k st = k a st'.
Proof. intros Hm. unfold bind. by rewrite Hm. Qed.

Lemma bind_Throw {A B} (m : SM S A) (k : A → SM S B) st e st' :
  m st = (Throw e, st') → bind m k st = (Throw e, st').
Proof. intros Hm. unfold bind. by rewrite Hm. Qed.

(** ** get_all_servers *)

Lemma lists_refl (st : state S) : lists [] st st.
Proof.
  split_and!; [done..|]. exists []. by rewrite app_nil_r.
Qed.

Lemma lists_trans (ids1 ids2 : list Z) (st1 st2 st3 : state S) :
  lists ids1 st1 st2 → lists ids2 st2 st3 → lists (ids1 ++ ids2) st1 st3.
Proof.
  intros (R1 & H1 & new1 & S1 & L1 & P1) (R2 & H2 & new2 & S2 & L2 & P2).
  split_and!; [congruence..|].
  exists (new1 ++ new2). split_and!.
  - by rewrite S2, S1, app_assoc.
  - rewrite map_app. by apply sublist_app.
  - by apply Forall_app.
Qed.

(** A state that differs by log lines only. *)
Lemma lists_logged (ids : list Z) (st st' : state S) lvl msg :
  lists ids st st' →
  lists ids st (State (world st') (history st' ++ [Logged lvl msg])
                  (var_servers st') (var_result st')).
Proof.
  intros (R1 & H1 & new & S1 & L1 & P1). split_and!; sm_simpl; [done| |by exists new].
  by rewrite renewals_app, app_nil_r.
Qed.

Lemma add_server_lists (sid : Z) (st : state S) :
  lists [sid] st (add_server env sid st).2 ∧
  calls (history (add_server env sid st).2) = calls (history st) ++ [GetServerDetail sid].
Proof.
  destruct (add_server env sid st) as [o st'] eqn:Hrun. sm_simpl.
  unfold add_server, bind at 1, api_call in Hrun.
  destruct (api_get_server_detail env sid (world st)) as [[d|e] s1].
  2:{ injection Hrun as <- <-. split.
      - split_and!; sm_simpl; [done|by rewrite renewals_app, app_nil_r|].
        exists []. rewrite app_nil_r. split_and!; [done|apply sublist_nil_l|done].
      - sm_simpl. by rewrite calls_app. }
  destruct (bool_decide (default 0 (Data d ≫= ExpDate) = 0)
            || bool_decide (default 0 (Data d ≫= ExpDate) ≤ 0)) eqn:Hexp.
  { unfold log in Hrun. injection Hrun as <- <-. split.
    - split_and!; sm_simpl; [done|by rewrite !renewals_app, !app_nil_r|].
      exists []. rewrite app_nil_r. split_and!; [done|apply sublist_nil_l|done].
    - sm_simpl. by rewrite !calls_app, app_nil_r. }
  apply orb_false_iff in Hexp as [_ Hpos]. apply bool_decide_eq_false in Hpos.
  revert Hrun.
  set (server := Build_ServerInfo sid _ _).
  unfold bind at 1, get_servers. unfold bind at 1, set_servers. sm_simpl.
  set (st2 := State s1 _ (var_servers st ++ [server]) (var_result st)).
  assert (Hgrow : ∀ st3 : state S,
            history st3 = history st2 → var_servers st3 = var_servers st2 →
            var_result st3 = var_result st2 →
            lists [sid] st st3 ∧
            calls (history st3) = calls (history st) ++ [GetServerDetail sid]).
  { intros st3 H1 H2 H3. unfold st2 in H1, H2, H3. sm_simpl. split.
    - split_and!; [by rewrite H3|by rewrite H1, renewals_app, app_nil_r|].
      exists [server]. rewrite H2. split_and!; [done|done|].
      constructor; [simpl; lia|done].
    - rewrite H1. by rewrite calls_app. }
  destruct (reads_expired_str server st2) as (E1 & E2 & E3 & E4).
  unfold bind at 1.
  destruct (expired_str env server st2) as [[expired|e] st3]; sm_simpl.
  2:{ intros [= <- <-]. by apply Hgrow. }
  destruct (reads_days_remaining server st3) as (D1 & D2 & D3 & D4).
  unfold bind at 1.
  destruct (days_remaining env server st3) as [[days|e] st4]; sm_simpl.
  2:{ intros [= <- <-]. apply Hgrow; congruence. }
  unfold log. intros [= <- <-].
  destruct (Hgrow st4) as [Hl Hc]; [congruence..|]. split.
  - by apply lists_logged.
  - sm_simpl. by rewrite calls_app, app_nil_r.
Qed.

Lemma add_servers_lists (ids : list Z) (st : state S) :
  lists ids st (add_servers env ids st).2 ∧
  (∀ text, (add_servers env ids st).1 ≠ Throw (RainyunAPIError text)) ∧
  ((add_servers env ids st).1 = Return tt →
   calls (history (add_servers env ids st).2)
     = calls (history st) ++ map GetServerDetail ids).
Proof.
  revert st. induction ids as [|sid ids IH]; intros st.
  - cbn [add_servers]. unfold ret. sm_simpl. split_and!; [apply lists_refl|done|].
    intros _. by rewrite app_nil_r.
  - cbn [add_servers]. unfold bind, try_except.
    destruct (add_server_lists sid st) as [Hl Hc].
    destruct (add_server env sid st) as [[[]|[text|cls]] st1]; sm_simpl.
    + destruct (IH st1) as (IH1 & IH2 & IH3). split_and!.
      * apply (lists_trans [sid] ids _ st1); done.
      * done.
      * intros Hret. rewrite (IH3 Hret), Hc, <- app_assoc. done.
    + unfold log. sm_simpl.
      set (st2 := State (world st1) _ _ _).
      destruct (IH st2) as (IH1 & IH2 & IH3). split_and!.
      * apply (lists_trans [sid] ids _ st2); [|done]. by apply lists_logged.
      * done.
      * intros Hret. rewrite (IH3 Hret). unfold st2. sm_simpl.
        rewrite calls_app, Hc, app_nil_r, <- app_assoc. done.
    + split_and!; [|done|done].
      destruct Hl as (R1 & H1 & new & S1 & L1 & P1). split_and!; [done..|].
      exists new. split_and!; [done| |done].
      etrans; [exact L1|]. by apply sublist_skip, sublist_nil_l.
Qed.

Lemma get_all_servers_spec (st : state S) :
  var_result (get_all_servers env st).2 = var_result st ∧
  renewals (history (get_all_servers env st).2) = renewals (history st) ∧
  (∀ text, (get_all_servers env st).1 ≠ Throw (RainyunAPIError text)) ∧
  (∀ ids s' l, api_get_server_ids env (world st) = (Return ids, s') →
               (get_all_servers env st).1 = Return l →
               sublist (map id l) ids ∧ Forall (λ s, 0 < expired_at s) l ∧
               calls (history (get_all_servers env st).2)
                 = calls (history st) ++ GetServerIds :: map GetServerDetail ids).
Proof.
  destruct (get_all_servers env st) as [o st'] eqn:Hrun. sm_simpl. revert Hrun.
  unfold get_all_servers. unfold bind at 1, set_servers. sm_simpl.
  unfold bind at 1, try_except, bind at 1, api_call. sm_simpl.
  destruct (api_get_server_ids env (world st)) as [[ids|[text|cls]] s1]; sm_simpl.
  - unfold bind at 1, log. sm_simpl.
    set (st1 := State s1 _ [] (var_result st)).
    destruct (add_servers_lists ids st1) as ((R1 & H1 & new & S1 & L1 & P1) & Hapi & Hcalls).
    assert (Hr1 : renewals (history st1) = renewals (history st)).
    { unfold st1. sm_simpl. by rewrite !renewals_app, !app_nil_r. }
    assert (Hc1 : calls (history st1) = calls (history st) ++ [GetServerIds]).
    { unfold st1. sm_simpl. by rewrite !calls_app, app_nil_r. }
    rewrite Hr1 in H1. rewrite Hc1 in Hcalls. change (var_result st1) with (var_result st) in R1.
    change (var_servers st1) with (@nil ServerInfo) in S1. clear Hr1 Hc1.
    destruct (add_servers env ids st1) as [[[]|[text|cls]] st2]; sm_simpl.
    + unfold get_servers. intros [= <- <-]. split_and!; [done..|].
      intros ids' s' l [= <- <-] [= <-]. rewrite S1. split_and!; [done..|].
      rewrite (Hcalls eq_refl), <- app_assoc. done.
    + by destruct (Hapi text).
    + intros [= <- <-]. by split_and!.
  - unfold log, get_servers. intros [= <- <-]. sm_simpl. split_and!; [done| |done|done].
    rewrite !renewals_app. by rewrite !app_nil_r.
  - intros [= <- <-]. sm_simpl. split_and!; [done| |done|done].
    rewrite !renewals_app. by rewrite !app_nil_r.
Qed.

(** X16. [get_all_servers] lets no [RainyunAPIError] out: it returns a list, or
    fails with an exception of another class. *)
Theorem get_all_servers_absorbs_api_errors (st : state S) :
  (∃ l, (get_all_servers env st).1 = Return l) ∨
  (∃ cls, (get_all_servers env st).1 = Throw (OtherError cls)).
Proof.
  destruct (get_all_servers_spec st) as (_ & _ & Hapi & _).
  destruct (get_all_servers env st).1 as [l|[text|cls]].
  - left. by exists l.
  - by destruct (Hapi text).
  - right. by exists cls.
Qed.

(** X17. When the list call answers, every listed id is asked for its details,
    in order and once, and the servers returned are listed ones, in the
    order of the list and with a positive expiry timestamp. *)
Theorem get_all_servers_listed (st st' : state S) (ids : list Z) (s' : S)
    (l : list ServerInfo) :
  api_get_server_ids env (world st) = (Return ids, s') →
  get_all_servers env st = (Return l, st') →
  sublist (map id l) ids ∧
  Forall (λ s, 0 < expired_at s) l ∧
  calls (history st') = calls (history st) ++ GetServerIds :: map GetServerDetail ids.
Proof.
  intros Hids Hrun.
  destruct (get_all_servers_spec st) as (_ & _ & _ & Hspec).
  rewrite Hrun in Hspec. by apply (Hspec ids s' l).
Qed.

(** X18. When the list call fails with [RainyunAPIError] the result is the empty
    list, and no detail is asked for. *)
Theorem get_all_servers_list_failure (st : state S) (text : string) (s' : S) :
  api_get_server_ids env (world st) = (Throw (RainyunAPIError text), s') →
  (get_all_servers env st).1 = Return [] ∧
  calls (history (get_all_servers env st).2) = calls (history st) ++ [GetServerIds].
Proof.
  intros Hids.
  destruct (get_all_servers env st) as [o st'] eqn:Hrun. sm_simpl. revert Hrun.
  unfold get_all_servers. unfold bind at 1, set_servers. sm_simpl.
  unfold bind at 1, try_except, bind at 1, api_call. sm_simpl.
  rewrite Hids. unfold log, get_servers. intros [= <- <-]. sm_simpl.
  by rewrite !calls_app, app_nil_r.
Qed.

(** ** check_and_renew *)

Lemma renew_spec self server status st o st' :
  renew env self server status st = (o, st') →
  (∀ text, o ≠ Throw (RainyunAPIError text)) ∧
  servers (var_result st') = servers (var_result st) ∧
  ∃ new, renewals (history st') = renewals (history st) ++ new ∧
    (new = [] ∨
     (new = [(id server, 7)] ∧ auto_renew self = true ∧
      RENEW_COST_7_DAYS ≤ points (var_result st))) ∧
    ∀ status', o = Return status' →
      (status' = Status (st_name status) (st_expired status)
                   (st_days_remaining status) true ∧
       new = [(id server, 7)] ∧
       points (var_result st') = points (var_result st) - RENEW_COST_7_DAYS ∧
       renewed (var_result st') = renewed (var_result st) ++ [name server]) ∨
      (status' = status ∧
       points (var_result st') = points (var_result st) ∧
       renewed (var_result st') = renewed (var_result st)).
Proof.
  unfold renew. destruct (auto_renew self) eqn:Hauto.
  2:{ sm_run. intros [= <- <-]. sm_simpl. split_and!; [done..|].
      exists []. rewrite app_nil_r. split_and!; [done|by left|].
      intros status' [= <-]. by right. }
  unfold bind at 1, get_result. sm_simpl.
  case_bool_decide as Hpts.
  2:{ sm_run. intros [= <- <-]. sm_simpl. split_and!; [done..|].
      exists []. rewrite ?renewals_app, ?app_nil_r. split_and!; [done|by left|].
      intros status' [= <-]. by right. }
  unfold try_except, bind at 1, api_call.
  destruct (api_renew_server env (id server) 7 (world st)) as [[[]|[text|cls]] s1].
  - sm_run. intros [= <- <-]. sm_simpl. split_and!; [done..|].
    exists [(id server, 7)]. rewrite ?renewals_app, ?app_nil_r. split_and!; [done|by right|].
    intros status' [= <-]. by left.
  - sm_run. intros [= <- <-]. sm_simpl. split_and!; [done..|].
    exists [(id server, 7)]. rewrite ?renewals_app, ?app_nil_r. split_and!; [done|by right|].
    intros status' [= <-]. by right.
  - intros [= <- <-]. sm_simpl. split_and!; [done..|].
    exists [(id server, 7)]. rewrite ?renewals_app, ?app_nil_r. split_and!; [done|by right|].
    done.
Qed.

Lemma check_server_spec self server st o st' :
  check_server env self server st = (o, st') →
  (∀ text, o ≠ Throw (RainyunAPIError text)) ∧
  ∃ new, renewals (history st') = renewals (history st) ++ new ∧
    (new = [] ∨
     (new = [(id server, 7)] ∧ auto_renew self = true ∧
      RENEW_COST_7_DAYS ≤ points (var_result st) ∧ due_evidence env self server)) ∧
    (o = Return tt →
     ∃ status,
       servers (var_result st') = servers (var_result st) ++ [status] ∧
       st_name status = name server ∧
       ((st_renewed status = true ∧ new = [(id server, 7)] ∧
         points (var_result st') = points (var_result st) - RENEW_COST_7_DAYS ∧
         renewed (var_result st') = renewed (var_result st) ++ [name server]) ∨
        (st_renewed status = false ∧
         points (var_result st') = points (var_result st) ∧
         renewed (var_result st') = renewed (var_result st)))).
Proof.
  unfold check_server.
  assert (Hstop : ∀ (e : error) (st1 : state S),
            (∀ text, e ≠ RainyunAPIError text) → history st1 = history st →
            (∀ text, Throw (A := unit) e ≠ Throw (RainyunAPIError text)) ∧
            ∃ new, renewals (history st1) = renewals (history st) ++ new ∧
              (new = [] ∨
               (new = [(id server, 7)] ∧ auto_renew self = true ∧
                RENEW_COST_7_DAYS ≤ points (var_result st) ∧
                due_evidence env self server)) ∧
              (Throw (A := unit) e = Return tt →
               ∃ status,
                 servers (var_result st1) = servers (var_result st) ++ [status] ∧
                 st_name status = name server ∧
                 ((st_renewed status = true ∧ new = [(id server, 7)] ∧
                   points (var_result st1) = points (var_result st) - RENEW_COST_7_DAYS ∧
                   renewed (var_result st1) = renewed (var_result st) ++ [name server]) ∨
                  (st_renewed status = false ∧
                   points (var_result st1) = points (var_result st) ∧
                   renewed (var_result st1) = renewed (var_result st))))).
  { intros e st1 He Hh. split; [intros text [= ->]; by destruct (He text)|].
    exists []. rewrite Hh, app_nil_r. split_and!; [done|by left|done]. }
  destruct (reads_expired_str server st) as (E1 & E2 & E3 & E4).
  unfold bind at 1. destruct (expired_str env server st) as [[expired|e] st1]; sm_simpl.
  2:{ intros [= <- <-]. apply Hstop; [|done]. intros text ->. by destruct (E4 text). }
  destruct (reads_days_remaining server st1) as (D1 & D2 & D3 & D4).
  unfold bind at 1. destruct (days_remaining env server st1) as [[days|e] st2]; sm_simpl.
  2:{ intros [= <- <-]. apply Hstop; [|congruence]. intros text ->. by destruct (D4 text). }
  destruct (reads_days_remaining server st2) as (F1 & F2 & F3 & F4).
  unfold bind at 1.
  destruct (days_remaining env server st2) as [[due|e] st3] eqn:Hdue; sm_simpl.
  2:{ intros [= <- <-]. apply Hstop; [|congruence]. intros text ->. by destruct (F4 text). }
  assert (H3 : history st3 = history st) by congruence.
  assert (R3 : var_result st3 = var_result st) by congruence.
  case_bool_decide as Hle.
  - destruct (reads_days_remaining server st3) as (G1 & G2 & G3 & G4).
    unfold bind at 1. unfold bind at 1.
    destruct (days_remaining env server st3) as [[left|e] st4]; sm_simpl.
    2:{ intros [= <- <-]. apply Hstop; [|congruence]. intros text ->. by destruct (G4 text). }
    unfold bind at 1, log. sm_simpl.
    set (status := Status (name server) expired days false).
    set (st5 := State (world st4) _ (var_servers st4) (var_result st4)).
    assert (H5 : renewals (history st5) = renewals (history st)).
    { unfold st5. sm_simpl. rewrite renewals_app, app_nil_r. congruence. }
    assert (R5 : var_result st5 = var_result st) by (unfold st5; sm_simpl; congruence).
    destruct (renew env self server status st5) as [o1 st6] eqn:Hrenew.
    destruct (renew_spec self server status st5 o1 st6 Hrenew)
      as (Hapi & Hservers & new & Hnew & Hcases & Hret).
    rewrite H5 in Hnew. rewrite R5 in Hservers, Hcases, Hret.
    assert (Hev : due_evidence env self server).
    { destruct (days_remaining_value server st2 due st3 Hdue) as (e & s & He & ->).
      by exists e, s. }
    destruct o1 as [status'|e]; sm_simpl.
    2:{ intros [= <- <-]. split; [intros text [= ->]; by destruct (Hapi text)|].
        exists new. split_and!; [done| |done].
        destruct Hcases as [->|(-> & ? & ?)]; [by left|by right]. }
    unfold bind at 1, get_result, set_result. intros [= <- <-]. sm_simpl.
    split; [done|]. exists new. split_and!; [done| |].
    { destruct Hcases as [->|(-> & ? & ?)]; [by left|by right]. }
    intros _. exists status'. rewrite Hservers. split; [done|].
    destruct (Hret status' eq_refl) as [(-> & Hn & Hp & Hr)|(-> & Hp & Hr)].
    + split; [done|]. by left.
    + split; [done|]. by right.
  - unfold bind at 1, ret. unfold bind at 1, get_result, set_result.
    intros [= <- <-]. sm_simpl. split; [done|].
    exists []. rewrite H3, app_nil_r. split_and!; [done|by left|].
    intros _. eexists. rewrite R3. split; [done|]. split; [done|]. by right.
Qed.

Lemma check_servers_spec self l st o st' :
  check_servers env self l st = (o, st') →
  (∀ text, o ≠ Throw (RainyunAPIError text)) ∧
  ∃ new, renewals (history st') = renewals (history st) ++ new ∧
    sublist new (map (λ s, (id s, 7)) l) ∧
    (auto_renew self = false → new = []) ∧
    (points (var_result st) < RENEW_COST_7_DAYS → new = []) ∧
    (Forall (λ s, ¬ due_evidence env self s) l → new = []) ∧
    (o = Return tt →
     ∃ statuses,
       servers (var_result st') = servers (var_result st) ++ statuses ∧
       map st_name statuses = map name l ∧
       renewed (var_result st')
         = renewed (var_result st) ++ map st_name (renewed_of statuses) ∧
       points (var_result st')
         = points (var_result st)
           - RENEW_COST_7_DAYS * Z.of_nat (length (renewed_of statuses)) ∧
       (0 ≤ points (var_result st) → 0 ≤ points (var_result st')) ∧
       (length (renewed_of statuses) ≤ length new)%nat).
Proof.
  revert st. induction l as [|server l IH]; intros st.
  - cbn [check_servers]. unfold ret. intros [= <- <-]. split; [done|].
    exists []. rewrite app_nil_r. split_and!; [done..|].
    intros _. exists []. rewrite !app_nil_r. split_and!; [done..|simpl; lia|done|done].
  - cbn [check_servers]. unfold bind.
    destruct (check_server env self server st) as [o1 st1] eqn:Hstep.
    destruct (check_server_spec self server st o1 st1 Hstep)
      as (Hapi & new1 & Hnew1 & Hcase1 & Hret1).
    assert (Hsub1 : sublist new1 [(id server, 7)]).
    { destruct Hcase1 as [->|(-> & _)]; [apply sublist_nil_l|done]. }
    assert (Hoff1 : auto_renew self = false → new1 = []).
    { intros Hoff. destruct Hcase1 as [->|(_ & Hon & _)]; [done|congruence]. }
    assert (Hpts1 : points (var_result st) < RENEW_COST_7_DAYS → new1 = []).
    { intros Hlt. destruct Hcase1 as [->|(_ & _ & Hge & _)]; [done|lia]. }
    assert (Hdue1 : ¬ due_evidence env self server → new1 = []).
    { intros Hnd. destruct Hcase1 as [->|(_ & _ & _ & Hev)]; [done|by destruct Hnd]. }
    destruct o1 as [[]|e].
    2:{ intros [= <- <-]. split; [done|]. exists new1. split_and!; [done| | | | |done].
        - change (map _ (server :: l)) with ([(id server, 7)] ++ map (λ s, (id s, 7)) l).
          rewrite <- (app_nil_r new1). by apply sublist_app, sublist_nil_l.
        - done.
        - done.
        - intros Hall. apply Hdue1. by inversion Hall. }
    intros Hrest.
    destruct (IH st1 Hrest) as (Hapi2 & new2 & Hnew2 & Hsub2 & Hoff2 & Hpts2 & Hdue2 & Hret2).
    destruct (Hret1 eq_refl) as (status & Hs1 & Hn1 & Hc1).
    assert (Hle : points (var_result st1) ≤ points (var_result st)).
    { unfold RENEW_COST_7_DAYS in *. destruct Hc1 as [(_ & _ & -> & _)|(_ & -> & _)]; lia. }
    split; [done|]. exists (new1 ++ new2). split_and!.
    + by rewrite Hnew2, Hnew1, app_assoc.
    + change (map _ (server :: l)) with ([(id server, 7)] ++ map (λ s, (id s, 7)) l).
      by apply sublist_app.
    + intros Hoff. by rewrite Hoff1, Hoff2.
    + intros Hlt. rewrite Hpts1, Hpts2 by lia. done.
    + intros Hall. inversion Hall as [|? ? Hh Ht]; subst. by rewrite Hdue1, Hdue2.
    + intros ->. destruct (Hret2 eq_refl) as (statuses & Hs2 & Hn2 & Hr2 & Hp2 & Hnn2 & Hlen2).
      exists (status :: statuses). split_and!.
      * rewrite Hs2, Hs1, <- app_assoc. done.
      * simpl. by rewrite Hn1, Hn2.
      * rewrite Hr2. unfold renewed_of.
        destruct Hc1 as [(Hflag & _ & _ & ->)|(Hflag & _ & ->)].
        -- rewrite list.filter_cons_True by done. simpl. rewrite Hn1, <- app_assoc. done.
        -- rewrite list.filter_cons_False by (rewrite Hflag; done). done.
      * rewrite Hp2. unfold renewed_of.
        destruct Hc1 as [(Hflag & _ & -> & _)|(Hflag & -> & _)].
        -- rewrite list.filter_cons_True by done. simpl length. lia.
        -- rewrite list.filter_cons_False by (rewrite Hflag; done). done.
      * intros Hpos. apply Hnn2.
        destruct Hc1 as [(_ & Hn & -> & _)|(_ & -> & _)]; [|done].
        destruct Hcase1 as [->|(_ & _ & Hge & _)]; [done|lia].
      * rewrite List.length_app. unfold renewed_of in *.
        destruct Hc1 as [(Hflag & -> & _)|(Hflag & _)].
        -- rewrite list.filter_cons_True by done. simpl. lia.
        -- rewrite list.filter_cons_False by (rewrite Hflag; done). lia.
Qed.

Lemma sublist_days (new : list (Z * Z)) (l : list ServerInfo) :
  sublist new (map (λ s, (id s, 7)) l) →
  Forall (λ c, c.2 = 7) new ∧ sublist (map fst new) (map id l).
Proof.
  intros Hsub. split.
  - apply list.Forall_forall. intros c Hc.
    apply sublist_submseteq in Hsub. apply (elem_of_submseteq _ _ _ Hc) in Hsub.
    clear Hc. rename Hsub into Hc.
    apply list_elem_of_fmap in Hc as (s & -> & _). done.
  - apply (fmap_sublist fst) in Hsub. by rewrite <- list_fmap_compose in Hsub.
Qed.

Lemma check_and_renew_points self st p s1 o st' :
  api_get_user_points env (world st) = (Return p, s1) →
  check_and_renew env self st = (o, st') →
  (∀ text, o ≠ Throw (RainyunAPIError text)) ∧
  ∃ new, renewals (history st') = renewals (history st) ++ new ∧
    (auto_renew self = false → new = []) ∧
    (p < RENEW_COST_7_DAYS → new = []) ∧
    Forall (λ c, c.2 = 7) new ∧
    (∀ ids s2, api_get_server_ids env s1 = (Return ids, s2) →
               sublist (map fst new) ids) ∧
    (∀ r, o = Return r →
          points r = p - RENEW_COST_7_DAYS * Z.of_nat (length (renewed r)) ∧
          renewed r = map st_name (renewed_of (servers r)) ∧
          (0 ≤ p → 0 ≤ points r)).
Proof.
  intros Hp. unfold check_and_renew.
  unfold bind at 1, set_result. sm_simpl.
  unfold bind at 1, try_except. unfold bind at 1, api_call. sm_simpl. rewrite Hp.
  unfold bind at 1, get_result. sm_simpl.
  unfold bind at 1, set_result. sm_simpl.
  unfold bind at 1, get_result. sm_simpl.
  unfold bind at 1, log. sm_simpl.
  set (st2 := State s1 _ (var_servers st) (Summary p [] [] [])).
  assert (H2 : renewals (history st2) = renewals (history st)).
  { unfold st2. sm_simpl. by rewrite !renewals_app, !app_nil_r. }
  destruct (get_all_servers_spec st2) as (Rl & Hl & Hapi & Hlisted).
  unfold bind at 1.
  destruct (get_all_servers env st2) as [[l|e] st3] eqn:Hget; sm_simpl.
  2:{ destruct e as [text|cls]; [by destruct (Hapi text)|].
      intros [= <- <-]. split; [done|]. exists []. rewrite app_nil_r.
      split_and!; [congruence|done|done|done| |done].
      intros ids s2 _. apply sublist_nil_l. }
  destruct (check_servers env self l st3) as [o1 st4] eqn:Hcheck.
  destruct (check_servers_spec self l st3 o1 st4 Hcheck)
    as (Hapi1 & new & Hnew & Hsub & Hoff & Hpts & _ & Hret).
  rewrite Hl, H2 in Hnew. rewrite Rl in Hpts, Hret. unfold st2 in Hpts, Hret. sm_simpl.
  destruct (sublist_days new l Hsub) as [Hdays Hids].
  assert (Hres : ∀ o2 : outcome summary, (∀ r, o2 = Return r → r = var_result st4 ∧ o1 = Return tt) →
            (∀ text, o2 ≠ Throw (RainyunAPIError text)) →
            (∀ text, o2 ≠ Throw (RainyunAPIError text)) ∧
            ∃ new, renewals (history st4) = renewals (history st) ++ new ∧
              (auto_renew self = false → new = []) ∧
              (p < RENEW_COST_7_DAYS → new = []) ∧
              Forall (λ c, c.2 = 7) new ∧
              (∀ ids s2, api_get_server_ids env s1 = (Return ids, s2) →
                         sublist (map fst new) ids) ∧
              (∀ r, o2 = Return r →
                    points r = p - RENEW_COST_7_DAYS * Z.of_nat (length (renewed r)) ∧
                    renewed r = map st_name (renewed_of (servers r)) ∧
                    (0 ≤ p → 0 ≤ points r))).
  { intros o2 Ho2 Hno. split; [done|]. exists new. split_and!; [done..| |].
    - intros ids s2 Hids2. etrans; [exact Hids|].
      destruct (Hlisted ids s2 l) as (Hs & _); [done..|]. exact Hs.
    - intros r Hr. destruct (Ho2 r Hr) as [-> Ho1].
      destruct (Hret Ho1) as (statuses & Hs & Hn & Hr' & Hp' & Hnn & _).
      rewrite Hs, Hr', Hp'. simpl. rewrite length_map. split_and!; [done..|].
      intros Hpos. rewrite <- Hp'. by apply Hnn. }
  destruct o1 as [[]|[text|cls]]; sm_simpl.
  - unfold get_result. intros [= <- <-]. apply Hres; [|done].
    intros r [= <-]. done.
  - by destruct (Hapi1 text).
  - intros [= <- <-]. apply Hres; done.
Qed.

Lemma check_and_renew_no_points self st e s1 :
  api_get_user_points env (world st) = (Throw e, s1) →
  renewals (history (check_and_renew env self st).2) = renewals (history st).
Proof.
  intros Hp. destruct (check_and_renew env self st) as [o st'] eqn:Hrun. revert Hrun.
  unfold check_and_renew.
  unfold bind at 1, set_result. sm_simpl.
  unfold bind at 1, try_except. unfold bind at 1, api_call. sm_simpl. rewrite Hp.
  destruct e as [text|cls].
  - sm_run. intros [= <- <-]. sm_simpl. by rewrite !renewals_app, !app_nil_r.
  - intros [= <- <-]. sm_simpl. by rewrite !renewals_app, !app_nil_r.
Qed.

Lemma check_and_renew_disabled self st :
  auto_renew self = false →
  renewals (history (check_and_renew env self st).2) = renewals (history st).
Proof.
  intros Hoff. destruct (api_get_user_points env (world st)) as [[p|e] s1] eqn:Hp.
  - destruct (check_and_renew env self st) as [o st'] eqn:Hrun.
    destruct (check_and_renew_points self st p s1 o st' Hp Hrun)
      as (_ & new & Hnew & Hnone & _).
    sm_simpl. by rewrite Hnew, (Hnone Hoff), app_nil_r.
  - by apply (check_and_renew_no_points self st e s1).
Qed.

(** X19. The points in the result are the points of the account less 2258 for
    every renewal in the result; the renewed names are those of the
    statuses flagged as renewed, in order; and the points stay
    non-negative when they start so. *)
Theorem check_and_renew_accounting (self : ServerManager) (st st' : state S)
    (p : Z) (s1 : S) (r : summary) :
  api_get_user_points env (world st) = (Return p, s1) →
  check_and_renew env self st = (Return r, st') →
  points r = p - RENEW_COST_7_DAYS * Z.of_nat (length (renewed r)) ∧
  renewed r = map st_name (renewed_of (servers r)) ∧
  (0 ≤ p → 0 ≤ points r).
Proof.
  intros Hp Hrun.
  destruct (check_and_renew_points self st p s1 _ st' Hp Hrun)
    as (_ & new & _ & _ & _ & _ & _ & Hret).
  by apply Hret.
Qed.

(** X20. With fewer points than a renewal costs, no renewal is requested. *)
Theorem check_and_renew_without_points (self : ServerManager) (st : state S)
    (p : Z) (s1 : S) :
  api_get_user_points env (world st) = (Return p, s1) →
  p < RENEW_COST_7_DAYS →
  renewals (history (check_and_renew env self st).2) = renewals (history st).
Proof.
  intros Hp Hlt. destruct (check_and_renew env self st) as [o st'] eqn:Hrun.
  destruct (check_and_renew_points self st p s1 o st' Hp Hrun)
    as (_ & new & Hnew & _ & Hnone & _).
  sm_simpl. by rewrite Hnew, (Hnone Hlt), app_nil_r.
Qed.

(** X21. Every renewal that is requested is for 7 days and for a server of the
    list that the API gave, in the order of that list and at most once per
    entry of it. *)
Theorem check_and_renew_renews_listed (self : ServerManager) (st : state S)
    (p : Z) (s1 s2 : S) (ids : list Z) :
  api_get_user_points env (world st) = (Return p, s1) →
  api_get_server_ids env s1 = (Return ids, s2) →
  ∃ new,
    renewals (history (check_and_renew env self st).2) = renewals (history st) ++ new ∧
    Forall (λ c, c.2 = 7) new ∧
    sublist (map fst new) ids.
Proof.
  intros Hp Hids. destruct (check_and_renew env self st) as [o st'] eqn:Hrun.
  destruct (check_and_renew_points self st p s1 o st' Hp Hrun)
    as (_ & new & Hnew & _ & _ & Hdays & Hsub & _).
  exists new. split_and!; [done..|]. by apply (Hsub ids s2).
Qed.

(** X22. When the points cannot be fetched ([RainyunAPIError]), the check ends
    there: no other call is made, and the result has 0 points, no server
    and the one warning. *)
Theorem check_and_renew_points_failure (self : ServerManager) (st : state S)
    (text : string) (s1 : S) :
  api_get_user_points env (world st) = (Throw (RainyunAPIError text), s1) →
  (check_and_renew env self st).1
    = Return (Summary 0 [] [] ["API call failed: " +:+ text]) ∧
  calls (history (check_and_renew env self st).2) = calls (history st) ++ [GetUserPoints].
Proof.
  intros Hp. destruct (check_and_renew env self st) as [o st'] eqn:Hrun. revert Hrun.
  unfold check_and_renew.
  unfold bind at 1, set_result. sm_simpl.
  unfold bind at 1, try_except. unfold bind at 1, api_call. sm_simpl. rewrite Hp.
  sm_run. intros [= <- <-]. sm_simpl. by rewrite !calls_app, !app_nil_r.
Qed.

(** X23. Servers that no reading of the clock finds within the threshold are
    not renewed: no renewal is requested for them and the points are left
    as they are. *)
Theorem servers_not_due_not_renewed (self : ServerManager) (l : list ServerInfo)
    (st : state S) :
  Forall (λ server, ∀ e s,
            datetime_fromtimestamp env (expired_at server) = Some e →
            renew_threshold self < timedelta_days (e - (datetime_now env s).1)) l →
  renewals (history (check_servers env self l st).2) = renewals (history st) ∧
  ((check_servers env self l st).1 = Return tt →
   points (var_result (check_servers env self l st).2) = points (var_result st) ∧
   renewed (var_result (check_servers env self l st).2) = renewed (var_result st)).
Proof.
  intros Hall. destruct (check_servers env self l st) as [o st'] eqn:Hrun.
  destruct (check_servers_spec self l st o st' Hrun)
    as (_ & new & Hnew & Hsub & _ & _ & Hdue & Hret).
  assert (Hnone : new = []).
  { apply Hdue. eapply list.Forall_impl; [exact Hall|].
    intros server Hfar (e & s & He & Hle). specialize (Hfar e s He). lia. }
  subst new. rewrite app_nil_r in Hnew. sm_simpl. split; [done|].
  intros Ho. destruct (Hret Ho) as (statuses & Hs & Hn & Hr & Hp & _ & Hlen).
  assert (Hnil : renewed_of statuses = []).
  { destruct (renewed_of statuses) as [|x rest]; [done|]. simpl in Hlen. lia. }
  rewrite Hp, Hr, Hnil. simpl. rewrite app_nil_r. split; [lia|done].
Qed.

(** X24. With [AUTO_RENEW] set to anything that is not [true], in whatever
    letter case, no renewal is requested. *)
Theorem auto_renew_switch (environ : gmap string string) (v : string)
    (st : state S) :
  environ !! "AUTO_RENEW" = Some v → lower v ≠ "true" →
  renewals (history (manage env environ st).2) = renewals (history st).
Proof.
  intros Hv Hne. unfold manage, __init__. rewrite Hv. cbn [default].
  rewrite bool_decide_eq_false_2 by done.
  destruct (int_of_str env (default "7" (environ !! "RENEW_THRESHOLD_DAYS"))) as [n|].
  - unfold bind at 1. unfold bind at 1, ret.
    by apply check_and_renew_disabled.
  - unfold bind at 1. unfold bind at 1. unfold bind at 1, log, ret. sm_simpl.
    rewrite check_and_renew_disabled by done. sm_simpl.
    by rewrite renewals_app, app_nil_r.
Qed.

End Servers.

(** * The login *)

Section LoginProperties.

Import login.

Context {B : Type} (w : world) (d : driver B).

Ltac l_simpl := cbn [fst snd captcha page cookie_file offered] in *.

Ltac l_run :=
  cbv beta iota zeta delta [login.try_except login.bind browser on_captcha login.ret
                            login.raise login.lift log sleep emit] in *;
  l_simpl.

Lemma not_retryable_not_timeout (e : exn) :
  retryable e = false → is_TimeoutException e = false.
Proof. by destruct e. Qed.

(** X25. Once the captcha frame is there and entered, the captcha step of
    [do_login] ends as [process_captcha] does: with its answer, or with
    the exception it raised, which is never taken for the absence of a
    captcha.  The step touches neither the page nor the cookie file. *)
Theorem captcha_outcome_decides (s : session B) (el : element) (b1 b2 : B) :
  wait_visible d CaptchaFrame (page s) = (Ok el, b1) →
  switch_to_frame d "tcaptcha_iframe_dy" b1 = (Ok tt, b2) →
  (pass_captcha w d s).1
    = (process_captcha w 0 (log Warning "captcha triggered" (captcha s)).2).1 ∧
  page (pass_captcha w d s).2 = b2 ∧
  cookie_file (pass_captcha w d s).2 = cookie_file s.
Proof.
  intros Hframe Hswitch.
  destruct (pass_captcha w d s) as [o s'] eqn:Hrun. revert Hrun.
  unfold pass_captcha. l_run. rewrite Hframe. l_run. rewrite Hswitch. l_run.
  pose proof (process_captcha_loop_bound w (retry_cap - 0) 0
                (State (scratch (captcha s))
                   (trace (captcha s) ++ [EvLog Warning "captcha triggered"])))
    as [_ Hraise].
  fold (process_captcha w 0) in Hraise.
  destruct (process_captcha w 0 _) as [[[]|e] st2]; l_simpl.
  - by intros [= <- <-].
  - by intros [= <- <-].
  - rewrite (not_retryable_not_timeout e (Hraise e eq_refl)).
    by intros [= <- <-].
Qed.

(** ** The cookie file *)

Lemma keeps_file_bind {A C} (m : LM B A) (k : A → LM B C) :
  keeps_file m → (∀ a, keeps_file (k a)) → keeps_file (login.bind m k).
Proof.
  intros Hm Hk s. unfold login.bind. specialize (Hm s).
  destruct (m s) as [[a|e] s1]; l_simpl; [|done]. by rewrite Hk.
Qed.

Lemma keeps_file_try {A} (m : LM B A) (catches : exn → bool) (h : exn → LM B A) :
  keeps_file m → (∀ e, keeps_file (h e)) → keeps_file (login.try_except m catches h).
Proof.
  intros Hm Hh s. unfold login.try_except. specialize (Hm s).
  destruct (m s) as [[a|e] s1]; l_simpl; [done|].
  destruct (catches e); [|done]. by rewrite Hh.
Qed.

Lemma keeps_file_ret {A} (a : A) : keeps_file (login.ret (B := B) a).
Proof. by intros s. Qed.

Lemma keeps_file_browser {A} (f : B → res A * B) : keeps_file (browser f).
Proof. intros s. unfold browser. by destruct (f (page s)). Qed.

Lemma keeps_file_on_captcha {A} (m : M A) : keeps_file (on_captcha (B := B) m).
Proof. intros s. unfold on_captcha. by destruct (m (captcha s)). Qed.

Ltac keeps_step :=
  lazymatch goal with
  | |- keeps_file (login.bind _ _) => apply keeps_file_bind; [|intros ?]
  | |- keeps_file (login.try_except _ _ _) => apply keeps_file_try; [|intros ?]
  | |- keeps_file (login.ret _) => apply keeps_file_ret
  | |- keeps_file (browser _) => apply keeps_file_browser
  | |- keeps_file (on_captcha _) => apply keeps_file_on_captcha
  | |- keeps_file (if ?b then _ else _) => destruct b
  end.

Lemma keeps_file_send_form user pwd : keeps_file (send_form d user pwd).
Proof. unfold send_form. repeat keeps_step. Qed.

Lemma keeps_file_pass_captcha : keeps_file (pass_captcha w d).
Proof. unfold pass_captcha. repeat keeps_step. Qed.

(** [save_cookies] either writes the cookies of the browser and ends with
    the log line, or raises: before the file was opened, and the file is
    as it was, or while writing, and the file is left without JSON. *)
Lemma save_cookies_spec (s : session B) :
  ((save_cookies d s).1 = Ok tt ∧
   ∃ cookies b, get_cookies d (page s) = (Ok cookies, b) ∧
     page (save_cookies d s).2 = b ∧
     write_json d cookies = Ok tt ∧
     cookie_file (save_cookies d s).2 = Some (Items (JCookie <$> cookies)) ∧
     offered (save_cookies d s).2 = offered s ∧
     list.last (trace (captcha (save_cookies d s).2)) = Some (EvLog Info "cookies saved")) ∨
  (∃ e, (save_cookies d s).1 = Raise e ∧
        cookie_file (save_cookies d s).2 = cookie_file s) ∨
  (∃ cookies b e, get_cookies d (page s) = (Ok cookies, b) ∧
     open_for_writing d = Ok tt ∧
     write_json d cookies = Raise e ∧
     (save_cookies d s).1 = Raise e ∧
     cookie_file (save_cookies d s).2 = Some NotJson).
Proof.
  destruct (save_cookies d s) as [o s'] eqn:Hrun. revert Hrun.
  unfold save_cookies, dump, truncate. l_run.
  destruct (get_cookies d (page s)) as [[cookies|e] b] eqn:Hget; l_simpl.
  2:{ intros [= <- <-]. right. left. by exists e. }
  destruct (open_for_writing d) as [[]|e]; l_simpl.
  2:{ intros [= <- <-]. right. left. by exists e. }
  destruct (write_json d cookies) as [[]|e] eqn:Hwrite; l_simpl.
  2:{ intros [= <- <-]. right. right. by exists cookies, b, e. }
  intros [= <- <-]. left. split; [done|]. exists cookies, b. l_simpl.
  split_and!; [done..|]. apply last_snoc.
Qed.

Lemma confirm_login_spec (s : session B) :
  ((confirm_login d s).1 = Ok true ∧
   ∃ s2 cookies,
     save_cookies d s2 = (Ok tt, (confirm_login d s).2) ∧
     get_cookies d (page s2) = (Ok cookies, page (confirm_login d s).2) ∧
     write_json d cookies = Ok tt ∧
     cookie_file (confirm_login d s).2 = Some (Items (JCookie <$> cookies)) ∧
     list.last (trace (captcha (confirm_login d s).2))
       = Some (EvLog Info "cookies saved")) ∨
  ((confirm_login d s).1 ≠ Ok true ∧
   cookie_file (confirm_login d s).2 = cookie_file s) ∨
  ((confirm_login d s).1 ≠ Ok true ∧
   cookie_file (confirm_login d s).2 = Some NotJson ∧
   open_for_writing d = Ok tt ∧
   ∃ s2 cookies e,
     (get_cookies d (page s2)).1 = Ok cookies ∧
     write_json d cookies = Raise e ∧
     (save_cookies d s2).1 = Raise e ∧
     (is_TimeoutException e = false → (confirm_login d s).1 = Raise e)).
Proof.
  destruct (confirm_login d s) as [o s'] eqn:Hrun. revert Hrun.
  unfold confirm_login. unfold login.bind at 1, on_captcha at 1, sleep, emit. l_simpl.
  unfold login.bind at 1, browser at 1. l_simpl.
  destruct (switch_to_default_content d (page s)) as [[[]|e] b1]; l_simpl.
  2:{ intros [= <- <-]. right. by left. }
  set (s1 := Session _ b1 _ _).
  unfold login.try_except, login.bind at 1, browser at 1.
  destruct (wait_url_contains d "dashboard" (page s1)) as [[[]|e] b2]; l_simpl.
  - unfold login.bind at 1, on_captcha at 1, log, emit. l_simpl.
    set (s2 := Session _ b2 _ _).
    unfold login.bind at 1.
    destruct (save_cookies_spec s2)
      as [(Hok & cookies & b & Hget & Hpage & Hwrite & Hfile & _ & Hlast)
         |[(e & He & Hfile)
          |(cookies & b & e & Hget & Hopen & Hwrite & He & Hfile)]].
    + destruct (save_cookies d s2) as [[[]|e] s3] eqn:Hsave; [|done]. l_simpl.
      unfold login.ret. intros [= <- <-]. left. split; [done|].
      exists s2, cookies. split_and!; [done|by rewrite Hget, Hpage|done..].
    + destruct (save_cookies d s2) as [[[]|e'] s3]; [done|]. l_simpl.
      injection He as ->.
      destruct (is_TimeoutException e).
      * l_run. destruct (current_url d (page s3)) as [[url|e'] b3]; l_simpl.
        -- intros [= <- <-]. l_simpl. right. by left.
        -- intros [= <- <-]. l_simpl. right. by left.
      * intros [= <- <-]. right. by left.
    + assert (Hgave : (get_cookies d (page s2)).1 = Ok cookies) by (by rewrite Hget).
      destruct (save_cookies d s2) as [[[]|e'] s3] eqn:Hsave; [done|]. l_simpl.
      injection He as ->.
      assert (Hraised : (save_cookies d s2).1 = Raise e) by (by rewrite Hsave).
      destruct (is_TimeoutException e) eqn:Htimeout.
      * l_run. destruct (current_url d (page s3)) as [[url|e'] b3]; l_simpl.
        -- intros [= <- <-]. l_simpl. right. right. split_and!; [done..|].
           exists s2, cookies, e. split_and!; [done|done|done|congruence].
        -- intros [= <- <-]. l_simpl. right. right. split_and!; [done..|].
           exists s2, cookies, e. split_and!; [done|done|done|congruence].
      * intros [= <- <-]. right. right. split_and!; [done..|].
        exists s2, cookies, e. split_and!; [done|done|done|congruence].
  - destruct (is_TimeoutException e).
    + l_run. destruct (current_url d b2) as [[url|e'] b3]; l_simpl.
      * intros [= <- <-]. l_simpl. right. by left.
      * intros [= <- <-]. l_simpl. right. by left.
    + intros [= <- <-]. right. by left.
Qed.

(** X26. [do_login] returns [True] only after [save_cookies] has run to its
    end, as its last step: cookies.json then holds exactly the cookies
    that [driver.get_cookies()] answered in that call, [json.dump] went
    through, and the last action was the log line of saving.  In every
    other case ([False] or an exception) the file is as before, or, when
    [open(COOKIE_FILE, "w")] went through and [json.dump] then failed, is
    left without JSON; the error of [json.dump] then leaves [do_login],
    unless it is a [TimeoutException]. *)
Theorem do_login_saves_iff_true (user pwd : string) (s : session B) :
  ((do_login w d user pwd s).1 = Ok true ∧
   ∃ s2 cookies,
     save_cookies d s2 = (Ok tt, (do_login w d user pwd s).2) ∧
     get_cookies d (page s2) = (Ok cookies, page (do_login w d user pwd s).2) ∧
     write_json d cookies = Ok tt ∧
     cookie_file (do_login w d user pwd s).2 = Some (Items (JCookie <$> cookies)) ∧
     list.last (trace (captcha (do_login w d user pwd s).2))
       = Some (EvLog Info "cookies saved")) ∨
  ((do_login w d user pwd s).1 ≠ Ok true ∧
   cookie_file (do_login w d user pwd s).2 = cookie_file s) ∨
  ((do_login w d user pwd s).1 ≠ Ok true ∧
   cookie_file (do_login w d user pwd s).2 = Some NotJson ∧
   open_for_writing d = Ok tt ∧
   ∃ s2 cookies e,
     (get_cookies d (page s2)).1 = Ok cookies ∧
     write_json d cookies = Raise e ∧
     (save_cookies d s2).1 = Raise e ∧
     (is_TimeoutException e = false → (do_login w d user pwd s).1 = Raise e)).
Proof.
  destruct (do_login w d user pwd s) as [o s'] eqn:Hrun. revert Hrun.
  unfold do_login. unfold login.bind at 1, on_captcha at 1, log, emit. l_simpl.
  unfold login.bind at 1, browser at 1. l_simpl.
  destruct (drv_get d "https://app.rainyun.com/auth/login" (page s)) as [[[]|e] b1]; l_simpl.
  2:{ intros [= <- <-]. right. by left. }
  set (s1 := Session _ b1 _ _).
  assert (Hf0 : cookie_file s1 = cookie_file s) by done.
  pose proof (keeps_file_send_form user pwd s1) as Hf1.
  unfold login.bind at 1.
  destruct (send_form d user pwd s1) as [[[]|e] s2]; l_simpl;
    [|intros [= <- <-]; right; by left|intros [= <- <-]; right; by left].
  pose proof (keeps_file_pass_captcha s2) as Hf2.
  unfold login.bind at 1.
  destruct (pass_captcha w d s2) as [[[]|e] s3]; l_simpl;
    [|intros [= <- <-]; right; left; split; [done|congruence]
     |intros [= <- <-]; right; left; split; [done|congruence]].
  intros Hrun. pose proof (confirm_login_spec s3) as Hc. rewrite Hrun in Hc. l_simpl.
  destruct Hc as [Hc|[[Hne Hfile]|Hc]]; [by left| |by right; right].
  right. left. split; [done|congruence].
Qed.

(** ** Loading the cookies *)

Lemma exn_cases (e : exn) : is_Exception e = true ∨ ∃ cls, e = NonException cls.
Proof. destruct e; [by left..|right; by eexists]. Qed.

Lemma keeps_file_offer (c : cookie) : keeps_file (offer d c).
Proof. intros s. unfold offer. by destruct (add_cookie d c (page s)). Qed.

Lemma keeps_file_add_cookies (l : list item) : keeps_file (add_cookies d l).
Proof.
  induction l as [|[c|] l IH]; cbn [add_cookies]; [by intros s|..|by intros s].
  apply keeps_file_bind; [|by intros _].
  apply keeps_file_try; [apply keeps_file_offer|intros e; apply keeps_file_on_captcha].
Qed.

Lemma keeps_file_load : keeps_file (load d).
Proof.
  intros s. unfold load. l_run.
  destruct (open_for_reading d) as [[]|e]; [|done].
  destruct (cookie_file s) as [[| |l]|] eqn:Hf; l_simpl; by rewrite Hf.
Qed.

(** When the loop over the items ends normally, every item was a cookie
    and was handed to the browser without the two fields. *)
Lemma add_cookies_ok (l : list item) (s : session B) :
  (add_cookies d l s).1 = Ok tt →
  ∃ cookies, l = JCookie <$> cookies ∧
             offered (add_cookies d l s).2 = offered s ++ (strip <$> cookies).
Proof.
  revert s. induction l as [|[c|] l IH]; intros s; cbn [add_cookies].
  - intros _. exists []. by rewrite app_nil_r.
  - unfold login.bind, login.try_except, offer.
    destruct (add_cookie d (strip c) (page s)) as [[[]|e] b1]; l_simpl.
    + intros Hok. destruct (IH _ Hok) as (cookies & -> & Hoff).
      exists (c :: cookies). split; [done|]. rewrite Hoff. l_simpl.
      by rewrite <- app_assoc.
    + destruct (is_Exception e); [|done]. l_run.
      intros Hok. destruct (IH _ Hok) as (cookies & -> & Hoff).
      exists (c :: cookies). split; [done|]. rewrite Hoff. l_simpl.
      by rewrite <- app_assoc.
  - done.
Qed.

Lemma load_cookies_true (s : session B) :
  (load_cookies d s).1 = Ok true →
  ∃ cookies, cookie_file s = Some (Items (JCookie <$> cookies)) ∧
             offered (load_cookies d s).2 = offered s ++ (strip <$> cookies).
Proof.
  destruct (load_cookies d s) as [o s'] eqn:Hrun. revert Hrun.
  unfold load_cookies. unfold login.bind at 1, cookie_file_missing. l_simpl.
  destruct (cookie_file s) as [content|] eqn:Hfile.
  2:{ l_run. by intros [= <- <-]. }
  unfold login.try_except, login.bind at 1, load. l_run. rewrite Hfile.
  assert (Hfail : ∀ (e : exn) (s1 : session B),
            (if is_Exception e
             then (Ok false,
                   Session (State (scratch (captcha s1))
                              (trace (captcha s1)
                                 ++ [EvLog Error "loading the cookies failed"]))
                     (page s1) (cookie_file s1) (offered s1))
             else (Raise e, s1)) = (o, s') →
            o = Ok true →
            ∃ cookies, Some content = Some (Items (JCookie <$> cookies)) ∧
                       offered s' = offered s ++ (strip <$> cookies)).
  { intros e s1. destruct (is_Exception e); by intros [= <- <-]. }
  destruct (open_for_reading d) as [[]|e]; l_simpl; [|by apply (Hfail e s)].
  destruct content as [| |l]; l_simpl; [by apply (Hfail _ s)| |].
  - destruct (drv_get d "https://app.rainyun.com" (page s)) as [[[]|e] b1]; l_simpl.
    + apply (Hfail (OtherException "TypeError")
               (Session (captcha s) b1 (cookie_file s) (offered s))).
    + apply (Hfail e (Session (captcha s) b1 (cookie_file s) (offered s))).
  - destruct (drv_get d "https://app.rainyun.com" (page s)) as [[[]|e] b1]; l_simpl.
    2:{ apply (Hfail e (Session (captcha s) b1 (cookie_file s) (offered s))). }
    set (s1 := Session (captcha s) b1 (cookie_file s) (offered s)).
    pose proof (add_cookies_ok l s1) as Hadd.
    destruct (add_cookies d l s1) as [[[]|e] s2]; l_simpl.
    + intros [= <- <-] _. l_simpl. destruct (Hadd eq_refl) as (cookies & -> & Hoff).
      by exists cookies.
    + apply (Hfail e s2).
Qed.

(** X27. [load_cookies] lets no [Exception] out and never changes cookies.json;
    without the file it answers [False] and leaves the browser alone. *)
Theorem load_cookies_contains_errors (s : session B) :
  ((∃ b, (load_cookies d s).1 = Ok b) ∨
   (∃ cls, (load_cookies d s).1 = Raise (NonException cls))) ∧
  cookie_file (load_cookies d s).2 = cookie_file s ∧
  (cookie_file s = None →
   (load_cookies d s).1 = Ok false ∧
   page (load_cookies d s).2 = page s ∧
   offered (load_cookies d s).2 = offered s).
Proof.
  split_and!.
  - destruct (load_cookies d s) as [o s'] eqn:Hrun. l_simpl. revert Hrun.
    unfold load_cookies. unfold login.bind at 1, cookie_file_missing. l_simpl.
    destruct (cookie_file s) as [content|].
    2:{ l_run. intros [= <- <-]. left. by eexists. }
    unfold login.try_except.
    destruct (login.bind (load d) _ s) as [[b|e] s1]; l_simpl.
    + intros [= <- <-]. left. by exists b.
    + destruct (exn_cases e) as [He|(cls & ->)].
      * rewrite He. l_run. intros [= <- <-]. left. by eexists.
      * l_simpl. intros [= <- <-]. right. by exists cls.
  - assert (Hk : keeps_file (load_cookies d)); [|apply Hk].
    unfold load_cookies. apply keeps_file_bind; [by intros s0|intros missing].
    destruct missing.
    + repeat keeps_step.
    + apply keeps_file_try.
      * apply keeps_file_bind; [apply keeps_file_load|intros content].
        apply keeps_file_bind; [apply keeps_file_browser|intros _].
        apply keeps_file_bind; [|intros _; repeat keeps_step].
        destruct content; [by intros s0|by intros s0|apply keeps_file_add_cookies].
      * intros e. repeat keeps_step.
  - intros Hnone. destruct (load_cookies d s) as [o s'] eqn:Hrun. l_simpl. revert Hrun.
    unfold load_cookies. unfold login.bind at 1, cookie_file_missing.
    l_simpl. rewrite Hnone. l_run. by intros [= <- <-].
Qed.

(** X28. What [save_cookies] wrote, [load_cookies] reads back: when it answers
    [True], it has handed every saved cookie to the browser, in order,
    without its [sameSite] and [expiry] fields. *)
Theorem saved_cookies_are_offered (s : session B) (cookies : list cookie) (b : B) :
  get_cookies d (page s) = (Ok cookies, b) →
  (save_cookies d s).1 = Ok tt →
  (load_cookies d (save_cookies d s).2).1 = Ok true →
  offered (load_cookies d (save_cookies d s).2).2 = offered s ++ (strip <$> cookies).
Proof.
  intros Hget Hsave Hload.
  destruct (save_cookies_spec s)
    as [(_ & cookies' & b' & Hget' & _ & _ & Hfile & Hoff & _)
       |[(e & He & _)|(? & ? & e & _ & _ & _ & He & _)]]; [|congruence..].
  rewrite Hget in Hget'. injection Hget' as <- <-.
  destruct (load_cookies_true _ Hload) as (cookies' & Hfile' & Hoffered).
  rewrite Hfile in Hfile'. injection Hfile' as Heq.
  assert (cookies' = cookies) as ->.
  { clear -Heq. revert cookies' Heq.
    induction cookies as [|c cookies IH]; intros [|c' cookies']; try done.
    intros [= -> Hrest]. f_equal. by apply IH. }
  by rewrite Hoffered, Hoff.
Qed.

End LoginProperties.

(** ** The login on the concrete visit *)

Section VisitCases.

Import login.

Lemma captcha_outcome_decides_witness :
  (pass_captcha Sample.placeholder Visit.chrome Visit.fresh).1
    = (process_captcha Sample.placeholder 0
         (log Warning "captcha triggered" (captcha Visit.fresh)).2).1 ∧
  page (pass_captcha Sample.placeholder Visit.chrome Visit.fresh).2 = tt ∧
  cookie_file (pass_captcha Sample.placeholder Visit.chrome Visit.fresh).2
    = cookie_file Visit.fresh.
Proof.
  apply (captcha_outcome_decides Sample.placeholder Visit.chrome Visit.fresh 0 tt tt);
    reflexivity.
Defined.

Lemma saved_cookies_are_offered_witness :
  (save_cookies Visit.chrome Visit.fresh).1 = Ok tt ∧
  (load_cookies Visit.chrome (save_cookies Visit.chrome Visit.fresh).2).1 = Ok true ∧
  offered (load_cookies Visit.chrome (save_cookies Visit.chrome Visit.fresh).2).2
    = offered Visit.fresh ++ (strip <$> [Visit.session_cookie; Visit.theme_cookie]).
Proof.
  assert (Hsave : (save_cookies Visit.chrome Visit.fresh).1 = Ok tt)
    by (vm_compute; reflexivity).
  assert (Hload : (load_cookies Visit.chrome
                     (save_cookies Visit.chrome Visit.fresh).2).1 = Ok true)
    by (vm_compute; reflexivity).
  split_and!; [done..|].
  apply (saved_cookies_are_offered Visit.chrome Visit.fresh
           [Visit.session_cookie; Visit.theme_cookie] tt); [reflexivity|done|done].
Defined.

(** A login on this visit with a solvable captcha succeeds and saves the
    two cookies. *)
Example do_login_clean :
  (do_login Sample.clean Visit.chrome "user" "secret" Visit.fresh).1 = Ok true ∧
  cookie_file (do_login Sample.clean Visit.chrome "user" "secret" Visit.fresh).2
    = Some (Items [JCookie Visit.session_cookie; JCookie Visit.theme_cookie]).
Proof. split; vm_compute; reflexivity. Qed.

(** On a full disk the same login ends with the error of [json.dump], and
    the cookies of the earlier login are gone: the file was opened for
    writing and is left empty. *)
Example do_login_disk_full :
  cookie_file Visit.returning = Some (Items [JCookie Visit.session_cookie]) ∧
  (do_login Sample.clean Visit.disk_full "user" "secret" Visit.returning).1
    = Raise (OtherException "OSError") ∧
  cookie_file (do_login Sample.clean Visit.disk_full "user" "secret" Visit.returning).2
    = Some NotJson.
Proof. split_and!; vm_compute; reflexivity. Qed.

End VisitCases.

(** ** The further properties on the concrete worlds *)

Lemma compute_similarity_bounds_witness :
  holds_crop Sample.clean Cases.two_crops "sprite_1.jpg" (Image 3 [[10; 11; 12]%Z]) ∧
  holds_crop Sample.clean Cases.two_crops "spec_1.jpg" (Image 4 [[10; 11; 12; 13]%Z]) ∧
  ∃ sim votes,
    (compute_similarity Sample.clean "sprite_1.jpg" "spec_1.jpg" Cases.two_crops).1
      = Ok (sim, votes) ∧
    (Q2Qc 0 ≤ sim)%Qc ∧ (sim ≤ Q2Qc 1)%Qc ∧
    (votes = 0 ↔ sim = Q2Qc 0) ∧
    ∀ d1 d2,
      sift_detectAndCompute Sample.clean (Image 3 [[10; 11; 12]%Z]) = Some d1 →
      sift_detectAndCompute Sample.clean (Image 4 [[10; 11; 12; 13]%Z]) = Some d2 →
      votes = length (good_matches (bf_knnMatch Sample.clean d1 d2)) ∧
      votes ≤ length (bf_knnMatch Sample.clean d1 d2).
Proof.
  assert (H1 : holds_crop Sample.clean Cases.two_crops "sprite_1.jpg"
                 (Image 3 [[10; 11; 12]%Z])).
  { exists (Sample.pixels [10; 11; 12]%Z), 1. split; by vm_compute. }
  assert (H2 : holds_crop Sample.clean Cases.two_crops "spec_1.jpg"
                 (Image 4 [[10; 11; 12; 13]%Z])).
  { exists (Sample.pixels [10; 11; 12; 13]%Z), 1. split; by vm_compute. }
  split_and!; [done..|].
  exact (compute_similarity_bounds Sample.clean Cases.two_crops _ _ _ _ H1 H2).
Defined.

Lemma download_image_stores_witness :
  ∃ st',
    download_image Sample.clean 0 "bg" "captcha.jpg" Sample.start = (Ok true, st') ∧
    scratch st' =
      Some (<["captcha.jpg" := EFile Sample.captcha_bytes (epoch Sample.start)]>
              (default ∅ (scratch Sample.start))) ∧
    trace st' = trace Sample.start ++ [EvHttpGet "bg"; EvWrite "captcha.jpg"] ∧
    (open_read "captcha.jpg" st').1 = Ok Sample.captcha_bytes.
Proof.
  apply (download_image_stores Sample.clean 0 "bg" "captcha.jpg"
           (Response 200 Sample.captcha_bytes) Sample.start);
    [by vm_compute|done|by vm_compute].
Defined.

Lemma download_image_fails_witness :
  (∃ msg,
     download_image Cases.not_found 0 "bg" "captcha.jpg" Sample.start =
       (Ok false,
        State (Some (default ∅ (scratch Sample.start)))
          (trace Sample.start ++ [EvHttpGet "bg"; EvLog Error msg]))) ∧
  (∃ msg,
     download_image Cases.offline 0 "bg" "captcha.jpg" Sample.no_scratch =
       (Ok false,
        State (Some (default ∅ (scratch Sample.no_scratch)))
          (trace Sample.no_scratch ++ [EvHttpGet "bg"; EvLog Error msg]))).
Proof.
  split.
  - apply (download_image_fails Cases.not_found 0 "bg" "captcha.jpg" Sample.start).
    left. exists (Response 404 []). split; [by vm_compute|done].
  - apply (download_image_fails Cases.offline 0 "bg" "captcha.jpg" Sample.no_scratch).
    right. by vm_compute.
Defined.

Lemma process_captcha_raises_only_unexpected_witness :
  (process_captcha Sample.flaky 1 Sample.start).1
    = Raise (OtherException "WebDriverException") ∧
  retryable (OtherException "WebDriverException") = false.
Proof.
  assert (H : (process_captcha Sample.flaky 1 Sample.start).1
              = Raise (OtherException "WebDriverException")) by (by vm_compute).
  split; [exact H|].
  exact (process_captcha_raises_only_unexpected Sample.flaky 1 Sample.start _ H).
Defined.

Lemma process_captcha_true_verified_witness :
  (process_captcha Sample.clean 0 Sample.start).1 = Ok true ∧
  ∃ k t, 0 ≤ k < retry_cap ∧
         confirm_click Sample.clean k = Ok tt ∧
         result_success Sample.clean k = Ok true ∧
         trace (process_captcha Sample.clean 0 Sample.start).2
           = t ++ [EvLog Info "submitting the captcha"; EvSubmit; EvSleep 5;
                   EvLog Info "captcha passed"].
Proof.
  assert (H : (process_captcha Sample.clean 0 Sample.start).1 = Ok true)
    by (by vm_compute).
  split; [exact H|].
  exact (process_captcha_true_verified Sample.clean 0 Sample.start H).
Defined.

Lemma download_captcha_img_background_fails_witness :
  ∃ msg,
    download_captcha_img Cases.not_found 0 Sample.start =
      (Raise (CaptchaRetryableError "captcha background download failed"),
       State (Some (default ∅ (filter (λ kv, kv.2 = EDir) <$> scratch Sample.start)))
             (trace Sample.start
                ++ [EvAcquire; EvLog Info "downloading captcha image (1)";
                    EvHttpGet "bg"; EvLog Error msg])).
Proof.
  apply (download_captcha_img_background_fails Cases.not_found 0
           "background-image: url(bg); width: 24px; height: 2px;" "bg" Sample.start);
    [by vm_compute|done|by vm_compute|].
  left. exists (Response 404 []). split; [by vm_compute|done].
Defined.

Lemma download_captcha_img_style_unusable_witness :
  ∃ msg,
    download_captcha_img Cases.no_style 0 Sample.start =
      (Raise (ValueError msg),
       State (filter (λ kv, kv.2 = EDir) <$> scratch Sample.start)
         (trace Sample.start ++ [EvAcquire])) ∧
    retryable (ValueError msg) = true.
Proof.
  apply (download_captcha_img_style_unusable Cases.no_style 0 Sample.start).
  left. reflexivity.
Defined.

Lemma refresh_failure_gives_up_witness :
  (process_captcha_loop (Cases.no_reload Sample.flaky) 5 0 Sample.start).1 = Ok false ∧
  acquisitions
    (trace (process_captcha_loop (Cases.no_reload Sample.flaky) 5 0 Sample.start).2)
    = acquisitions (trace (attempt (Cases.no_reload Sample.flaky) 0 Sample.start).2) ∧
  list.last
    (trace (process_captcha_loop (Cases.no_reload Sample.flaky) 5 0 Sample.start).2)
    = Some (EvLog Error "cannot refresh the captcha, giving up").
Proof.
  apply (refresh_failure_gives_up (Cases.no_reload Sample.flaky) 4 0 Sample.start
           (attempt (Cases.no_reload Sample.flaky) 0 Sample.start).2
           TimeoutException (OtherException "NoSuchElementException"));
    [by vm_compute|done|by left|done].
Defined.

Lemma refresh_failure_after_attempt_raises_witness :
  process_captcha_loop (Cases.no_reload Sample.placeholder) 5 0 Sample.start =
    (Raise (OtherException "NoSuchElementException"),
     State (scratch (attempt (Cases.no_reload Sample.placeholder) 0 Sample.start).2)
       (trace (attempt (Cases.no_reload Sample.placeholder) 0 Sample.start).2
          ++ [EvFindReload])).
Proof.
  apply (refresh_failure_after_attempt_raises (Cases.no_reload Sample.placeholder)
           4 0 Sample.start
           (attempt (Cases.no_reload Sample.placeholder) 0 Sample.start).2
           (OtherException "NoSuchElementException"));
    [by vm_compute|done|done].
Defined.

Lemma accepted_answer_three_boxes_witness :
  (check_answer
     (default ∅ (match (match_boxes Sample.clean Cases.background 0 Sample.boxes ∅
                          Cases.attempted).1 with
                 | Ok result => Some result
                 | Raise _ => None
                 end)) Sample.start).1 = Ok true ∧
  3 ≤ length Sample.boxes ∧
  ∃ b0 b1 b2,
    b0 ∈ Sample.boxes ∧ b1 ∈ Sample.boxes ∧ b2 ∈ Sample.boxes ∧
    center b0 = "2,0" ∧ center b1 = "6,0" ∧ center b2 = "10,0" ∧
    center b0 ≠ center b1 ∧ center b0 ≠ center b2 ∧ center b1 ≠ center b2.
Proof.
  assert (Hok : (check_answer (default ∅ (match (match_boxes Sample.clean Cases.background 0 Sample.boxes ∅ Cases.attempted).1 with Ok result => Some result | Raise _ => None end)) Sample.start).1 = Ok true)
    by (vm_compute; reflexivity).
  assert (E0 : (default ∅ (match (match_boxes Sample.clean Cases.background 0 Sample.boxes ∅ Cases.attempted).1 with Ok result => Some result | Raise _ => None end)) !! position_key 0 = Some (PyStr "2,0"))
    by (vm_compute; reflexivity).
  assert (E1 : (default ∅ (match (match_boxes Sample.clean Cases.background 0 Sample.boxes ∅ Cases.attempted).1 with Ok result => Some result | Raise _ => None end)) !! position_key 1 = Some (PyStr "6,0"))
    by (vm_compute; reflexivity).
  assert (E2 : (default ∅ (match (match_boxes Sample.clean Cases.background 0 Sample.boxes ∅ Cases.attempted).1 with Ok result => Some result | Raise _ => None end)) !! position_key 2 = Some (PyStr "10,0"))
    by (vm_compute; reflexivity).
  split; [exact Hok|].
  destruct (match_boxes Sample.clean Cases.background 0 Sample.boxes ∅ Cases.attempted) as [[result|e] st'] eqn:Hrun; cbn [fst default from_option id] in *;
    [|vm_compute in Hok; discriminate Hok].
  destruct (accepted_answer_three_boxes Sample.clean Cases.background Sample.boxes
              result Cases.attempted st' Sample.start Hrun Hok)
    as (Hlen & b0 & b1 & b2 & Hb0 & Hb1 & Hb2 & H0 & H1 & H2 & Hd).
  split; [exact Hlen|].
  exists b0, b1, b2.
  split_and!; [done|done|done|congruence|congruence|congruence|apply Hd..].
Defined.

(** ** The properties of the server manager on the concrete account *)

Section FleetCases.

Import server_manager.
Local Open Scope Z_scope.

Lemma get_all_servers_listed_witness :
  (get_all_servers Fleet.rich Fleet.start).1 = Return [Fleet.alpha; Fleet.gamma] ∧
  sublist (map id [Fleet.alpha; Fleet.gamma]) [1; 2; 3; 4] ∧
  Forall (λ s, 0 < expired_at s) [Fleet.alpha; Fleet.gamma] ∧
  calls (history (get_all_servers Fleet.rich Fleet.start).2)
    = calls (history Fleet.start) ++ GetServerIds :: map GetServerDetail [1; 2; 3; 4].
Proof.
  assert (Hrun : get_all_servers Fleet.rich Fleet.start
                 = (Return [Fleet.alpha; Fleet.gamma],
                    (get_all_servers Fleet.rich Fleet.start).2))
    by (vm_compute; reflexivity).
  split; [by rewrite Hrun|].
  apply (get_all_servers_listed Fleet.rich Fleet.start _ [1; 2; 3; 4] tt
           [Fleet.alpha; Fleet.gamma]); [reflexivity|exact Hrun].
Defined.

Lemma get_all_servers_list_failure_witness :
  (get_all_servers Fleet.no_list Fleet.start).1 = Return [] ∧
  calls (history (get_all_servers Fleet.no_list Fleet.start).2)
    = calls (history Fleet.start) ++ [GetServerIds].
Proof.
  apply (get_all_servers_list_failure Fleet.no_list Fleet.start "500" tt). reflexivity.
Defined.

Lemma check_and_renew_accounting_witness :
  ∃ r,
    (check_and_renew Fleet.rich Fleet.manager Fleet.start).1 = Return r ∧
    renewed r = ["alpha"] ∧
    points r = 5000 - RENEW_COST_7_DAYS * Z.of_nat (length (renewed r)) ∧
    renewed r = map st_name (renewed_of (servers r)) ∧
    (0 ≤ 5000 → 0 ≤ points r).
Proof.
  set (r := Summary 2742
              [Status "alpha" (pretty (2 * Fleet.day * 1000000)) 2 true;
               Status (default_name 3) (pretty (30 * Fleet.day * 1000000)) 30 false]
              ["alpha"] []).
  assert (Hrun : check_and_renew Fleet.rich Fleet.manager Fleet.start
                 = (Return r, (check_and_renew Fleet.rich Fleet.manager Fleet.start).2))
    by (vm_compute; reflexivity).
  exists r. split; [by rewrite Hrun|]. split; [done|].
  apply (check_and_renew_accounting Fleet.rich Fleet.manager Fleet.start
           (check_and_renew Fleet.rich Fleet.manager Fleet.start).2 5000 tt r);
    [reflexivity|exact Hrun].
Defined.

Lemma check_and_renew_without_points_witness :
  renewals (history (check_and_renew Fleet.poor Fleet.manager Fleet.start).2)
    = renewals (history Fleet.start).
Proof.
  apply (check_and_renew_without_points Fleet.poor Fleet.manager Fleet.start 100 tt);
    [reflexivity|unfold RENEW_COST_7_DAYS; lia].
Defined.

Lemma check_and_renew_renews_listed_witness :
  ∃ new,
    renewals (history (check_and_renew Fleet.rich Fleet.manager Fleet.start).2)
      = renewals (history Fleet.start) ++ new ∧
    Forall (λ c, c.2 = 7) new ∧
    sublist (map fst new) [1; 2; 3; 4].
Proof.
  apply (check_and_renew_renews_listed Fleet.rich Fleet.manager Fleet.start 5000 tt tt);
    reflexivity.
Defined.

Lemma check_and_renew_points_failure_witness :
  (check_and_renew Fleet.no_points Fleet.manager Fleet.start).1
    = Return (Summary 0 [] [] ["API call failed: " +:+ "401"]) ∧
  calls (history (check_and_renew Fleet.no_points Fleet.manager Fleet.start).2)
    = calls (history Fleet.start) ++ [GetUserPoints].
Proof.
  apply (check_and_renew_points_failure Fleet.no_points Fleet.manager Fleet.start
           "401" tt).
  reflexivity.
Defined.

Lemma servers_not_due_not_renewed_witness :
  renewals (history (check_servers Fleet.rich Fleet.manager [Fleet.gamma] Fleet.start).2)
    = renewals (history Fleet.start) ∧
  ((check_servers Fleet.rich Fleet.manager [Fleet.gamma] Fleet.start).1 = Return tt →
   points (var_result
             (check_servers Fleet.rich Fleet.manager [Fleet.gamma] Fleet.start).2)
     = points (var_result Fleet.start) ∧
   renewed (var_result
              (check_servers Fleet.rich Fleet.manager [Fleet.gamma] Fleet.start).2)
     = renewed (var_result Fleet.start)).
Proof.
  apply (servers_not_due_not_renewed Fleet.rich Fleet.manager [Fleet.gamma] Fleet.start).
  constructor; [|constructor].
  intros e s [= <-]. by vm_compute.
Defined.

Lemma auto_renew_switch_witness :
  renewals (history (manage Fleet.rich {["AUTO_RENEW" := "False"]} Fleet.start).2)
    = renewals (history Fleet.start).
Proof.
  apply (auto_renew_switch Fleet.rich {["AUTO_RENEW" := "False"]} "False" Fleet.start);
    [by vm_compute|by vm_compute].
Defined.

End FleetCases.

Lemma axis_offset_within_display_witness :
  ∃ z, axis_offset 58 100 (binary64.of_Z 100) Sample.start = (Ok z, Sample.start) ∧
       within_half z (binary64.of_Z 100).
Proof. apply axis_offset_within_display; [lia|lia|done|done]. Defined.
